(** * flyagi: the real-time orchestration core, embedded in Rocq

    This development embeds the change engine ([internal/selfmod/engine.go]),
    the connection hub ([internal/ws/hub.go]) and the session handler
    ([internal/ws/handlers.go]) of flyagi as executable Rocq definitions, and
    proves properties of them.

    Conventions.
    - A Go [string] is a Rocq [string] (a sequence of bytes, [String.length]
      is Go's [len]); a Go [[]byte] is a [list ascii].
    - A Go pointer [*ChangeRequest] is an address into an explicit store, so
      that two holders of one pointer see one object.
    - A Go [error] result is an [option] of an error value ([None] is [nil]).
    - Functions of the Go standard library and of third-party packages are
      modelled next to the code that calls them, in a module named after
      their package. *)

From stdpp Require Import gmap strings list.
From Stdlib Require Import ZArith Ascii Lia.

#[global] Set Warnings "-register-all".

(** ** Package [strings] of the Go standard library *)

Module strings.

(** [strings.HasPrefix(s, prefix)]. *)
Definition HasPrefix (s prefix : string) : bool := String.prefix prefix s.

(** [strings.Contains(s, substr)]: [substr] starts at some offset of [s]. *)
Fixpoint Contains (s substr : string) : bool :=
  String.prefix substr s ||
  match s with
  | EmptyString => false
  | String _ t => Contains t substr
  end.

(** [strings.Index(s, substr)]: the first offset, [None] for Go's [-1]. *)
Fixpoint Index (s substr : string) : option nat :=
  if String.prefix substr s then Some 0
  else match s with
       | EmptyString => None
       | String _ t => S <$> Index t substr
       end.

(** The slice expressions [s[i:]] and [s[:j]] (used within bounds only). *)
Fixpoint from (i : nat) (s : string) : string :=
  match i, s with
  | S i', String _ t => from i' t
  | _, _ => s
  end.

Fixpoint upto (j : nat) (s : string) : string :=
  match j, s with
  | S j', String c t => String c (upto j' t)
  | _, _ => EmptyString
  end.

(** [strings.Join(elems, sep)]. *)
Definition Join (elems : list string) (sep : string) : string :=
  String.concat sep elems.

End strings.

(** ** Package [path/filepath] (Unix) *)

Module filepath.

(** The path elements between separators; [split "a//b" = ["a"; ""; "b"]]. *)
Fixpoint split (s : string) : list string :=
  match s with
  | EmptyString => [EmptyString]
  | String c t =>
      if Ascii.eqb c "/" then EmptyString :: split t
      else match split t with
           | [] => [String c EmptyString]
           | x :: xs => String c x :: xs
           end
  end.

(** One iteration of the loop of [Clean] over a whole path element. [out]
    is the output buffer as a stack of elements, last written first. An
    empty element and [.] are dropped; [..] removes the last real element
    when there is one, is dropped at the root, and is kept in front of a
    relative path. *)
Definition clean_step (rooted : bool) (out : list string) (el : string)
  : list string :=
  if String.eqb el "" || String.eqb el "." then out
  else if String.eqb el ".." then
    match out with
    | last :: out' => if String.eqb last ".." then el :: out else out'
    | [] => if rooted then [] else [el]
    end
  else el :: out.

(** [filepath.Clean(path)]. *)
Definition Clean (path : string) : string :=
  match path with
  | EmptyString => "."
  | String c _ =>
      let rooted := Ascii.eqb c "/" in
      let out := fold_left (clean_step rooted) (split path) [] in
      let body := strings.Join (rev out) "/" in
      if rooted then "/" +:+ body
      else if String.eqb body "" then "." else body
  end.

(** [filepath.Join(a, b)]: the first non-empty element onwards, joined by
    the separator and cleaned. *)
Definition Join (a b : string) : string :=
  if negb (String.eqb a "") then Clean (a +:+ "/" +:+ b)
  else if negb (String.eqb b "") then Clean b
  else "".

(** The prefix of [path] up to and including its last separator. *)
Fixpoint dir_prefix (path : string) : string :=
  match path with
  | EmptyString => EmptyString
  | String c t =>
      if strings.Contains path "/" then String c (dir_prefix t)
      else EmptyString
  end.

(** [filepath.Dir(path)]. *)
Definition Dir (path : string) : string := Clean (dir_prefix path).

End filepath.

(** ** Package [os]: the working tree

    The working tree as the engine observes it: the content of every regular
    file, and the paths on which the operating system refuses an operation
    (permissions, I/O errors). *)

Module os.

Record FS := mkFS {
  files : gmap string string;
  faulty : gset string
}.

Inductive oserror :=
| ErrNotExist
| ErrIO.

(** [os.IsNotExist(err)]. *)
Definition IsNotExist (err : oserror) : bool :=
  match err with ErrNotExist => true | ErrIO => false end.

Definition ReadFile (fs : FS) (name : string) : string + oserror :=
  if bool_decide (name ∈ faulty fs) then inr ErrIO
  else match files fs !! name with
       | Some data => inl data
       | None => inr ErrNotExist
       end.

Definition MkdirAll (fs : FS) (dir : string) : FS * option oserror :=
  if bool_decide (dir ∈ faulty fs) then (fs, Some ErrIO) else (fs, None).

Definition WriteFile (fs : FS) (name data : string) : FS * option oserror :=
  if bool_decide (name ∈ faulty fs) then (fs, Some ErrIO)
  else (mkFS (<[name := data]> (files fs)) (faulty fs), None).

Definition Remove (fs : FS) (name : string) : FS * option oserror :=
  if bool_decide (name ∈ faulty fs) then (fs, Some ErrIO)
  else match files fs !! name with
       | Some _ => (mkFS (delete name (files fs)) (faulty fs), None)
       | None => (fs, Some ErrNotExist)
       end.

End os.

(** ** Package [provider]: the model-provider interface and its registry *)

Module provider.

Record Message := mkMessage {
  Role : string;
  Content : string
}.

Record StreamChunk := mkChunk {
  ChunkContent : string;
  Done : bool
}.

(** The interface [LLMProvider]. [ChatStream messages] is the run of the
    provider on [messages]: the chunks it hands to [onChunk], in order, and
    the error it ends with when no callback fails. *)
Record LLMProvider := mkLLM {
  Name : string;
  ChatStream : list Message -> list StreamChunk * option string
}.

Record Registry := mkRegistry {
  llms : gmap string LLMProvider
}.

Definition NewRegistry : Registry := mkRegistry ∅.

Definition RegisterLLM (r : Registry) (p : LLMProvider) : Registry :=
  mkRegistry (<[Name p := p]> (llms r)).

(** [GetLLM]: the provider registered under [name], or the error
    [LLM provider %q not found]. *)
Definition GetLLM (r : Registry) (name : string) : LLMProvider + string :=
  match llms r !! name with
  | Some p => inl p
  | None => inr name
  end.

End provider.

(** ** Package [selfmod]: the change engine ([internal/selfmod/engine.go]) *)

Module selfmod.

(** The keys of the map [protectedPaths]. The loop of [validateChange] over
    the map returns the same error whichever key matches first, so the
    iteration order of the Go map does not show. *)
Definition protectedPaths : list string :=
  ["Dockerfile"; "fly.toml"; ".github"; ".env"; ".env.local";
   ".env.production"].

Record FileChange := mkChange {
  Path : string;
  Action : string;
  NewContent : string
}.

Record FileDiff := mkDiff {
  DiffPath : string;
  Diff : string
}.

Record ChangeRequest := mkCR {
  ID : string;
  Description : string;
  Changes : list FileChange;
  Diffs : list FileDiff;
  Status : string;
  CreatedAt : Z
}.

(** The error values the engine builds with [fmt.Errorf], one constructor
    per format string. *)
Inductive error :=
| ErrCollectContext (err : os.oserror)
    (* failed to collect context: %w *)
| ErrLLMRequest (err : string)
    (* LLM request failed: %w *)
| ErrParseResponse (sample : string)
    (* failed to parse LLM response: %w (response: %s) *)
| ErrInvalidChange (err : error)
    (* invalid change: %w *)
| ErrGenerateDiffs (err : error)
    (* failed to generate diffs: %w *)
| ErrProtectedPath (path : string)
    (* cannot modify protected path: %s *)
| ErrPathTraversal (path : string)
    (* path traversal not allowed: %s *)
| ErrInvalidAction (action : string)
    (* invalid action: %s *)
| ErrFileTooLarge (path : string) (size : nat)
    (* file too large: %s (%d bytes) *)
| ErrReadFile (path : string) (err : os.oserror)
    (* failed to read %s: %w *)
| ErrNotFound (requestID : string)
    (* change request %q not found *)
| ErrNotPending (status : string)
    (* change request is %s, not pending *)
| ErrCreateDirectory (dir : string) (err : os.oserror)
    (* failed to create directory %s: %w *)
| ErrWriteFile (path : string) (err : os.oserror)
    (* failed to write %s: %w *)
| ErrDeleteFile (path : string) (err : os.oserror)
    (* failed to delete %s: %w *)
| PanicNilDereference.
    (* the run-time panic of a dereference of an unallocated pointer *)

(** A [*ChangeRequest] is an address in [store]. [requests] (the
    [sync.Map]) and [history] (the slice) both hold such pointers. *)
Definition ptr := nat.

Record Engine := mkEngine {
  repoPath : string;
  store : list ChangeRequest;
  requests : gmap string ptr;
  history : list ptr
}.

Definition NewEngine (repoPath : string) : Engine :=
  mkEngine repoPath [] ∅ [].

(** [&ChangeRequest{...}]: a fresh object and its address. *)
Definition new (st : list ChangeRequest) (cr : ChangeRequest)
  : list ChangeRequest * ptr :=
  (st ++ [cr], length st).

(** [cr.Status = status] through the pointer [p]. *)
Definition setStatus (st : list ChangeRequest) (p : ptr) (status : string)
  : list ChangeRequest :=
  match st !! p with
  | Some cr =>
      <[p := mkCR (ID cr) (Description cr) (Changes cr) (Diffs cr) status
                  (CreatedAt cr)]> st
  | None => st
  end.

(** What [filepath.Walk] finds under the root: regular files, directories
    with their entries in lexical order, and entries for which it hands an
    error to the callback. [name] is the base name of the entry. *)
Inductive node :=
| File (name : string)
| Dir (name : string) (entries : list node)
| Unreadable (name : string) (err : os.oserror).

Definition nl : string := String (ascii_of_nat 10) "".
Definition quote : string := String (ascii_of_nat 34) "".

(** The callback of [collectContext] on the entry [n] whose path relative
    to the root is [rel], and the walk below it: an error aborts the walk,
    a directory that is hidden or a dependency or output directory is
    skipped with its content ([filepath.SkipDir]), a file adds one line. *)
Fixpoint walk (rel : string) (n : node) : string + os.oserror :=
  match n with
  | Unreadable _ err => inr err
  | File _ => inl ("  " +:+ rel +:+ nl)
  | Dir base entries =>
      if strings.HasPrefix base "." || String.eqb base "node_modules"
         || String.eqb base "vendor" || String.eqb base "dist"
      then inl ""
      else
        (fix walk_entries (l : list node) : string + os.oserror :=
           match l with
           | [] => inl ""
           | m :: l' =>
               let name := match m with
                           | File nm | Dir nm _ | Unreadable nm _ => nm
                           end in
               let rel' := if String.eqb rel "." then name
                           else rel +:+ "/" +:+ name in
               match walk rel' m with
               | inr err => inr err
               | inl s =>
                   match walk_entries l' with
                   | inr err => inr err
                   | inl s' => inl (s +:+ s')
                   end
               end
           end) entries
  end.

Definition collectContext (root : node) : string + os.oserror :=
  match walk "." root with
  | inr err => inr err
  | inl listing => inl ("File tree:" +:+ nl +:+ listing)
  end.

Definition validateChange (change : FileChange) : option error :=
  let cleanPath := filepath.Clean (Path change) in
  if existsb (fun protected => strings.HasPrefix cleanPath protected)
             protectedPaths
  then Some (ErrProtectedPath (Path change))
  else if strings.Contains cleanPath ".."
  then Some (ErrPathTraversal (Path change))
  else if negb (String.eqb (Action change) "create"
                || String.eqb (Action change) "modify"
                || String.eqb (Action change) "delete")
  then Some (ErrInvalidAction (Action change))
  else if (Z.shiftl 1 20 <? Z.of_nat (String.length (NewContent change)))%Z
  then Some (ErrFileTooLarge (Path change)
                             (String.length (NewContent change)))
  else None.

(** The loop [for _, change := range llmResp.Changes] of
    [GenerateChanges]. *)
Fixpoint validateChanges (changes : list FileChange) : option error :=
  match changes with
  | [] => None
  | change :: rest =>
      match validateChange change with
      | Some err => Some (ErrInvalidChange err)
      | None => validateChanges rest
      end
  end.

(** One branch of [extractJSON]: the text after the first [fence], up to
    the next closing fence when there is one. *)
Definition extractFence (s : string) (fence : string) : option string :=
  match strings.Index s fence with
  | Some idx =>
      let s := strings.from (idx + String.length fence) s in
      match strings.Index s "```" with
      | Some end_ => Some (strings.upto end_ s)
      | None => Some s
      end
  | None => None
  end.

Definition truncate (s : string) (n : nat) : string :=
  if String.length s <=? n then s else strings.upto n s +:+ "...".

Definition q (s : string) : string := quote +:+ s +:+ quote.

Definition systemPrompt : string :=
  strings.Join
    ["You are a code modification assistant. When the user asks for code changes, respond with a JSON object containing file modifications.";
     "";
     "Response format:";
     "{";
     "  " +:+ q "description" +:+ ": " +:+ q "Brief description of changes" +:+ ",";
     "  " +:+ q "changes" +:+ ": [";
     "    {";
     "      " +:+ q "path" +:+ ": " +:+ q "relative/path/to/file.go" +:+ ",";
     "      " +:+ q "action" +:+ ": " +:+ q "create|modify|delete" +:+ ",";
     "      " +:+ q "new_content" +:+ ": " +:+ q "full file content for create/modify actions";
     "    }";
     "  ]";
     "}";
     "";
     "Rules:";
     "- Only output valid JSON, no markdown or explanations";
     "- Use relative paths from the project root";
     "- For " +:+ q "modify" +:+ " action, provide the complete new file content";
     "- For " +:+ q "delete" +:+ " action, new_content can be omitted";
     "- Never modify: Dockerfile, fly.toml, .github/, .env files";
     "- Keep changes minimal and focused"]
    nl.

(** The body of the loop of [ApproveAndApply] for one change. An action
    that is none of the three cases of the [switch] does nothing. *)
Definition applyChange (repoPath : string) (fs : os.FS) (change : FileChange)
  : os.FS * option error :=
  let fullPath := filepath.Join repoPath (Path change) in
  if String.eqb (Action change) "create"
     || String.eqb (Action change) "modify"
  then
    let dir := filepath.Dir fullPath in
    match os.MkdirAll fs dir with
    | (fs, Some err) => (fs, Some (ErrCreateDirectory dir err))
    | (fs, None) =>
        match os.WriteFile fs fullPath (NewContent change) with
        | (fs, Some err) => (fs, Some (ErrWriteFile (Path change) err))
        | (fs, None) => (fs, None)
        end
    end
  else if String.eqb (Action change) "delete"
  then
    match os.Remove fs fullPath with
    | (fs, Some err) =>
        if negb (os.IsNotExist err)
        then (fs, Some (ErrDeleteFile (Path change) err))
        else (fs, None)
    | (fs, None) => (fs, None)
    end
  else (fs, None).

(** The loop [for _, change := range cr.Changes]: it returns at the first
    error and keeps what was written before. *)
Fixpoint applyChanges (repoPath : string) (changes : list FileChange)
  (fs : os.FS) : os.FS * option error :=
  match changes with
  | [] => (fs, None)
  | change :: rest =>
      match applyChange repoPath fs change with
      | (fs, Some err) => (fs, Some err)
      | (fs, None) => applyChanges repoPath rest fs
      end
  end.

Definition withStore (e : Engine) (st : list ChangeRequest) : Engine :=
  mkEngine (repoPath e) st (requests e) (history e).

Definition ApproveAndApply (e : Engine) (fs : os.FS) (requestID : string)
  : Engine * os.FS * option error :=
  match requests e !! requestID with
  | None => (e, fs, Some (ErrNotFound requestID))
  | Some p =>
      match store e !! p with
      | None => (e, fs, Some PanicNilDereference)
      | Some cr =>
          if negb (String.eqb (Status cr) "pending")
          then (e, fs, Some (ErrNotPending (Status cr)))
          else
            match applyChanges (repoPath e) (Changes cr) fs with
            | (fs, Some err) => (e, fs, Some err)
            | (fs, None) =>
                (withStore e (setStatus (store e) p "approved"), fs, None)
            end
      end
  end.

Definition Reject (e : Engine) (requestID : string)
  : Engine * option error :=
  match requests e !! requestID with
  | None => (e, Some (ErrNotFound requestID))
  | Some p =>
      match store e !! p with
      | None => (e, Some PanicNilDereference)
      | Some _ => (withStore e (setStatus (store e) p "rejected"), None)
      end
  end.

(** [GetRequest] returns the pointer held by the request table. *)
Definition GetRequest (e : Engine) (id : string) : option ptr :=
  requests e !! id.

(** [History] copies the slice of pointers, not the objects. *)
Definition History (e : Engine) : list ptr := history e.

(** Reading through a pointer, and what a holder of the result of
    [History] sees by reading through each of its pointers. *)
Definition deref (e : Engine) (p : ptr) : option ChangeRequest :=
  store e !! p.

Definition view (e : Engine) (ps : list ptr) : list (option ChangeRequest) :=
  map (deref e) ps.

(** The status of the request [id] in the live request table. *)
Definition statusOf (e : Engine) (id : string) : option string :=
  p ← GetRequest e id; cr ← deref e p; Some (Status cr).

Record llmResp := mkResp {
  RespDescription : string;
  RespChanges : list FileChange
}.

(** What one call of [GenerateChanges] takes from its environment: the
    tree [filepath.Walk] finds at [repoPath], the identifier [uuid.New]
    returns and the time [time.Now] returns. *)
Record GenIO := mkGenIO {
  tree : node;
  newUUID : string;
  now : Z
}.

(** The two messages [GenerateChanges] sends to the model. *)
Definition messages (codeContext userRequest : string)
  : list provider.Message :=
  [provider.mkMessage "system" systemPrompt;
   provider.mkMessage "user"
     ("Project structure:" +:+ nl +:+ codeContext +:+ nl +:+ nl
      +:+ "Request: " +:+ userRequest)].

(** What the callback of [GenerateChanges] accumulates in its
    [strings.Builder]. *)
Definition response (chunks : list provider.StreamChunk) : string :=
  strings.Join (map provider.ChunkContent chunks) "".

Section Generate.

(** [strings.TrimSpace]. *)
Variable TrimSpace : string -> string.

(** [json.Unmarshal] into the anonymous struct [llmResp]; [None] is a
    decoding error. *)
Variable Unmarshal : string -> option llmResp.

(** [PatchToText(PatchMake(old, DiffMain(old, new, true)))] of package
    [diffmatchpatch]. *)
Variable patchText : string -> string -> string.

Definition extractJSON (s : string) : string :=
  match extractFence s "```json" with
  | Some s' => TrimSpace s'
  | None =>
      match extractFence s "```" with
      | Some s' => TrimSpace s'
      | None => TrimSpace s
      end
  end.

Fixpoint generateDiffs (repoPath : string) (fs : os.FS)
  (changes : list FileChange) : list FileDiff + error :=
  match changes with
  | [] => inl []
  | change :: rest =>
      let fullPath := filepath.Join repoPath (Path change) in
      let old :=
        if String.eqb (Action change) "modify"
           || String.eqb (Action change) "delete"
        then match os.ReadFile fs fullPath with
             | inl data => inl data
             | inr err =>
                 if negb (os.IsNotExist err)
                 then inr (ErrReadFile (Path change) err)
                 else inl ""
             end
        else inl "" in
      match old with
      | inr err => inr err
      | inl oldContent =>
          let newContent :=
            if String.eqb (Action change) "delete" then ""
            else NewContent change in
          match generateDiffs repoPath fs rest with
          | inr err => inr err
          | inl diffs =>
              inl (mkDiff (Path change) (patchText oldContent newContent)
                     :: diffs)
          end
      end
  end.

Definition GenerateChanges (e : Engine) (fs : os.FS) (io : GenIO)
  (llm : provider.LLMProvider) (userRequest : string)
  : Engine * (ptr + error) :=
  match collectContext (tree io) with
  | inr err => (e, inr (ErrCollectContext err))
  | inl codeContext =>
      match provider.ChatStream llm (messages codeContext userRequest)
      with
      | (_, Some err) => (e, inr (ErrLLMRequest err))
      | (chunks, None) =>
          let responseText := extractJSON (response chunks) in
          match Unmarshal responseText with
          | None =>
              (e, inr (ErrParseResponse (truncate responseText 200)))
          | Some resp =>
              match validateChanges (RespChanges resp) with
              | Some err => (e, inr err)
              | None =>
                  match generateDiffs (repoPath e) fs (RespChanges resp)
                  with
                  | inr err => (e, inr (ErrGenerateDiffs err))
                  | inl diffs =>
                      let cr := mkCR (newUUID io) (RespDescription resp)
                                  (RespChanges resp) diffs "pending"
                                  (now io) in
                      let '(st, p) := new (store e) cr in
                      (mkEngine (repoPath e) st
                         (<[ID cr := p]> (requests e))
                         (history e ++ [p]),
                       inl p)
                  end
              end
          end
      end
  end.

End Generate.

End selfmod.

(** ** Package [unicode/utf8] *)

Module utf8.

Definition bytes := list ascii.

Definition RuneError : N := 0xFFFD.
Definition RuneSelf : N := 0x80.

(** [utf8.DecodeRune]: the first rune of [s] and its width in bytes;
    [(RuneError, 1)] for an encoding that is not well formed. The shifts
    and masks of the source are written as products and remainders. *)
Definition DecodeRune (s : bytes) : N * nat :=
  match s with
  | [] => (RuneError, 0)
  | c0 :: t =>
      let s0 := N_of_ascii c0 in
      if (s0 <? RuneSelf)%N then (s0, 1)
      else if (s0 <? 0xC2)%N || (0xF4 <? s0)%N then (RuneError, 1)
      else
        let lo := if (s0 =? 0xE0)%N then 0xA0%N
                  else if (s0 =? 0xF0)%N then 0x90%N else 0x80%N in
        let hi := if (s0 =? 0xED)%N then 0x9F%N
                  else if (s0 =? 0xF4)%N then 0x8F%N else 0xBF%N in
        match t with
        | [] => (RuneError, 1)
        | c1 :: t1 =>
            let s1 := N_of_ascii c1 in
            if (s0 <? 0xE0)%N then
              if (s1 <? lo)%N || (hi <? s1)%N then (RuneError, 1)
              else (((s0 mod 32) * 64 + s1 mod 64)%N, 2)
            else
              match t1 with
              | [] => (RuneError, 1)
              | c2 :: t2 =>
                  let s2 := N_of_ascii c2 in
                  if (s0 <? 0xF0)%N then
                    if (s1 <? lo)%N || (hi <? s1)%N then (RuneError, 1)
                    else if (s2 <? 0x80)%N || (0xBF <? s2)%N
                    then (RuneError, 1)
                    else (((s0 mod 16) * 4096 + (s1 mod 64) * 64
                           + s2 mod 64)%N, 3)
                  else
                    match t2 with
                    | [] => (RuneError, 1)
                    | c3 :: _ =>
                        let s3 := N_of_ascii c3 in
                        if (s1 <? lo)%N || (hi <? s1)%N then (RuneError, 1)
                        else if (s2 <? 0x80)%N || (0xBF <? s2)%N
                        then (RuneError, 1)
                        else if (s3 <? 0x80)%N || (0xBF <? s3)%N
                        then (RuneError, 1)
                        else (((s0 mod 8) * 262144 + (s1 mod 64) * 4096
                               + (s2 mod 64) * 64 + s3 mod 64)%N, 4)
                    end
              end
        end
  end.

(** [utf8.EncodeRune] / [utf8.AppendRune]: a surrogate or a value above
    [MaxRune] is written as [RuneError]. *)
Definition EncodeRune (r : N) : bytes :=
  let three (r : N) :=
    [ascii_of_N (0xE0 + r / 4096); ascii_of_N (0x80 + (r / 64) mod 64);
     ascii_of_N (0x80 + r mod 64)]%N in
  if (r <=? 0x7F)%N then [ascii_of_N r]
  else if (r <=? 0x7FF)%N
  then [ascii_of_N (0xC0 + r / 64); ascii_of_N (0x80 + r mod 64)]%N
  else if (0x10FFFF <? r)%N || ((0xD800 <=? r)%N && (r <=? 0xDFFF)%N)
  then three RuneError
  else if (r <=? 0xFFFF)%N then three r
  else [ascii_of_N (0xF0 + r / 262144);
        ascii_of_N (0x80 + (r / 4096) mod 64);
        ascii_of_N (0x80 + (r / 64) mod 64);
        ascii_of_N (0x80 + r mod 64)]%N.

(** [utf8.Valid]: every rune of [s] is well formed. *)
Fixpoint ValidLoop (fuel : nat) (s : bytes) : bool :=
  match s with
  | [] => true
  | _ :: _ =>
      match fuel with
      | 0 => false
      | S fuel' =>
          let '(r, size) := DecodeRune s in
          if (r =? RuneError)%N && (size =? 1)%nat then false
          else ValidLoop fuel' (skipn size s)
      end
  end.

Definition Valid (s : bytes) : bool := ValidLoop (length s) s.

Definition ValidString (s : string) : bool :=
  Valid (String.list_ascii_of_string s).

(** The well-formed encodings of more than one byte (The Unicode
    Standard, table 3-7), with the rune each encodes. *)
Inductive wellFormed (r : N) : bytes -> Prop :=
| wellFormed2 c0 c1 :
    (0xC2 <= N_of_ascii c0 <= 0xDF)%N -> (0x80 <= N_of_ascii c1 <= 0xBF)%N ->
    r = ((N_of_ascii c0 mod 32) * 64 + N_of_ascii c1 mod 64)%N ->
    wellFormed r [c0; c1]
| wellFormed3 c0 c1 c2 :
    (0xE0 <= N_of_ascii c0 <= 0xEF)%N -> (0x80 <= N_of_ascii c1 <= 0xBF)%N ->
    (N_of_ascii c0 = 0xE0 -> 0xA0 <= N_of_ascii c1)%N ->
    (N_of_ascii c0 = 0xED -> N_of_ascii c1 <= 0x9F)%N ->
    (0x80 <= N_of_ascii c2 <= 0xBF)%N ->
    r = ((N_of_ascii c0 mod 16) * 4096 + (N_of_ascii c1 mod 64) * 64
         + N_of_ascii c2 mod 64)%N ->
    wellFormed r [c0; c1; c2]
| wellFormed4 c0 c1 c2 c3 :
    (0xF0 <= N_of_ascii c0 <= 0xF4)%N -> (0x80 <= N_of_ascii c1 <= 0xBF)%N ->
    (N_of_ascii c0 = 0xF0 -> 0x90 <= N_of_ascii c1)%N ->
    (N_of_ascii c0 = 0xF4 -> N_of_ascii c1 <= 0x8F)%N ->
    (0x80 <= N_of_ascii c2 <= 0xBF)%N -> (0x80 <= N_of_ascii c3 <= 0xBF)%N ->
    r = ((N_of_ascii c0 mod 8) * 262144 + (N_of_ascii c1 mod 64) * 4096
         + (N_of_ascii c2 mod 64) * 64 + N_of_ascii c3 mod 64)%N ->
    wellFormed r [c0; c1; c2; c3].

End utf8.

(** ** Package [encoding/json]

    The scanner, [Compact], the string encoder and [unquote] of the Go
    library, as far as [json.Marshal] and [json.Unmarshal] of an [Envelope]
    use them. The scanner is written by recursive descent over the grammar
    its states accept; [fuel] bounds the recursion and [depth] is the height
    of its parse stack. *)

Module json.

Definition bytes := list ascii.

Definition lit (s : string) : bytes := String.list_ascii_of_string s.

Definition dquote : ascii := "034".
Definition bslash : ascii := "092".

Definition oneOf (c : ascii) (s : string) : bool :=
  existsb (Ascii.eqb c) (lit s).

(** [isSpace]: space, tab, carriage return, line feed. *)
Definition isSpace (c : ascii) : bool :=
  Ascii.eqb c " " || Ascii.eqb c "009" || Ascii.eqb c "013"
  || Ascii.eqb c "010".

Definition isDigit (c : ascii) : bool := oneOf c "0123456789".
Definition isHex (c : ascii) : bool := oneOf c "0123456789abcdefABCDEF".

Fixpoint skipSpace (s : bytes) : bytes :=
  match s with
  | c :: t => if isSpace c then skipSpace t else s
  | [] => []
  end.

Fixpoint spaces (s : bytes) : bytes :=
  match s with
  | c :: t => if isSpace c then c :: spaces t else []
  | [] => []
  end.

(** What the scan writes: [Raw] copies its input, [Compact] drops the
    space between tokens and escapes as [Compact] with [escapeHTML]. *)
Inductive mode := Raw | Compact.

Definition ws (m : mode) (s : bytes) : bytes :=
  match m with Raw => spaces s | Compact => [] end.

Definition hex (n : N) : ascii :=
  nth (N.to_nat n) (lit "0123456789abcdef") "0"%char.

(** The escape [\u00XX] of the byte [c]. *)
Definition escape00 (c : ascii) : bytes :=
  [bslash; "u"; "0"; "0"; hex (N_of_ascii c / 16); hex (N_of_ascii c mod 16)]%char.

(** The rest of a string literal after its opening quote, up to and
    including the closing quote. *)
Fixpoint stringBody (m : mode) (s : bytes) : option (bytes * bytes) :=
  match s with
  | [] => None
  | c :: t =>
      let plain := '(o, r) ← stringBody m t; Some (c :: o, r) in
      if Ascii.eqb c dquote then Some ([c], t)
      else if Ascii.eqb c bslash then
        match t with
        | [] => None
        | e :: t1 =>
            if Ascii.eqb e dquote || Ascii.eqb e bslash || oneOf e "/bfnrt"
            then '(o, r) ← stringBody m t1; Some (c :: e :: o, r)
            else if Ascii.eqb e "u" then
              match t1 with
              | h1 :: h2 :: h3 :: h4 :: t2 =>
                  if isHex h1 && isHex h2 && isHex h3 && isHex h4
                  then '(o, r) ← stringBody m t2;
                       Some (c :: e :: h1 :: h2 :: h3 :: h4 :: o, r)
                  else None
              | _ => None
              end
            else None
        end
      else if (N_of_ascii c <? 32)%N then None
      else
        match m with
        | Raw => plain
        | Compact =>
            if oneOf c "<>&"
            then '(o, r) ← stringBody m t; Some (escape00 c ++ o, r)
            else if (N_of_ascii c =? 0xE2)%N then
              match t with
              | c1 :: c2 :: t2 =>
                  if (N_of_ascii c1 =? 0x80)%N
                     && ((N_of_ascii c2 =? 0xA8)%N
                         || (N_of_ascii c2 =? 0xA9)%N)
                  then '(o, r) ← stringBody m t2;
                       Some ([bslash; "u"; "2"; "0"; "2";
                              hex (N_of_ascii c2 mod 16)]%char ++ o, r)
                  else plain
              | _ => plain
              end
            else plain
        end
  end.

Fixpoint digits (s : bytes) : bytes * bytes :=
  match s with
  | c :: t =>
      if isDigit c then let '(ds, r) := digits t in (c :: ds, r)
      else ([], s)
  | [] => ([], [])
  end.

(** One optional byte out of [set]. *)
Definition optional (set : string) (s : bytes) : bytes * bytes :=
  match s with
  | c :: t => if oneOf c set then ([c], t) else ([], s)
  | [] => ([], [])
  end.

(** A number literal: an optional sign ([stateNeg]), the integer part
    ([state0], [state1]), an optional fraction ([stateDot], [stateDot0])
    and an optional exponent ([stateE], [stateESign], [stateE0]). *)
Definition intPart (s : bytes) : option (bytes * bytes) :=
  match s with
  | c :: t =>
      if Ascii.eqb c "0" then Some ([c], t)
      else if isDigit c then let '(ds, r) := digits t in Some (c :: ds, r)
      else None
  | [] => None
  end.

Definition fracPart (s : bytes) : option (bytes * bytes) :=
  match s with
  | c :: t =>
      if Ascii.eqb c "." then
        match digits t with
        | ([], _) => None
        | (ds, r) => Some (c :: ds, r)
        end
      else Some ([], s)
  | [] => Some ([], s)
  end.

Definition expPart (s : bytes) : option (bytes * bytes) :=
  match s with
  | c :: t =>
      if oneOf c "eE" then
        let '(sg, t1) := optional "+-" t in
        match digits t1 with
        | ([], _) => None
        | (ds, r) => Some (c :: sg ++ ds, r)
        end
      else Some ([], s)
  | [] => Some ([], s)
  end.

Definition number (s : bytes) : option (bytes * bytes) :=
  let '(sign, s1) := optional "-" s in
  '(int, s2) ← intPart s1;
  '(frac, s3) ← fracPart s2;
  '(exp, s4) ← expPart s3;
  Some (sign ++ int ++ frac ++ exp, s4).

Fixpoint literal (l : bytes) (s : bytes) : option (bytes * bytes) :=
  match l, s with
  | [], _ => Some ([], s)
  | c :: l', c' :: s' =>
      if Ascii.eqb c c' then '(o, r) ← literal l' s'; Some (c :: o, r)
      else None
  | _ :: _, [] => None
  end.

Definition maxNestingDepth : N := 10000.

(** One value at the start of [s] (no leading space), the members of an
    object after its opening brace, and the elements of an array after its
    opening bracket; each returns what it writes and the input that
    follows. *)
Fixpoint value (m : mode) (fuel : nat) (depth : N) (s : bytes) {struct fuel}
  : option (bytes * bytes) :=
  match fuel with
  | 0 => None
  | S fuel' =>
      match s with
      | [] => None
      | c :: t =>
          if Ascii.eqb c "{" then
            if (depth <? maxNestingDepth)%N then
              match skipSpace t with
              | c1 :: t1 =>
                  if Ascii.eqb c1 "}" then Some (c :: ws m t ++ [c1], t1)
                  else '(o, r) ← members m fuel' (N.succ depth) (skipSpace t);
                       Some (c :: ws m t ++ o, r)
              | [] => None
              end
            else None
          else if Ascii.eqb c "[" then
            if (depth <? maxNestingDepth)%N then
              match skipSpace t with
              | c1 :: t1 =>
                  if Ascii.eqb c1 "]" then Some (c :: ws m t ++ [c1], t1)
                  else '(o, r) ← elements m fuel' (N.succ depth) (skipSpace t);
                       Some (c :: ws m t ++ o, r)
              | [] => None
              end
            else None
          else if Ascii.eqb c dquote then
            '(o, r) ← stringBody m t; Some (c :: o, r)
          else if Ascii.eqb c "t" then literal (lit "true") s
          else if Ascii.eqb c "f" then literal (lit "false") s
          else if Ascii.eqb c "n" then literal (lit "null") s
          else number s
      end
  end
with members (m : mode) (fuel : nat) (depth : N) (s : bytes) {struct fuel}
  : option (bytes * bytes) :=
  match fuel with
  | 0 => None
  | S fuel' =>
      match s with
      | [] => None
      | c :: t =>
          if Ascii.eqb c dquote then
            '(k, r1) ← stringBody m t;
            match skipSpace r1 with
            | c2 :: r2 =>
                if Ascii.eqb c2 ":" then
                  '(v, r3) ← value m fuel' depth (skipSpace r2);
                  match skipSpace r3 with
                  | c4 :: r4 =>
                      if Ascii.eqb c4 "," then
                        '(o, r) ← members m fuel' depth (skipSpace r4);
                        Some (c :: k ++ ws m r1 ++ c2 :: ws m r2 ++ v
                                ++ ws m r3 ++ c4 :: ws m r4 ++ o, r)
                      else if Ascii.eqb c4 "}" then
                        Some (c :: k ++ ws m r1 ++ c2 :: ws m r2 ++ v
                                ++ ws m r3 ++ [c4], r4)
                      else None
                  | [] => None
                  end
                else None
            | [] => None
            end
          else None
      end
  end
with elements (m : mode) (fuel : nat) (depth : N) (s : bytes) {struct fuel}
  : option (bytes * bytes) :=
  match fuel with
  | 0 => None
  | S fuel' =>
      '(v, r1) ← value m fuel' depth s;
      match skipSpace r1 with
      | c2 :: r2 =>
          if Ascii.eqb c2 "," then
            '(o, r) ← elements m fuel' depth (skipSpace r2);
            Some (v ++ ws m r1 ++ c2 :: ws m r2 ++ o, r)
          else if Ascii.eqb c2 "]" then Some (v ++ ws m r1 ++ [c2], r2)
          else None
      | [] => None
      end
  end.

(** A whole text: space, one value, space, end of input. *)
Definition scan (m : mode) (data : bytes) : option bytes :=
  '(o, r) ← value m (S (length data)) 0 (skipSpace data);
  match skipSpace r with
  | [] => Some o
  | _ :: _ => None
  end.

(** [appendCompact(nil, src, true)], as [Marshal] applies it to what a
    [Marshaler] returns. *)
Definition appendCompact (src : bytes) : option bytes := scan Compact src.

(** [checkValid(data)]. *)
Definition checkValid (data : bytes) : bool :=
  match scan Raw data with Some _ => true | None => false end.

(** *** The string encoder *)

(** [htmlSafeSet]: the ASCII bytes the encoder copies as they are. *)
Definition htmlSafe (c : ascii) : bool :=
  (32 <=? N_of_ascii c)%N && negb (Ascii.eqb c dquote)
  && negb (Ascii.eqb c bslash) && negb (oneOf c "<>&").

(** The escape the encoder writes for an ASCII byte outside
    [htmlSafeSet]. *)
Definition escapeByte (c : ascii) : bytes :=
  if Ascii.eqb c bslash || Ascii.eqb c dquote then [bslash; c]
  else if Ascii.eqb c "008" then [bslash; "b"%char]
  else if Ascii.eqb c "012" then [bslash; "f"%char]
  else if Ascii.eqb c "010" then [bslash; "n"%char]
  else if Ascii.eqb c "013" then [bslash; "r"%char]
  else if Ascii.eqb c "009" then [bslash; "t"%char]
  else escape00 c.

(** The loop of [appendString(dst, src, true)] from offset [i] on, [src]
    being the bytes from [i]. *)
Fixpoint appendStringLoop (fuel : nat) (src : bytes) : bytes :=
  match src with
  | [] => []
  | c :: t =>
      match fuel with
      | 0 => []
      | S fuel' =>
          if (N_of_ascii c <? utf8.RuneSelf)%N then
            if htmlSafe c then c :: appendStringLoop fuel' t
            else escapeByte c ++ appendStringLoop fuel' t
          else
            let '(r, size) := utf8.DecodeRune src in
            if (r =? utf8.RuneError)%N && (size =? 1)%nat
            then lit "\ufffd" ++ appendStringLoop fuel' t
            else if (r =? 0x2028)%N || (r =? 0x2029)%N
            then lit "\u202" ++ hex (r mod 16)
                   :: appendStringLoop fuel' (skipn size src)
            else firstn size src
                   ++ appendStringLoop fuel' (skipn size src)
      end
  end.

Definition appendString (s : string) : bytes :=
  dquote :: appendStringLoop (String.length s) (lit s) ++ [dquote].

(** *** [unquote] *)

Definition hexval (c : ascii) : option N :=
  let n := N_of_ascii c in
  if isDigit c then Some (n - 48)%N
  else if oneOf c "abcdef" then Some (n - 87)%N
  else if oneOf c "ABCDEF" then Some (n - 55)%N
  else None.

(** [getu4]: the value of a leading [\uXXXX], [None] for Go's [-1]. *)
Definition getu4 (s : bytes) : option N :=
  match s with
  | c :: u :: h1 :: h2 :: h3 :: h4 :: _ =>
      if Ascii.eqb c bslash && Ascii.eqb u "u" then
        a ← hexval h1; b ← hexval h2; c ← hexval h3; d ← hexval h4;
        Some (a * 4096 + b * 256 + c * 16 + d)%N
      else None
  | _ => None
  end.

(** [utf16.IsSurrogate] and [utf16.DecodeRune]. *)
Definition IsSurrogate (r : N) : bool := (0xD800 <=? r)%N && (r <? 0xE000)%N.

Definition DecodeSurrogates (r1 r2 : N) : option N :=
  if (0xD800 <=? r1)%N && (r1 <? 0xDC00)%N
     && (0xDC00 <=? r2)%N && (r2 <? 0xE000)%N
  then Some ((r1 - 0xD800) * 1024 + (r2 - 0xDC00) + 0x10000)%N
  else None.

(** The loop of [unquoteBytes] over the bytes between the quotes. *)
Fixpoint unquoteLoop (fuel : nat) (s : bytes) : option bytes :=
  match s with
  | [] => Some []
  | c :: t =>
      match fuel with
      | 0 => None
      | S fuel' =>
          if Ascii.eqb c bslash then
            match t with
            | [] => None
            | e :: t1 =>
                let simple (x : ascii) :=
                  o ← unquoteLoop fuel' t1; Some (x :: o) in
                if Ascii.eqb e dquote || Ascii.eqb e bslash
                   || oneOf e "/'"
                then simple e
                else if Ascii.eqb e "b" then simple "008"%char
                else if Ascii.eqb e "f" then simple "012"%char
                else if Ascii.eqb e "n" then simple "010"%char
                else if Ascii.eqb e "r" then simple "013"%char
                else if Ascii.eqb e "t" then simple "009"%char
                else if Ascii.eqb e "u" then
                  match getu4 s with
                  | None => None
                  | Some rr =>
                      let s6 := skipn 6 s in
                      if IsSurrogate rr then
                        match getu4 s6 ≫= DecodeSurrogates rr with
                        | Some dec =>
                            o ← unquoteLoop fuel' (skipn 6 s6);
                            Some (utf8.EncodeRune dec ++ o)
                        | None =>
                            o ← unquoteLoop fuel' s6;
                            Some (utf8.EncodeRune utf8.RuneError ++ o)
                        end
                      else
                        o ← unquoteLoop fuel' s6;
                        Some (utf8.EncodeRune rr ++ o)
                  end
                else None
            end
          else if Ascii.eqb c dquote || (N_of_ascii c <? 32)%N then None
          else if (N_of_ascii c <? utf8.RuneSelf)%N then
            o ← unquoteLoop fuel' t; Some (c :: o)
          else
            let '(rr, size) := utf8.DecodeRune s in
            o ← unquoteLoop fuel' (skipn size s);
            Some (utf8.EncodeRune rr ++ o)
      end
  end.

(** [unquote(s)] of a string literal with its two quotes. *)
Definition unquote (s : bytes) : option string :=
  match s with
  | c :: t =>
      match last t with
      | Some c' =>
          if Ascii.eqb c dquote && Ascii.eqb c' dquote then
            o ← unquoteLoop (length t) (removelast t);
            Some (String.string_of_list_ascii o)
          else None
      | None => None
      end
  | [] => None
  end.

End json.

(** ** Package [ws]: the connection hub ([internal/ws/hub.go]) *)

Module ws.

Import json.

(** The wire format. [Payload] is a [json.RawMessage], tagged
    [omitempty]. *)
Record Envelope := mkEnvelope {
  Type_ : string;
  Payload : bytes
}.

(** [json.Marshal(env)]: the struct encoder writes the two fields in
    order; it omits an empty [Payload] and otherwise writes what
    [RawMessage.MarshalJSON] returns through [compact], failing with a
    [MarshalerError] when that is not valid JSON. *)
Definition Marshal (env : Envelope) : option bytes :=
  let head := "{"%char :: dquote :: lit "type" ++ dquote :: ":"%char
                :: appendString (Type_ env) in
  match Payload env with
  | [] => Some (head ++ ["}"%char])
  | _ :: _ =>
      c ← appendCompact (Payload env);
      Some (head ++ ","%char :: dquote :: lit "payload"
              ++ dquote :: ":"%char :: c ++ ["}"%char])
  end.

(** The members of an object whose opening brace was read: each key
    literal with the extent of its value, as the decoder walks them. *)
Fixpoint objectFields (fuel : nat) (s : bytes) : option (list (bytes * bytes)) :=
  match fuel with
  | 0 => None
  | S fuel' =>
      match skipSpace s with
      | c :: t =>
          if Ascii.eqb c "}" then Some []
          else if Ascii.eqb c dquote then
            '(k, r1) ← stringBody Raw t;
            match skipSpace r1 with
            | c2 :: r2 =>
                if Ascii.eqb c2 ":" then
                  '(v, r3) ← value Raw (S (length r2)) 1 (skipSpace r2);
                  match skipSpace r3 with
                  | c4 :: r4 =>
                      if Ascii.eqb c4 "," then
                        fs ← objectFields fuel' r4; Some ((c :: k, v) :: fs)
                      else Some [(c :: k, v)]
                  | [] => None
                  end
                else None
            | [] => None
            end
          else None
      | [] => None
      end
  end.

Definition toUpper (c : ascii) : ascii :=
  if oneOf c "abcdefghijklmnopqrstuvwxyz"
  then ascii_of_N (N_of_ascii c - 32) else c.

(** The field a key selects: the name of the tag, compared without
    regard to the case of ASCII letters. *)
Definition foldEq (key : string) (name : string) : bool :=
  bool_decide (map toUpper (lit key) = map toUpper (lit name)).

(** One member stored into [env]; the second component records a
    type error ([UnmarshalTypeError]), which the decoder saves while it
    goes on with the next member. *)
Definition storeField (acc : option (Envelope * bool)) (kv : bytes * bytes)
  : option (Envelope * bool) :=
  '(env, bad) ← acc;
  key ← unquote kv.1;
  if foldEq key "type" then
    match kv.2 with
    | c :: _ =>
        if Ascii.eqb c dquote then
          s ← unquote kv.2; Some (mkEnvelope s (Payload env), bad)
        else if Ascii.eqb c "n" then Some (env, bad)
        else Some (env, true)
    | [] => None
    end
  else if foldEq key "payload" then Some (mkEnvelope (Type_ env) kv.2, bad)
  else Some (env, bad).

(** [json.Unmarshal(data, &env)] on a zero [env]; [None] is an error. *)
Definition Unmarshal (data : bytes) : option Envelope :=
  if checkValid data then
    match skipSpace data with
    | c :: t =>
        if Ascii.eqb c "{" then
          fs ← objectFields (S (length t)) t;
          '(env, bad) ← foldl storeField (Some (mkEnvelope "" [], false)) fs;
          if bad : bool then None else Some env
        else if Ascii.eqb c "n" then Some (mkEnvelope "" [])
        else None
    | [] => None
    end
  else None.

(** *** Connections *)

(** A buffered channel of byte slices. *)
Record chan := mkChan {
  buf : list bytes;
  cap : nat;
  closed : bool
}.

(** [make(chan []byte, n)] and [close(c)]. *)
Definition make (n : nat) : chan := mkChan [] n false.
Definition close (c : chan) : chan := mkChan (buf c) (cap c) true.

(** What a send on a channel does to the sending goroutine. *)
Inductive sent :=
| Sent (c : chan)
| NotSent
| Parks
| PanicClosedChannel.

(** The run-time [chansend(c, v, block)]. A plain [c <- v] is the
    blocking send; the [case c <- v] of a [select] that has a [default]
    is the send with [block = false]. *)
Definition chansend (c : chan) (v : bytes) (block : bool) : sent :=
  if closed c then PanicClosedChannel
  else if length (buf c) <? cap c then Sent (mkChan (buf c ++ [v]) (cap c) false)
  else if block then Parks else NotSent.

Record Client := mkClient {
  ID : string;
  send : chan
}.

Inductive error :=
| ErrSendBufferFull
| MarshalerError.

(** How a call ends: it returns, it never returns because the goroutine
    is parked, or it panics. *)
Inductive outcome (A : Type) :=
| Returns (a : A)
| Blocks
| Panics.
Arguments Returns {A} a.
Arguments Blocks {A}.
Arguments Panics {A}.

(** [Client.Send]. *)
Definition Send (c : Client) (env : Envelope)
  : Client * outcome (option error) :=
  match Marshal env with
  | None => (c, Returns (Some MarshalerError))
  | Some data =>
      match chansend (send c) data false with
      | Sent ch => (mkClient (ID c) ch, Returns None)
      | NotSent => (c, Returns (Some ErrSendBufferFull))
      | Parks => (c, Blocks)
      | PanicClosedChannel => (c, Panics)
      end
  end.

Record Hub := mkHub {
  clients : gmap string Client;
  allowedOrigin : string
}.

Definition register (h : Hub) (c : Client) : Hub :=
  mkHub (<[ID c := c]> (clients h)) (allowedOrigin h).

(** [unregister]: removes a registered client and closes its queue; a
    second call finds no entry and does nothing. *)
Definition unregister (h : Hub) (c : Client) : Hub * Client :=
  match clients h !! ID c with
  | Some _ =>
      (mkHub (delete (ID c) (clients h)) (allowedOrigin h),
       mkClient (ID c) (close (send c)))
  | None => (h, c)
  end.

(** *** The session handler ([internal/ws/handlers.go])

    The handler is modelled by what it does to its own fields and to the
    world around it. Every [client.Send] is recorded in a trace, with the
    payload before [json.Marshal]; so is every call of a collaborator,
    every cancellation and every goroutine the handler starts. The body
    of a goroutine is a function of its own ([runApprove],
    [runGenerate]); it runs on the handler, the world and the connection
    of its client, whose queue the other goroutines change while it runs.
    Calls of [slog] are left out. *)

Record ChatSendPayload := mkChatSend {
  Messages : list provider.Message;
  ProviderID : string
}.

(** The anonymous struct [handleSelfModRequest] decodes into. *)
Record SelfModRequestPayload := mkSelfModRequest {
  Request : string;
  RequestProviderID : string
}.

Record SelfModApprovePayload := mkApprove {
  RequestID : string
}.

(** The payloads the handler marshals: [ChatChunkPayload],
    [SelfModDiffPayload], [SelfModStatusPayload] and the map
    [{"error": msg}] of [sendError]. *)
Inductive payload :=
| ChatChunk (content : string) (done : bool)
| SelfModDiff (requestID description : string)
    (diffs : list selfmod.FileDiff)
| SelfModStatus (requestID status message prURL : string)
| ErrorMap (msg : string).

(** [git.Service] and [github.Client]: what each call returns. *)
Record GitService := mkGit {
  CreateBranch : string -> option string;
  CommitAll : string -> string * option string;
  Push : string -> option string;
  CheckoutMain : option string
}.

Record GitHubClient := mkGitHub {
  CreatePR : string -> string -> string -> string -> string + string
}.

Inductive task :=
| StreamTask (client : string) (llm : provider.LLMProvider)
    (messages : list provider.Message) (ctx : nat)
| GenerateTask (client : string) (llm : provider.LLMProvider)
    (request : string)
| ApproveTask (client : string) (requestID : string).

Inductive call :=
| CallCreateBranch (name : string)
| CallApproveAndApply (requestID : string)
| CallCommitAll (message : string)
| CallPush (branch : string)
| CallCreatePR (title body head base : string)
| CallCheckoutMain
| CallReject (requestID : string)
| CallGenerateChanges (request : string).

(** What the handler and its goroutines do, as a trace. [Emit] is a call
    of [client.Send] with an envelope of this type and payload. In a
    goroutine, [Dropped] after an [Emit] says that this send returned an
    error and put nothing into the queue, and [Panic] after an [Emit]
    that it was a send on the closed queue; [Panic] is a run-time panic,
    which nothing recovers: it ends the goroutine, and the program with
    it. *)
Inductive event :=
| Emit (client : string) (type_ : string) (p : payload)
| Call (c : call)
| Go (t : task)
| Cancel (ctx : nat)
| Panic
| Dropped.

(** [engine], [gitSvc] and [ghClient] are [None] for a nil pointer;
    [cancels] maps a client to the context its [CancelFunc] cancels. *)
Record ChatHandler := mkHandler {
  registry : provider.Registry;
  engine : option selfmod.Engine;
  gitSvc : option GitService;
  ghClient : option GitHubClient;
  cancels : gmap string nat
}.

Record World := mkWorld {
  fs : os.FS;
  contexts : nat;
  trace : list event
}.

Definition emit (w : World) (ev : event) : World :=
  mkWorld (fs w) (contexts w) (trace w ++ [ev]).

Definition withEngine (h : ChatHandler) (e : selfmod.Engine) : ChatHandler :=
  mkHandler (registry h) (Some e) (gitSvc h) (ghClient h) (cancels h).

Definition withCancels (h : ChatHandler) (c : gmap string nat) : ChatHandler :=
  mkHandler (registry h) (engine h) (gitSvc h) (ghClient h) c.

Definition sendStatus (w : World) (client requestID status message prURL : string)
  : World :=
  emit w (Emit client "selfmod.status"
            (SelfModStatus requestID status message prURL)).

Definition sendError (w : World) (client msg : string) : World :=
  emit w (Emit client "error" (ErrorMap msg)).

Definition keywords : list string :=
  ["変更して"; "修正して"; "追加して"; "削除して"; "変えて";
   "コードを"; "ファイルを"; "実装して"; "リファクタ";
   "change the"; "modify the"; "add a"; "remove the"; "update the";
   "refactor"; "implement"; "fix the code"; "edit the";
   "/change"; "/modify"; "/selfmod"].

Definition handleChatCancel (h : ChatHandler) (w : World) (client : string)
  : ChatHandler * World :=
  match cancels h !! client with
  | Some ctx => (withCancels h (delete client (cancels h)), emit w (Cancel ctx))
  | None => (h, w)
  end.

(** The deferred function of the goroutine that [handleChatSend] starts
    for a stream, run when the stream of the context [ctx] ends: it
    deletes the entry of the client, whichever context that entry holds,
    and cancels its own context. *)
Definition streamDone (h : ChatHandler) (w : World) (client : string)
  (ctx : nat) : ChatHandler * World :=
  (withCancels h (delete client (cancels h)), emit w (Cancel ctx)).

Definition handleSelfModFromChat (w : World) (client : string)
  (llm : provider.LLMProvider) (request providerID : string) : World :=
  let w := emit w (Emit client "chat.chunk"
                     (ChatChunk ("コード変更を生成しています..." +:+ selfmod.nl)
                                false)) in
  emit w (Go (GenerateTask client llm request)).

Definition isConfigured (h : ChatHandler) : bool :=
  match gitSvc h, ghClient h with
  | Some _, Some _ => true
  | _, _ => false
  end.

(** *** The connection a goroutine sends on

    A goroutine of the handler is detached: it goes on after the read
    pump of its client has ended. Between two of its sends the other
    goroutines work on the same queue: the write pump receives the frame
    at its head, another goroutine enqueues a frame of its own when the
    queue is open and has room, and [unregister] closes the queue. A send
    of another goroutine that fails leaves the queue as it is; its panic
    on the closed queue is not followed. *)

Inductive move :=
| Receive
| Enqueue (frame : bytes)
| Close.

Definition interfere (c : chan) (m : move) : chan :=
  match m with
  | Receive => mkChan (tail (buf c)) (cap c) (closed c)
  | Enqueue frame =>
      match chansend c frame false with
      | Sent c' => c'
      | _ => c
      end
  | Close => close c
  end.

(** The client as the goroutine holds it, and what the other goroutines
    do before each of its sends, the first list before the first send. *)
Record conn := mkConn {
  peer : Client;
  schedule : list (list move)
}.

(** What a goroutine runs on. *)
Definition goroutine : Type := ChatHandler * World * conn.

Section Handlers.

(** [strings.ToLower]. *)
Variable ToLower : string -> string.

(** [json.Unmarshal] of a payload into each of the three structs;
    [None] is an error. *)
Variable decodeChatSend : bytes -> option ChatSendPayload.
Variable decodeSelfModRequest : bytes -> option SelfModRequestPayload.
Variable decodeApprove : bytes -> option SelfModApprovePayload.

(** The three library functions [GenerateChanges] takes. *)
Variable TrimSpace : string -> string.
Variable decodeResponse : string -> option selfmod.llmResp.
Variable patchText : string -> string -> string.

(** [err.Error()] of an error of the engine. *)
Variable errorText : selfmod.error -> string.

(** [json.Marshal] of one of the payload structs of the handler. *)
Variable encode : payload -> bytes.

(** [client.Send(Envelope{Type: type, Payload: payload})] in a goroutine,
    after the other goroutines have moved. The call is recorded. A send
    that returns an error ([ErrSendBufferFull], or the error of
    [json.Marshal]) puts nothing into the queue; every caller ignores the
    error, and the trace notes [Dropped]. A send on the closed queue
    panics: the trace notes [Panic], and the third component is [false],
    the goroutine being over. *)
Definition goSend (w : World) (k : conn) (type_ : string) (p : payload)
  : World * conn * bool :=
  let w := emit w (Emit (ID (peer k)) type_ p) in
  let c := mkClient (ID (peer k))
             (foldl interfere (send (peer k)) (hd [] (schedule k))) in
  let '(c, result) := Send c (mkEnvelope type_ (encode p)) in
  let k := mkConn c (tail (schedule k)) in
  match result with
  | Returns None => (w, k, true)
  | Returns (Some _) => (emit w Dropped, k, true)
  | Blocks => (w, k, false)
  | Panics => (emit w Panic, k, false)
  end.

(** A send of a goroutine and what the goroutine does when the send has
    returned. *)
Definition goSendThen (s : goroutine) (type_ : string) (p : payload)
  (next : goroutine -> goroutine) : goroutine :=
  let '(h, w, k) := s in
  let '(w, k, alive) := goSend w k type_ p in
  if alive : bool then next (h, w, k) else (h, w, k).

(** [h.sendStatus(client, requestID, status, message, prURL)] in a
    goroutine. *)
Definition goSendStatus (s : goroutine)
  (requestID status message prURL : string)
  (next : goroutine -> goroutine) : goroutine :=
  goSendThen s "selfmod.status"
    (SelfModStatus requestID status message prURL) next.

Definition isCodeChangeRequest (msg : string) : bool :=
  let msg := ToLower msg in
  existsb (fun kw => strings.Contains msg kw) keywords.

Definition handleChatSend (h : ChatHandler) (w : World) (client : string)
  (payload : bytes) : ChatHandler * World :=
  match decodeChatSend payload with
  | None => (h, w)
  | Some p =>
      let '(h, w) := handleChatCancel h w client in
      let providerID :=
        if String.eqb (ProviderID p) "" then "anthropic"
        else ProviderID p in
      match provider.GetLLM (registry h) providerID with
      | inr _ =>
          (h, sendError w client ("LLM provider not found: " +:+ providerID))
      | inl llm =>
          let lastMsg := match last (Messages p) with
                         | Some m => provider.Content m
                         | None => ""
                         end in
          if bool_decide (is_Some (engine h)) && isCodeChangeRequest lastMsg
          then (h, handleSelfModFromChat w client llm lastMsg providerID)
          else
            let ctx := contexts w in
            (withCancels h (<[client := ctx]> (cancels h)),
             emit (mkWorld (fs w) (S ctx) (trace w))
                  (Go (StreamTask client llm (Messages p) ctx)))
      end
  end.

Definition handleSelfModRequest (h : ChatHandler) (w : World)
  (client : string) (payload : bytes) : ChatHandler * World :=
  match decodeSelfModRequest payload with
  | None => (h, sendError w client "Invalid request payload")
  | Some p =>
      let providerID :=
        if String.eqb (RequestProviderID p) "" then "anthropic"
        else RequestProviderID p in
      match provider.GetLLM (registry h) providerID with
      | inr _ =>
          (h, sendError w client ("LLM provider not found: " +:+ providerID))
      | inl llm =>
          (h, handleSelfModFromChat w client llm (Request p) providerID)
      end
  end.

(** The goroutine of [handleSelfModFromChat]. *)
Definition runGenerate (s : goroutine) (io : selfmod.GenIO)
  (llm : provider.LLMProvider) (request : string) : goroutine :=
  let '(h, w, k) := s in
  match engine h with
  | None => (h, emit w Panic, k)
  | Some e =>
      let w := emit w (Call (CallGenerateChanges request)) in
      match selfmod.GenerateChanges TrimSpace decodeResponse patchText
              e (fs w) io llm request with
      | (e, inr err) =>
          goSendThen (withEngine h e, w, k) "chat.chunk"
            (ChatChunk (selfmod.nl +:+ "変更の生成に失敗しました: "
                          +:+ errorText err) true)
            (fun s => s)
      | (e, inl p) =>
          match selfmod.deref e p with
          | None => (withEngine h e, emit w Panic, k)
          | Some cr =>
              goSendThen (withEngine h e, w, k) "chat.chunk"
                (ChatChunk
                   (selfmod.nl +:+ "変更を生成しました: "
                      +:+ selfmod.Description cr +:+ selfmod.nl
                      +:+ "以下のDiffを確認して承認/拒否してください。")
                   true)
                (fun s =>
                   goSendThen s "selfmod.diff"
                     (SelfModDiff (selfmod.ID cr) (selfmod.Description cr)
                        (selfmod.Diffs cr))
                     (fun s => s))
          end
      end
  end.

Definition handleSelfModApprove (h : ChatHandler) (w : World)
  (client : string) (payload : bytes) : ChatHandler * World :=
  match decodeApprove payload with
  | None => (h, sendError w client "Invalid approve payload")
  | Some p =>
      match engine h with
      | None => (h, sendError w client "Self-modification not configured")
      | Some _ => (h, emit w (Go (ApproveTask client (RequestID p))))
      end
  end.

(** The last part of the goroutine of [handleSelfModApprove], after the
    changes were applied: commit, push, pull request, checkout. [cr] is
    the pointer [GetRequest] returned. *)
Definition publish (s : goroutine) (requestID : string)
  (branchName : string) (cr : selfmod.ptr) : goroutine :=
  let '(h, _, _) := s in
  match gitSvc h, ghClient h with
  | Some git, Some gh =>
      goSendStatus s requestID "pushing" "コミットしてpush中..." ""
        (fun '(h, w, k) =>
           match engine h ≫= (fun e => selfmod.deref e cr) with
           | None => (h, emit w Panic, k)
           | Some req =>
               let commitMsg := "selfmod: " +:+ selfmod.Description req in
               let w := emit w (Call (CallCommitAll commitMsg)) in
               match CommitAll git commitMsg with
               | (_, Some err) =>
                   goSendStatus (h, w, k) requestID "error"
                     ("コミットに失敗: " +:+ err) "" (fun s => s)
               | (_, None) =>
                   let w := emit w (Call (CallPush branchName)) in
                   match Push git branchName with
                   | Some err =>
                       goSendStatus (h, w, k) requestID "error"
                         ("pushに失敗: " +:+ err) "" (fun s => s)
                   | None =>
                       let prTitle :=
                         "[selfmod] " +:+ selfmod.Description req in
                       let prBody :=
                         "## Self-Modification Request" +:+ selfmod.nl
                         +:+ selfmod.nl +:+ selfmod.Description req
                         +:+ selfmod.nl +:+ selfmod.nl
                         +:+ "Generated by FlyAGI self-modification engine." in
                       let w := emit w (Call (CallCreatePR prTitle prBody
                                                branchName "main")) in
                       match CreatePR gh prTitle prBody branchName "main" with
                       | inr err =>
                           goSendStatus (h, w, k) requestID "error"
                             ("PR作成に失敗: " +:+ err) "" (fun s => s)
                       | inl prURL =>
                           goSendStatus (h, w, k) requestID "pr_created"
                             "PRが作成されました！" prURL
                             (fun '(h, w, k) =>
                                (h, emit w (Call CallCheckoutMain), k))
                       end
                   end
               end
           end)
  | _, _ =>
      goSendStatus s requestID "applied"
        "変更が適用されました（GitHub未設定のためPRは作成されません）" ""
        (fun s => s)
  end.

(** The middle part of the goroutine of [handleSelfModApprove]: the
    changes are applied, by the engine the handler holds. *)
Definition applyThenPublish (e : selfmod.Engine) (s : goroutine)
  (requestID : string) (branchName : string) (cr : selfmod.ptr)
  : goroutine :=
  goSendStatus s requestID "applying" "変更を適用中..." ""
    (fun '(h, w, k) =>
       let w := emit w (Call (CallApproveAndApply requestID)) in
       match selfmod.ApproveAndApply e (fs w) requestID with
       | (e, fs', Some err) =>
           goSendStatus
             (withEngine h e, mkWorld fs' (contexts w) (trace w), k)
             requestID "error"
             ("変更の適用に失敗: " +:+ errorText err) "" (fun s => s)
       | (e, fs', None) =>
           publish (withEngine h e, mkWorld fs' (contexts w) (trace w), k)
             requestID branchName cr
       end).

(** The goroutine of [handleSelfModApprove]. *)
Definition runApprove (s : goroutine) (requestID : string) : goroutine :=
  let '(h, w, k) := s in
  match engine h with
  | None => (h, emit w Panic, k)
  | Some e =>
      match selfmod.GetRequest e requestID with
      | None =>
          goSendStatus s requestID "error"
            "変更リクエストが見つかりません" "" (fun s => s)
      | Some cr =>
          match gitSvc h, ghClient h with
          | Some git, Some _ =>
              if String.length requestID <? 8 then (h, emit w Panic, k)
              else
                let branchName :=
                  "selfmod/" +:+ strings.upto 8 requestID in
                goSendStatus s requestID "pushing"
                  "ブランチを作成中..." ""
                  (fun '(h, w, k) =>
                     let w := emit w (Call (CallCreateBranch branchName)) in
                     match CreateBranch git branchName with
                     | Some err =>
                         goSendStatus (h, w, k) requestID "error"
                           ("ブランチ作成に失敗: " +:+ err) "" (fun s => s)
                     | None =>
                         applyThenPublish e (h, w, k) requestID branchName cr
                     end)
          | _, _ => applyThenPublish e s requestID "" cr
          end
      end
  end.

Definition handleSelfModReject (h : ChatHandler) (w : World)
  (client : string) (payload : bytes) : ChatHandler * World :=
  match decodeApprove payload with
  | None => (h, w)
  | Some p =>
      let '(h, w) :=
        match engine h with
        | Some e =>
            (withEngine h (selfmod.Reject e (RequestID p)).1,
             emit w (Call (CallReject (RequestID p))))
        | None => (h, w)
        end in
      (h, sendStatus w client (RequestID p) "rejected"
            "変更は拒否されました" "")
  end.

Definition HandleMessage (h : ChatHandler) (w : World) (client : string)
  (env : Envelope) : ChatHandler * World :=
  if String.eqb (Type_ env) "chat.send"
  then handleChatSend h w client (Payload env)
  else if String.eqb (Type_ env) "chat.cancel"
  then handleChatCancel h w client
  else if String.eqb (Type_ env) "selfmod.request"
  then handleSelfModRequest h w client (Payload env)
  else if String.eqb (Type_ env) "selfmod.approve"
  then handleSelfModApprove h w client (Payload env)
  else if String.eqb (Type_ env) "selfmod.reject"
  then handleSelfModReject h w client (Payload env)
  else (h, w).

End Handlers.

(** *** The read pump ([readPump] of [hub.go]) *)

Section Pump.

(** The [MessageHandler] of the hub, on a state [S] of its own. *)
Context {S : Type}.
Variable handler : S -> Client -> Envelope -> S.

(** The loop of [readPump] over the frames [ReadMessage] returns before
    it fails: a frame that does not decode is logged and skipped. *)
Fixpoint readLoop (st : S) (c : Client) (frames : list bytes) : S :=
  match frames with
  | [] => st
  | message :: rest =>
      match Unmarshal message with
      | None => readLoop st c rest
      | Some env => readLoop (handler st c env) c rest
      end
  end.

(** [readPump]: the loop, then the deferred [unregister]. *)
Definition readPump (h : Hub) (st : S) (c : Client) (frames : list bytes)
  : Hub * Client * S :=
  let st := readLoop st c frames in
  let '(h, c) := unregister h c in
  (h, c, st).

End Pump.

(** The [selfmod.status] values of a trace, in order. *)
Definition statuses (tr : list event) : list string :=
  omap (fun ev => match ev with
                  | Emit _ "selfmod.status" (SelfModStatus _ st _ _) => Some st
                  | _ => None
                  end) tr.

(** The collaborator calls of a trace, in order. *)
Definition calls (tr : list event) : list call :=
  omap (fun ev => match ev with Call c => Some c | _ => None end) tr.

(** The goroutines a trace starts, the contexts it cancels and the
    clients it sends to, in order. *)
Definition tasks (tr : list event) : list task :=
  omap (fun ev => match ev with Go t => Some t | _ => None end) tr.

Definition cancelled (tr : list event) : list nat :=
  omap (fun ev => match ev with Cancel ctx => Some ctx | _ => None end) tr.

Definition recipients (tr : list event) : list string :=
  omap (fun ev => match ev with Emit c _ _ => Some c | _ => None end) tr.

(** A trace without its notes of dropped envelopes: what was done,
    whatever became of the envelopes. *)
Definition attempts (tr : list event) : list event :=
  omap (fun ev => match ev with Dropped => None | _ => Some ev end) tr.

End ws.

(** ** Package [config] *)

Module config.

Record Config := mkConfig {
  Port : string;
  AnthropicAPIKey : string;
  OpenAIAPIKey : string;
  GeminiAPIKey : string;
  ElevenLabsAPIKey : string;
  GitHubToken : string;
  GitHubOwner : string;
  GitHubRepo : string;
  GoogleProjectID : string;
  DefaultLLMProvider : string;
  DefaultTTSProvider : string;
  DefaultSTTProvider : string;
  RepoPath : string;
  AllowedOrigin : string
}.

(** [os.Getenv] on the environment [env]: the empty string for a variable
    that is not set. *)
Definition Getenv (env : gmap string string) (key : string) : string :=
  default "" (env !! key).

Definition getEnv (env : gmap string string) (key fallback : string)
  : string :=
  let v := Getenv env key in
  if negb (String.eqb v "") then v else fallback.

(** [Load]; [inr] is the error [PORT must not be empty]. *)
Definition Load (env : gmap string string) : Config + string :=
  let cfg :=
    mkConfig (getEnv env "PORT" "8080")
      (Getenv env "ANTHROPIC_API_KEY")
      (Getenv env "OPENAI_API_KEY")
      (Getenv env "GEMINI_API_KEY")
      (Getenv env "ELEVENLABS_API_KEY")
      (Getenv env "GITHUB_TOKEN")
      (Getenv env "GITHUB_OWNER")
      (Getenv env "GITHUB_REPO")
      (Getenv env "GOOGLE_PROJECT_ID")
      (getEnv env "DEFAULT_LLM_PROVIDER" "anthropic")
      (getEnv env "DEFAULT_TTS_PROVIDER" "openai")
      (getEnv env "DEFAULT_STT_PROVIDER" "openai")
      (getEnv env "REPO_PATH" "/tmp/flyagi-repo")
      (getEnv env "ALLOWED_ORIGIN" "*") in
  if String.eqb (Port cfg) "" then inr "PORT must not be empty"
  else inl cfg.

End config.

(** ** Package [api]: the rate limiter of the router *)

Module api.

(** A Go [int] and a [time.Duration] are 64-bit signed integers:
    arithmetic wraps around, and a difference of two times saturates. *)
Definition minInt : Z := - 2 ^ 63.
Definition maxInt : Z := 2 ^ 63 - 1.
Definition wrap (z : Z) : Z := ((z + 2 ^ 63) mod 2 ^ 64 - 2 ^ 63)%Z.
Definition saturate (z : Z) : Z := Z.max minInt (Z.min maxInt z).

(** [time.Second], in nanoseconds. *)
Definition Second : Z := 1000000000.

(** A [time.Time] is its reading of the monotonic clock, in
    nanoseconds. *)
Record bucket := mkBucket {
  tokens : Z;
  lastFill : Z
}.

Record RateLimiter := mkRateLimiter {
  buckets : gmap string bucket;
  rate : Z;
  burst : Z;
  window : Z
}.

(** [NewRateLimiter]. The goroutine it starts, which every five minutes
    deletes the buckets last filled more than ten minutes before, is left
    out: a bucket is followed here only as long as it is not deleted. *)
Definition NewRateLimiter (rate burst window : Z) : RateLimiter :=
  mkRateLimiter ∅ rate burst window.

(** The three readings [time.Now] can be asked for during one call of
    [allow]: for a new bucket, for [time.Since], and for the refill. *)
Record readings := mkReadings {
  atCreate : Z;
  atSince : Z;
  atRefill : Z
}.

(** [allow]; [None] is the run-time panic of a division by a zero
    [window]. *)
Definition allow (rl : RateLimiter) (key : string) (now : readings)
  : option (RateLimiter * bool) :=
  let b := match buckets rl !! key with
           | Some b => b
           | None => mkBucket (burst rl) (atCreate now)
           end in
  if (window rl =? 0)%Z then None
  else
    let elapsed := saturate (atSince now - lastFill b) in
    let refill := wrap (Z.quot elapsed (window rl) * rate rl) in
    let b :=
      if (0 <? refill)%Z then
        let t := wrap (tokens b + refill) in
        mkBucket (if (burst rl <? t)%Z then burst rl else t) (atRefill now)
      else b in
    if (tokens b <=? 0)%Z
    then Some (mkRateLimiter (<[key := b]> (buckets rl)) (rate rl) (burst rl)
                 (window rl), false)
    else Some (mkRateLimiter
                 (<[key := mkBucket (wrap (tokens b - 1)) (lastFill b)]>
                    (buckets rl))
                 (rate rl) (burst rl) (window rl), true).

(** The calls of [allow] that the middleware makes for the requests of
    one client, one after the other, with the answer to each. *)
Fixpoint allows (rl : RateLimiter) (key : string) (nows : list readings)
  : option (RateLimiter * list bool) :=
  match nows with
  | [] => Some (rl, [])
  | now :: rest =>
      '(rl, ok) ← allow rl key now;
      '(rl, oks) ← allows rl key rest;
      Some (rl, ok :: oks)
  end.

End api.

(** ** Package [main] ([cmd/server/main.go]) *)

Module main.

Section Wiring.

(** The language-model providers the constructors of package [llm]
    return for an API key; the one of Gemini can fail. Their [Name]
    methods return the constants [anthropic], [openai] and [gemini]. *)
Variable chatAnthropic chatOpenAI chatGemini :
  string -> list provider.Message -> list provider.StreamChunk * option string.
Variable geminiError : string -> option string.

Definition NewAnthropicProvider (apiKey : string) : provider.LLMProvider :=
  provider.mkLLM "anthropic" (chatAnthropic apiKey).

Definition NewOpenAIProvider (apiKey : string) : provider.LLMProvider :=
  provider.mkLLM "openai" (chatOpenAI apiKey).

Definition NewGeminiProvider (apiKey : string)
  : provider.LLMProvider + string :=
  match geminiError apiKey with
  | Some err => inr err
  | None => inl (provider.mkLLM "gemini" (chatGemini apiKey))
  end.

(** The language-model part of [registerProviders]. *)
Definition registerProviders (cfg : config.Config) (registry : provider.Registry)
  : provider.Registry :=
  let registry :=
    if negb (String.eqb (config.AnthropicAPIKey cfg) "")
    then provider.RegisterLLM registry
           (NewAnthropicProvider (config.AnthropicAPIKey cfg))
    else registry in
  let registry :=
    if negb (String.eqb (config.OpenAIAPIKey cfg) "")
    then provider.RegisterLLM registry
           (NewOpenAIProvider (config.OpenAIAPIKey cfg))
    else registry in
  if negb (String.eqb (config.GeminiAPIKey cfg) "")
  then match NewGeminiProvider (config.GeminiAPIKey cfg) with
       | inr _ => registry
       | inl p => provider.RegisterLLM registry p
       end
  else registry.

(** What [git.NewService], [github.NewClient] and [CloneOrOpen] give for
    the configuration. *)
Variable NewService : string -> string -> ws.GitService.
Variable NewClient : string -> string -> string -> ws.GitHubClient.
Variable CloneOrOpen : string -> option string.

(** The handler [main] builds, from the registry to [NewChatHandler]. *)
Definition chatHandler (cfg : config.Config) : ws.ChatHandler :=
  let registry := registerProviders cfg provider.NewRegistry in
  let engine :=
    if negb (String.eqb (config.RepoPath cfg) "")
    then Some (selfmod.NewEngine (config.RepoPath cfg)) else None in
  let '(gitSvc, ghClient) :=
    if negb (String.eqb (config.GitHubToken cfg) "")
       && negb (String.eqb (config.GitHubOwner cfg) "")
       && negb (String.eqb (config.GitHubRepo cfg) "")
    then
      let cloneURL := "https://github.com/" +:+ config.GitHubOwner cfg
                      +:+ "/" +:+ config.GitHubRepo cfg +:+ ".git" in
      match CloneOrOpen cloneURL with
      | Some _ => (None, None)
      | None =>
          (Some (NewService (config.RepoPath cfg) (config.GitHubToken cfg)),
           Some (NewClient (config.GitHubToken cfg) (config.GitHubOwner cfg)
                   (config.GitHubRepo cfg)))
      end
    else (None, None) in
  ws.mkHandler registry engine gitSvc ghClient ∅.

End Wiring.

End main.

(** * Statements and examples

    The words of the specification that the theorems below compare the code
    with, the predicates their statements use, and the concrete engines,
    handlers and envelopes on which they are run. *)

Module spec.
Import selfmod.

(** Step 5 of [generate], in the words of the specification: the cleaned
    path matches or is nested under a protected path, it has a
    parent-directory element, the action is none of the three, or the
    content is above 1 MiB. *)
Definition invalid (change : FileChange) : Prop :=
  let cleanPath := filepath.Clean (Path change) in
  (exists protected, In protected protectedPaths /\
     (cleanPath = protected \/
      String.prefix (protected +:+ "/") cleanPath = true))
  \/ In ".." (filepath.split cleanPath)
  \/ ~ In (Action change) ["create"; "modify"; "delete"]
  \/ (1048576 < Z.of_nat (String.length (NewContent change)))%Z.

(** The four validation errors of the taxonomy. *)
Definition validationError (err : error) : Prop :=
  match err with
  | ErrProtectedPath _ | ErrPathTraversal _ | ErrInvalidAction _
  | ErrFileTooLarge _ _ => True
  | _ => False
  end.

(** Only the status of an object differs. *)
Definition sameButStatus (cr cr' : ChangeRequest) : Prop :=
  ID cr' = ID cr /\ Description cr' = Description cr
  /\ Changes cr' = Changes cr /\ Diffs cr' = Diffs cr
  /\ CreatedAt cr' = CreatedAt cr.
End spec.

Module scanner.
Import json.

(** The bytes after which a number literal ends. *)
Definition stops (t : bytes) : bool :=
  match t with
  | [] => true
  | c :: _ => negb (oneOf c "0123456789.eE+-")
  end.

Definition headNot (set : string) (t : bytes) : bool :=
  match t with
  | [] => true
  | c :: _ => negb (oneOf c set)
  end.

(** The first byte a value writes: never a space, a separator or a
    closing bracket. *)
Definition starts (c : ascii) : bool :=
  negb (isSpace c) && negb (oneOf c "]},:").
End scanner.

Module examples.
Import selfmod.

Definition id0 : string := "3f2b8c1e-9d4a-4c6b-8f10-2a7e5b9c0d11".
Definition change0 : FileChange := mkChange "src/x.go" "create" "package x".
Definition cr0 : ChangeRequest :=
  mkCR id0 "add X" [change0] [mkDiff "src/x.go" "+package x"] "pending" 0.

(** The engine after one successful generation: the request table and the
    history hold the same pointer. *)
Definition engine0 : Engine := mkEngine "/repo" [cr0] {[id0 := 0]} [0].

Definition fs0 : os.FS := os.mkFS ∅ ∅.

(** A working tree in which the file of [change0] cannot be written. *)
Definition fsLocked : os.FS := os.mkFS ∅ {["/repo/src/x.go"]}.

(** [engine0] after its request was approved and applied. *)
Definition engineApproved : Engine := (ApproveAndApply engine0 fs0 id0).1.1.

(** A model that answers with one proposal, as the mock of the tests of
    the engine does, and library functions that are right on its answer. *)
Definition jsonChange (c : FileChange) : string :=
  "{" +:+ q "path" +:+ ":" +:+ q (Path c) +:+ "," +:+ q "action" +:+ ":"
  +:+ q (Action c) +:+ "," +:+ q "new_content" +:+ ":" +:+ q (NewContent c)
  +:+ "}".

Definition jsonAnswer (description : string) (c : FileChange) : string :=
  "{" +:+ q "description" +:+ ":" +:+ q description +:+ ","
  +:+ q "changes" +:+ ":[" +:+ jsonChange c +:+ "]}".

Definition mock (name answer : string) : provider.LLMProvider :=
  provider.mkLLM name
    (fun _ => ([provider.mkChunk answer false; provider.mkChunk "" true], None)).

Definition llm : provider.LLMProvider := mock "anthropic" (jsonAnswer "add X" change0).

Definition trim (s : string) : string := s.
Definition patch (old new : string) : string := "+" +:+ new.

Definition decode (s : string) : option llmResp :=
  if String.eqb s (jsonAnswer "add X" change0)
  then Some (mkResp "add X" [change0]) else None.

Definition io : GenIO :=
  mkGenIO (Dir "repo" [Dir ".git" [File "HEAD"]; Dir "src" [File "main.go"]])
    id0 0.

(** A proposal that touches a protected file, as in the test
    [TestEngine_ProtectedPaths]. *)
Definition badChange : FileChange := mkChange "Dockerfile" "modify" "FROM scratch".

Definition llmBad : provider.LLMProvider :=
  mock "mock" (jsonAnswer "Modify Dockerfile" badChange).

Definition decodeBad (s : string) : option llmResp :=
  if String.eqb s (jsonAnswer "Modify Dockerfile" badChange)
  then Some (mkResp "Modify Dockerfile" [badChange]) else None.

(** A handler with version control configured, whose remote refuses the
    push, and one with nothing configured. *)
Definition git : ws.GitService :=
  ws.mkGit (fun _ => None) (fun _ => ("4f9c2d1", None))
    (fun _ => Some "remote rejected") None.

Definition gh : ws.GitHubClient :=
  ws.mkGitHub (fun _ _ _ _ => inl "https://github.com/yuki/flyagi/pull/1").

Definition registry : provider.Registry :=
  provider.RegisterLLM provider.NewRegistry llm.

Definition handler : ws.ChatHandler :=
  ws.mkHandler registry (Some engine0) (Some git) (Some gh) ∅.

Definition handlerBare : ws.ChatHandler :=
  ws.mkHandler registry None None None ∅.

Definition world : ws.World := ws.mkWorld fs0 0 [].

Definition approveBytes : json.bytes :=
  json.lit ("{" +:+ q "request_id" +:+ ":" +:+ q id0 +:+ "}").

Definition decodeApprove (b : json.bytes) : option ws.SelfModApprovePayload :=
  if bool_decide (b = approveBytes) then Some (ws.mkApprove id0) else None.

Definition chatBytes : json.bytes :=
  json.lit ("{" +:+ q "messages" +:+ ":[{" +:+ q "role" +:+ ":" +:+ q "user"
            +:+ "," +:+ q "content" +:+ ":" +:+ q "hello" +:+ "}]}").

Definition decodeChatSend (b : json.bytes) : option ws.ChatSendPayload :=
  if bool_decide (b = chatBytes)
  then Some (ws.mkChatSend [provider.mkMessage "user" "hello"] "") else None.

Definition requestBytes : json.bytes :=
  json.lit ("{" +:+ q "request" +:+ ":" +:+ q "please add a module X" +:+ "}").

Definition decodeSelfModRequest (b : json.bytes)
  : option ws.SelfModRequestPayload :=
  if bool_decide (b = requestBytes)
  then Some (ws.mkSelfModRequest "please add a module X" "") else None.

Definition toLower (s : string) : string := s.
Definition errorText (err : error) : string := "error".

(** Two envelopes with the same payload value, written with and without a
    space after the colon. *)
Definition envSpaced : ws.Envelope :=
  ws.mkEnvelope "chat.send" (json.lit ("{" +:+ q "a" +:+ ": 1}")).

Definition envCompact : ws.Envelope :=
  ws.mkEnvelope "chat.send" (json.lit ("{" +:+ q "a" +:+ ":1}")).

Definition dataCompact : json.bytes := default [] (ws.Marshal envCompact).

Definition client : ws.Client := ws.mkClient "c1" (ws.make 256).

(** A payload encoder that writes the empty object for every payload,
    and the connection of [client] with no other goroutine at work. *)
Definition encode (p : ws.payload) : json.bytes := json.lit "{}".
Definition link : ws.conn := ws.mkConn client [].
End examples.

Module claims.
Import selfmod ws.

(** Approval as the specification words it: a pending request is flipped to approved, and then its
    changes are applied, whatever becomes of them. *)
Definition flipsThenApplies (e : Engine) (fs : os.FS) (id : string) : Prop :=
  statusOf e id = Some "pending" ->
  statusOf (ApproveAndApply e fs id).1.1 id = Some "approved".

(** History as the specification words it: a status transition does not change what a reader of
    [History] sees. *)
Definition historyFrozen (e e' : Engine) : Prop :=
  view e' (History e') = view e (History e).

(** The round trip as the specification words it: an envelope whose type is well-formed text and whose
    payload is valid JSON comes back from encoding and decoding. *)
Definition validEnvelope (e : Envelope) : Prop :=
  utf8.ValidString (Type_ e) = true /\ json.checkValid (Payload e) = true.

Definition roundTrips (e : Envelope) : Prop :=
  Marshal e ≫= Unmarshal = Some e.

(** A payload in the form the encoder itself writes: one JSON value with
    no space between its tokens and no character [Compact] escapes, that
    fits under the parse stack when it sits inside the envelope. *)
Definition compactValue (p : json.bytes) : Prop :=
  json.value json.Compact (S (length p)) 1 p = Some (p, []).

(** Rejection as the specification words it: without an engine, the handler of [selfmod.reject]
    sends an error envelope and no [rejected] status. *)
Definition reportsConfigurationError
    (decodeApprove : json.bytes -> option SelfModApprovePayload)
    (h : ChatHandler) (w : World) (client : string) (payload : json.bytes)
  : Prop :=
  engine h = None ->
  let tr := trace (handleSelfModReject decodeApprove h w client payload).2 in
  (exists msg, In (Emit client "error" (ErrorMap msg)) tr)
  /\ statuses tr = statuses (trace w).
End claims.

(** The engines a server can hold: [NewEngine], followed by any calls of
    [GenerateChanges], [ApproveAndApply] and [Reject]. *)
Module runs.
Import selfmod.

Section Reachable.
Variable TrimSpace : string -> string.
Variable Unmarshal : string -> option llmResp.
Variable patchText : string -> string -> string.

Inductive reachable : Engine -> Prop :=
| reach_new (repoPath : string) : reachable (NewEngine repoPath)
| reach_generate (e : Engine) (fs : os.FS) (io : GenIO)
    (llm : provider.LLMProvider) (userRequest : string) :
    reachable e ->
    reachable (GenerateChanges TrimSpace Unmarshal patchText
                 e fs io llm userRequest).1
| reach_approve (e : Engine) (fs : os.FS) (requestID : string) :
    reachable e -> reachable (ApproveAndApply e fs requestID).1.1
| reach_reject (e : Engine) (requestID : string) :
    reachable e -> reachable (Reject e requestID).1.
End Reachable.

(** The three values the engine ever writes into [Status]. *)
Definition statusValues : list string := ["pending"; "approved"; "rejected"].

(** The pointers of an engine lead somewhere: the history is the list
    of all addresses in use, and an identifier of the request table
    leads to a request that carries it. *)
Definition wellFormed (e : Engine) : Prop :=
  history e = seq 0 (length (store e))
  /\ forall id p, requests e !! id = Some p ->
       exists cr, store e !! p = Some cr /\ ID cr = id.

(** A request as [GenerateChanges] leaves it and the two transitions keep
    it. *)
Definition checked (cr : ChangeRequest) : Prop :=
  In (Status cr) statusValues
  /\ Forall (fun change => validateChange change = None) (Changes cr)
  /\ map DiffPath (Diffs cr) = map Path (Changes cr).
End runs.

(** The envelopes that cross the wire unchanged: the type is well-formed
    UTF-8, and the payload is absent or is a compact JSON value. *)
Module wire.
Import ws.

Definition onWire (e : Envelope) : Prop :=
  utf8.ValidString (Type_ e) = true
  /\ (Payload e = [] \/ claims.compactValue (Payload e)).
End wire.

(** What a goroutine needs in order to deliver its next [n] envelopes
    whatever the other goroutines do in between: the payloads serialise,
    the queue of the client is open and is not closed meanwhile, and it
    has room for [n] frames besides those the other goroutines can add. *)
Module live.
Import ws.

Definition serialises (encode : payload -> json.bytes) : Prop :=
  forall type_ p, is_Some (Marshal (mkEnvelope type_ (encode p))).

Definition room (n : nat) (k : conn) : Prop :=
  closed (send (peer k)) = false
  /\ Forall (Forall (fun m => m <> Close)) (schedule k)
  /\ length (buf (send (peer k))) + length (concat (schedule k)) + n
     <= cap (send (peer k)).

(** The client has gone: [unregister] closed its queue, and no other
    goroutine sends on it before this one does. *)
Definition gone (k : conn) : Prop :=
  closed (send (peer k)) = true
  /\ Forall (Forall (fun m => m = Receive)) (schedule k).

(** The client stays connected while the goroutine runs: its queue is
    open and is not closed meanwhile. *)
Definition connected (k : conn) : Prop :=
  closed (send (peer k)) = false
  /\ Forall (Forall (fun m => m <> Close)) (schedule k).

(** Two goroutines that differ only in the queue of their client and in
    which of their envelopes were dropped. *)
Definition alike (s1 s2 : goroutine) : Prop :=
  s1.1.1 = s2.1.1
  /\ fs s1.1.2 = fs s2.1.2
  /\ contexts s1.1.2 = contexts s2.1.2
  /\ attempts (trace s1.1.2) = attempts (trace s2.1.2)
  /\ (connected s1.2 /\ connected s2.2)
  /\ ID (peer s1.2) = ID (peer s2.2).
End live.

(** * Proofs *)

Import selfmod spec.
(** * Strings and paths *)

Lemma prefix_nil (s : string) : String.prefix "" s = true.
Proof. by destruct s. Qed.

Lemma prefix_refl (s : string) : String.prefix s s = true.
Proof.
  induction s as [|c s IH]; [done|]. simpl.
  destruct (ascii_dec c c); [done | congruence].
Qed.

Lemma prefix_app_l (a b s : string) :
  String.prefix (a +:+ b) s = true -> String.prefix a s = true.
Proof.
  revert s. induction a as [|c a IH]; intros s H.
  - apply prefix_nil.
  - destruct s as [|c' s]; [done|]. simpl in *.
    destruct (ascii_dec c c'); [by apply IH | done].
Qed.

Lemma Contains_prefix (s sub : string) :
  String.prefix sub s = true -> strings.Contains s sub = true.
Proof. intros H. destruct s; simpl in *; by rewrite H. Qed.

Lemma Contains_cons (c : ascii) (s sub : string) :
  strings.Contains s sub = true -> strings.Contains (String c s) sub = true.
Proof. intros H. cbn [strings.Contains]. rewrite H. apply orb_true_r. Qed.

Lemma split_nonempty (s : string) : filepath.split s <> [].
Proof.
  induction s as [|c s IH]; [done|]. simpl.
  destruct (Ascii.eqb c "/"); [done|]. by destruct (filepath.split s).
Qed.

Lemma split_head_prefix (s x : string) (xs : list string) :
  filepath.split s = x :: xs -> String.prefix x s = true.
Proof.
  revert x xs. induction s as [|c s IH]; intros x xs H; simpl in H.
  - by injection H as <- <-.
  - destruct (Ascii.eqb c "/").
    + injection H as <- <-. done.
    + destruct (filepath.split s) as [|y ys] eqn:E.
      * injection H as <- <-. simpl. destruct (ascii_dec c c); [|congruence].
        apply prefix_nil.
      * injection H as <- <-. simpl. destruct (ascii_dec c c); [|congruence].
        by eapply IH.
Qed.

Lemma split_elem_Contains (s x : string) :
  In x (filepath.split s) -> strings.Contains s x = true.
Proof.
  induction s as [|c s IH]; intros H.
  - simpl in H. destruct H as [<-|[]]. done.
  - simpl in H. destruct (Ascii.eqb c "/").
    + destruct H as [<-|H]; [done|]. by apply Contains_cons, IH.
    + destruct (filepath.split s) as [|y ys] eqn:E.
      { by destruct (split_nonempty s). }
      destruct H as [<-|H].
      * apply Contains_prefix. simpl. destruct (ascii_dec c c); [|congruence].
        by eapply split_head_prefix.
      * apply Contains_cons, IH. by right.
Qed.




Lemma validateChange_validationError (change : FileChange) (err : error) :
  validateChange change = Some err -> spec.validationError err.
Proof.
  unfold validateChange. intros H.
  repeat match type of H with
         | (if ?b then _ else _) = _ => destruct b
         end; by simplify_eq.
Qed.

Lemma validateChange_protected (change : FileChange) (protected : string) :
  In protected protectedPaths ->
  strings.HasPrefix (filepath.Clean (Path change)) protected = true ->
  validateChange change = Some (ErrProtectedPath (Path change)).
Proof.
  intros Hin Hpre. unfold validateChange.
  assert (existsb (fun p => strings.HasPrefix (filepath.Clean (Path change)) p)
            protectedPaths = true) as ->; [|done].
  apply existsb_exists. eauto.
Qed.

Lemma validateChange_None (change : FileChange) :
  validateChange change = None -> ~ spec.invalid change.
Proof.
  intros Hv [(p & Hin & Hp)|[Htrav|[Hact|Hsize]]].
  - rewrite (validateChange_protected change p) in Hv; [done|done|].
    unfold strings.HasPrefix. destruct Hp as [->|Hp].
    + apply prefix_refl.
    + by eapply prefix_app_l.
  - unfold validateChange in Hv.
    destruct (existsb _ _); [done|].
    by rewrite (split_elem_Contains _ _ Htrav) in Hv.
  - unfold validateChange in Hv.
    destruct (existsb _ _); [done|]. destruct (strings.Contains _ _); [done|].
    destruct (String.eqb (Action change) "create") eqn:E1.
    { apply String.eqb_eq in E1. apply Hact. rewrite E1. simpl. auto. }
    destruct (String.eqb (Action change) "modify") eqn:E2.
    { apply String.eqb_eq in E2. apply Hact. rewrite E2. simpl. auto. }
    destruct (String.eqb (Action change) "delete") eqn:E3.
    { apply String.eqb_eq in E3. apply Hact. rewrite E3. simpl. auto. }
    done.
  - unfold validateChange in Hv.
    destruct (existsb _ _); [done|]. destruct (strings.Contains _ _); [done|].
    destruct (negb _); [done|].
    change (Z.shiftl 1 20) with 1048576%Z in Hv.
    destruct (Z.ltb_spec 1048576 (Z.of_nat (String.length (NewContent change))));
      [done | lia].
Qed.

Lemma validateChanges_invalid (changes : list FileChange) :
  Exists spec.invalid changes ->
  exists err, validateChanges changes = Some (ErrInvalidChange err)
              /\ spec.validationError err.
Proof.
  induction changes as [|c cs IH]; intros H; [by inversion H|].
  simpl. destruct (validateChange c) as [err|] eqn:E.
  - exists err. split; [done|]. by eapply validateChange_validationError.
  - apply IH. inversion H as [? ? Hc|]; subst; [|done].
    by destruct (validateChange_None c E).
Qed.

Section GenerateProofs.
Variable TrimSpace : string -> string.
Variable Unmarshal : string -> option llmResp.
Variable patchText : string -> string -> string.

Abbreviation GenerateChanges := (GenerateChanges TrimSpace Unmarshal patchText).
Abbreviation extractJSON := (extractJSON TrimSpace).

Lemma GenerateChanges_error_unchanged e fs io llm req e' err :
  GenerateChanges e fs io llm req = (e', inr err) -> e' = e.
Proof.
  unfold selfmod.GenerateChanges. intros H.
  repeat match type of H with
         | match ?x with _ => _ end = _ => destruct x eqn:?
         | (let '(_, _) := ?x in _) = _ => destruct x eqn:?
         end; by simplify_eq.
Qed.

(** C4. Generation is all-or-nothing with respect to validation: when the
    answer of the model decodes into a proposal of which some change is
    invalid (protected path, parent-directory element, unknown action or
    oversized content), [GenerateChanges] returns a validation error and
    the engine is as before: no request stored, nothing appended to the
    history. *)
Theorem generate_invalid_change_rejected
  (e : Engine) (fs : os.FS) (io : GenIO) (llm : provider.LLMProvider)
  (userRequest codeContext : string) (chunks : list provider.StreamChunk)
  (resp : llmResp) :
  collectContext (tree io) = inl codeContext ->
  provider.ChatStream llm (messages codeContext userRequest) = (chunks, None) ->
  Unmarshal (extractJSON (response chunks)) = Some resp ->
  Exists spec.invalid (RespChanges resp) ->
  exists err,
    GenerateChanges e fs io llm userRequest = (e, inr (ErrInvalidChange err))
    /\ spec.validationError err
    /\ requests (GenerateChanges e fs io llm userRequest).1 = requests e
    /\ History (GenerateChanges e fs io llm userRequest).1 = History e.
Proof.
  intros Hctx Hllm Hresp Hinv.
  destruct (validateChanges_invalid _ Hinv) as (err & Hv & Hkind).
  exists err.
  assert (GenerateChanges e fs io llm userRequest
          = (e, inr (ErrInvalidChange err))) as Heq.
  { unfold selfmod.GenerateChanges. by rewrite Hctx, Hllm, Hresp, Hv. }
  by rewrite Heq.
Qed.
End GenerateProofs.

(** C9. [validateChange] decides protection by string prefix: a change
    whose cleaned path begins with the characters of a protected entry is
    refused with the protected-path error, whatever follows the prefix. *)
Theorem protected_prefix_rejected (change : FileChange) (protected : string) :
  In protected protectedPaths ->
  strings.HasPrefix (filepath.Clean (Path change)) protected = true ->
  validateChange change = Some (ErrProtectedPath (Path change)).
Proof. apply validateChange_protected. Qed.

(** * The state machine of a change request *)

Lemma setStatus_lookup (st : list ChangeRequest) (p : ptr) (status : string)
    (cr : ChangeRequest) :
  st !! p = Some cr ->
  setStatus st p status !! p
  = Some (mkCR (ID cr) (Description cr) (Changes cr) (Diffs cr) status
               (CreatedAt cr)).
Proof.
  intros H. unfold setStatus. rewrite H.
  apply list_lookup_insert_eq. by eapply lookup_lt_Some.
Qed.

Lemma setStatus_lookup_ne (st : list ChangeRequest) (p p' : ptr) (status : string) :
  p <> p' -> setStatus st p status !! p' = st !! p'.
Proof.
  intros H. unfold setStatus. destruct (st !! p); [|done].
  by apply list_lookup_insert_ne.
Qed.



Lemma setStatus_frame (st : list ChangeRequest) (p q : ptr) (status : string)
    (cr : ChangeRequest) :
  st !! q = Some cr ->
  exists cr', setStatus st p status !! q = Some cr' /\ sameButStatus cr cr'.
Proof.
  intros H. destruct (decide (p = q)) as [->|Hne].
  - rewrite (setStatus_lookup _ _ _ _ H). eexists. split; [done|].
    by repeat split.
  - rewrite setStatus_lookup_ne by done. exists cr. by repeat split.
Qed.

Lemma applyChanges_fold (repo : string) (changes : list FileChange) (fs fs' : os.FS) :
  applyChanges repo changes fs = (fs', None) ->
  fs' = foldl (fun fs change => (applyChange repo fs change).1) fs changes.
Proof.
  revert fs. induction changes as [|c cs IH]; intros fs H; simpl in *.
  - by simplify_eq.
  - destruct (applyChange repo fs c) as [fs1 [err|]] eqn:E; [done|].
    simpl. by apply IH.
Qed.

Lemma applyChanges_app (repo : string) (cs1 cs2 : list FileChange) (fs : os.FS) :
  applyChanges repo (cs1 ++ cs2) fs
  = match applyChanges repo cs1 fs with
    | (fs1, None) => applyChanges repo cs2 fs1
    | (fs1, Some err) => (fs1, Some err)
    end.
Proof.
  revert fs. induction cs1 as [|c cs IH]; intros fs; simpl; [done|].
  destruct (applyChange repo fs c) as [fs1 [err|]]; [done|]. apply IH.
Qed.

Lemma String_eqb_false (a b : string) : a <> b -> String.eqb a b = false.
Proof. by intros; apply String.eqb_neq. Qed.

Lemma ApproveAndApply_not_pending e fs id p cr :
  requests e !! id = Some p -> store e !! p = Some cr ->
  Status cr <> "pending" ->
  ApproveAndApply e fs id = (e, fs, Some (ErrNotPending (Status cr))).
Proof.
  intros Hp Hcr Hst. unfold ApproveAndApply.
  by rewrite Hp, Hcr, String_eqb_false.
Qed.

Lemma ApproveAndApply_pending e fs id p cr :
  requests e !! id = Some p -> store e !! p = Some cr ->
  Status cr = "pending" ->
  ApproveAndApply e fs id
  = match applyChanges (repoPath e) (Changes cr) fs with
    | (fs', Some err) => (e, fs', Some err)
    | (fs', None) => (withStore e (setStatus (store e) p "approved"), fs', None)
    end.
Proof.
  intros Hp Hcr Hst. unfold ApproveAndApply.
  by rewrite Hp, Hcr, Hst.
Qed.

Lemma statusOf_lookup e id p cr :
  requests e !! id = Some p -> store e !! p = Some cr ->
  statusOf e id = Some (Status cr).
Proof.
  intros Hp Hcr. unfold statusOf, GetRequest, deref. by rewrite Hp; simpl; rewrite Hcr.
Qed.

(** C1 (amended). [ApproveAndApply] on a stored request: when the status
    is not pending, it fails with the not-pending error and leaves the
    engine and the working tree as they were; when the status is pending, it
    applies the changes in list order, stopping at the first failure, and
    sets the status to approved only after all of them succeeded; after a
    failure the status is still pending and the earlier writes stay. The
    status is approved afterwards only if it was pending or approved
    before. *)
Theorem approve_applies_then_flips (e : Engine) (fs : os.FS) (id : string)
    (p : ptr) (cr : ChangeRequest) :
  requests e !! id = Some p ->
  store e !! p = Some cr ->
  let '(e', fs', result) := ApproveAndApply e fs id in
  (Status cr <> "pending" ->
     result = Some (ErrNotPending (Status cr)) /\ e' = e /\ fs' = fs)
  /\ (Status cr = "pending" ->
        (fs', result) = applyChanges (repoPath e) (Changes cr) fs
        /\ (result = None ->
              statusOf e' id = Some "approved"
              /\ fs' = foldl (fun fs change =>
                                (applyChange (repoPath e) fs change).1)
                             fs (Changes cr))
        /\ (result <> None -> e' = e /\ statusOf e' id = Some "pending"))
  /\ (statusOf e' id = Some "approved" ->
        Status cr = "pending" \/ Status cr = "approved").
Proof.
  intros Hp Hcr.
  destruct (decide (Status cr = "pending")) as [Hst|Hst].
  - rewrite (ApproveAndApply_pending _ _ _ _ _ Hp Hcr Hst).
    destruct (applyChanges _ _ _) as [fs' [err|]] eqn:E.
    + split; [done|]. split; [|auto]. intros _. split; [done|].
      split; [by intros ?|]. intros _. split; [done|].
      by rewrite (statusOf_lookup _ _ _ _ Hp Hcr), Hst.
    + split; [done|]. split; [|auto]. intros _. split; [done|].
      split; [|done]. intros _. split.
      * unfold statusOf, GetRequest, deref. simpl. rewrite Hp. simpl.
        by rewrite (setStatus_lookup _ _ _ _ Hcr).
      * by apply applyChanges_fold.
  - rewrite (ApproveAndApply_not_pending _ _ _ _ _ Hp Hcr Hst).
    split; [done|]. split; [by intros ?|].
    rewrite (statusOf_lookup _ _ _ _ Hp Hcr). intros [= ->]. by right.
Qed.





Lemma approve_applies_then_flips_witness :
  requests examples.engine0 !! examples.id0 = Some 0
  /\ store examples.engine0 !! 0 = Some examples.cr0
  /\ statusOf (ApproveAndApply examples.engine0 examples.fs0 examples.id0).1.1
       examples.id0 = Some "approved".
Proof.
  split; [reflexivity|]. split; [reflexivity|].
  pose proof (approve_applies_then_flips examples.engine0 examples.fs0
                examples.id0 0 examples.cr0 eq_refl eq_refl) as H.
  destruct (ApproveAndApply examples.engine0 examples.fs0 examples.id0)
    as [[e' fs'] result] eqn:E.
  destruct H as (_ & H & _). destruct (H eq_refl) as (Happly & Hok & _).
  apply Hok. vm_compute in Happly. congruence.
Defined.

Lemma approve_counterexample :
  ~ claims.flipsThenApplies examples.engine0 examples.fsLocked examples.id0.
Proof. intros H. specialize (H eq_refl). vm_compute in H. discriminate. Qed.

(** C2. [Reject] does not look at the status: on a request that is
    already approved it returns no error and overwrites the status with
    rejected. *)
Theorem reject_overwrites_approved :
  statusOf examples.engineApproved examples.id0 = Some "approved"
  /\ (Reject examples.engineApproved examples.id0).2 = None
  /\ statusOf (Reject examples.engineApproved examples.id0).1 examples.id0
     = Some "rejected".
Proof. vm_compute. done. Qed.

Lemma history_counterexample :
  ~ claims.historyFrozen examples.engine0
      (Reject examples.engine0 examples.id0).1.
Proof. intros H. vm_compute in H. discriminate. Qed.

Lemma Reject_frame (e : Engine) (id : string) :
  History (Reject e id).1 = History e
  /\ requests (Reject e id).1 = requests e
  /\ forall q cr, deref e q = Some cr ->
       exists cr', deref (Reject e id).1 q = Some cr' /\ sameButStatus cr cr'.
Proof.
  unfold Reject. destruct (requests e !! id) as [p|]; simpl.
  - destruct (store e !! p) eqn:E; simpl.
    + split; [done|]. split; [done|]. intros q cr Hq.
      by apply setStatus_frame.
    + split; [done|]. split; [done|]. intros q cr Hq. exists cr.
      by repeat split.
  - split; [done|]. split; [done|]. intros q cr Hq. exists cr. by repeat split.
Qed.

Lemma ApproveAndApply_frame (e : Engine) (fs : os.FS) (id : string) :
  History (ApproveAndApply e fs id).1.1 = History e
  /\ requests (ApproveAndApply e fs id).1.1 = requests e
  /\ forall q cr, deref e q = Some cr ->
       exists cr', deref (ApproveAndApply e fs id).1.1 q = Some cr'
                   /\ sameButStatus cr cr'.
Proof.
  assert (forall q cr, deref e q = Some cr ->
            exists cr', deref e q = Some cr' /\ sameButStatus cr cr') as Hsame.
  { intros q cr Hq. exists cr. by repeat split. }
  unfold ApproveAndApply. destruct (requests e !! id) as [p|]; simpl; [|done].
  destruct (store e !! p) eqn:E; simpl; [|done].
  destruct (negb _); simpl; [done|].
  destruct (applyChanges _ _ _) as [fs' [err|]]; simpl; [done|].
  split; [done|]. split; [done|]. intros q cr Hq. by apply setStatus_frame.
Qed.

Lemma Reject_found (e : Engine) (id : string) (p : ptr) (cr : ChangeRequest) :
  requests e !! id = Some p -> store e !! p = Some cr ->
  Reject e id = (withStore e (setStatus (store e) p "rejected"), None).
Proof. intros Hp Hcr. unfold Reject. by rewrite Hp, Hcr. Qed.

Section HistoryProofs.
Variable TrimSpace : string -> string.
Variable Unmarshal : string -> option llmResp.
Variable patchText : string -> string -> string.

Abbreviation GenerateChanges' := (GenerateChanges TrimSpace Unmarshal patchText).

Lemma GenerateChanges_ok e fs io llm req e' p :
  GenerateChanges' e fs io llm req = (e', inl p) ->
  exists resp diffs,
    generateDiffs patchText (repoPath e) fs (RespChanges resp) = inl diffs
    /\ p = length (store e)
    /\ e' = mkEngine (repoPath e)
              (store e ++ [mkCR (newUUID io) (RespDescription resp)
                             (RespChanges resp) diffs "pending" (now io)])
              (<[newUUID io := p]> (requests e)) (history e ++ [p]).
Proof.
  unfold selfmod.GenerateChanges. intros H.
  repeat match type of H with
         | match ?x with _ => _ end = _ => destruct x eqn:?
         | (let '(_, _) := ?x in _) = _ => destruct x eqn:?
         end; simplify_eq.
  unfold new in *. simplify_eq. eauto.
Qed.

(** C3 (amended). A successful [GenerateChanges] appends to the history
    the pointer it also stores in the request table; the object has the
    fresh identifier and status pending, and older objects are untouched.
    [ApproveAndApply] and [Reject] leave the list of history entries as it
    is and change nothing of any object but its status. The history entry
    being the live object, a status transition shows through [History]:
    after [Reject] the entry reads rejected. *)
Theorem history_holds_live_requests
    (e : Engine) (fs : os.FS) (io : GenIO) (llm : provider.LLMProvider)
    (userRequest : string) (e' : Engine) (p : ptr) :
  GenerateChanges' e fs io llm userRequest = (e', inl p) ->
  (exists cr, History e' = History e ++ [p]
     /\ deref e' p = Some cr
     /\ ID cr = newUUID io /\ Status cr = "pending"
     /\ GetRequest e' (ID cr) = Some p
     /\ forall q old, deref e q = Some old -> deref e' q = Some old)
  /\ (forall (fs1 : os.FS) (id : string) (e1 : Engine),
        e1 = (ApproveAndApply e' fs1 id).1.1 \/ e1 = (Reject e' id).1 ->
        History e1 = History e'
        /\ (forall q cr, deref e' q = Some cr ->
              exists cr1, deref e1 q = Some cr1 /\ sameButStatus cr cr1))
  /\ (forall cr, deref e' p = Some cr ->
        deref (Reject e' (ID cr)).1 p
        = Some (mkCR (ID cr) (Description cr) (Changes cr) (Diffs cr)
                  "rejected" (CreatedAt cr))).
Proof.
  intros Hgen.
  destruct (GenerateChanges_ok _ _ _ _ _ _ _ Hgen)
    as (resp & diffs & Hdiffs & -> & ->).
  split; [|split].
  - eexists. split; [done|]. unfold deref, GetRequest. simpl.
    split; [by apply list_lookup_middle|]. split; [done|]. split; [done|].
    split; [by rewrite lookup_insert_eq|].
    intros q old Hq. rewrite lookup_app_l; [done|]. by eapply lookup_lt_Some.
  - intros fs1 id e1 He1.
    set (e' := mkEngine _ _ _ _) in *.
    destruct He1 as [-> | ->].
    + destruct (ApproveAndApply_frame e' fs1 id) as (? & ? & ?). done.
    + destruct (Reject_frame e' id) as (? & ? & ?). done.
  - intros cr Hcr. unfold deref in Hcr. simpl in Hcr.
    rewrite list_lookup_middle in Hcr by done. injection Hcr as <-. simpl.
    set (cr := mkCR _ _ _ _ _ _).
    rewrite (Reject_found _ _ (length (store e)) cr); simpl.
    + unfold deref. simpl.
      by rewrite (setStatus_lookup _ _ _ cr) by by apply list_lookup_middle.
    + by rewrite lookup_insert_eq.
    + by apply list_lookup_middle.
Qed.
End HistoryProofs.

Import ws.
(** C7. [Client.Send] of an envelope that serialises, on a queue that is
    not closed: when the queue is full the call returns [ErrSendBufferFull]
    and the queue is as before; when there is room the serialised envelope
    is appended to the queue and the call returns no error. The call never
    parks the caller. *)
Theorem send_never_blocks (c : Client) (env : Envelope) (data : json.bytes) :
  Marshal env = Some data ->
  closed (send c) = false ->
  (cap (send c) <= length (buf (send c)) ->
     Send c env = (c, Returns (Some ErrSendBufferFull)))
  /\ (length (buf (send c)) < cap (send c) ->
        Send c env
        = (mkClient (ID c) (mkChan (buf (send c) ++ [data]) (cap (send c)) false),
           Returns None))
  /\ (Send c env).2 <> Blocks.
Proof.
  intros Hm Hc. unfold Send, chansend. rewrite Hm, Hc.
  destruct (Nat.ltb_spec (length (buf (send c))) (cap (send c))).
  - split; [lia|]. done.
  - split; [done|]. split; [lia|done].
Qed.

Lemma Send_total_no_block (c : Client) (env : Envelope) : (Send c env).2 <> Blocks.
Proof.
  unfold Send, chansend. destruct (Marshal env); [|done].
  destruct (closed _); [done|]. by destruct (_ <? _).
Qed.

Section HandlerProofs.
Variable ToLower : string -> string.
Variable decodeChatSend : json.bytes -> option ChatSendPayload.
Variable decodeSelfModRequest : json.bytes -> option SelfModRequestPayload.
Variable decodeApprove : json.bytes -> option SelfModApprovePayload.
Variable errorText : selfmod.error -> string.

Lemma emit_trace w ev : trace (emit w ev) = trace w ++ [ev].
Proof. done. Qed.

(** C8 (amended). The handler of [selfmod.reject], on a payload that
    decodes, always sends the status [rejected] and nothing else: with an
    engine it calls [Reject] first and ignores its result; without one it
    skips the call, leaves the handler as it is, and sends no error
    envelope. *)
Theorem reject_always_reports_rejected
    (h : ChatHandler) (w : World) (client : string) (payload : json.bytes)
    (p : SelfModApprovePayload) :
  decodeApprove payload = Some p ->
  let '(h', w') := handleSelfModReject decodeApprove h w client payload in
  trace w'
  = trace w
    ++ match engine h with
       | Some _ => [Call (CallReject (RequestID p))]
       | None => []
       end
    ++ [Emit client "selfmod.status"
          (SelfModStatus (RequestID p) "rejected" "変更は拒否されました" "")]
  /\ engine h' = (fun e => (selfmod.Reject e (RequestID p)).1) <$> engine h
  /\ (engine h = None -> h' = h)
  /\ fs w' = fs w.
Proof.
  intros Hd. unfold handleSelfModReject. rewrite Hd.
  destruct (engine h) as [e|] eqn:E; simpl.
  - rewrite <- app_assoc. done.
  - rewrite E. done.
Qed.

(** C10. A [chat.send] or [selfmod.request] payload whose [provider_id]
    is the empty string is served by the provider registered as
    [anthropic]: when there is one, the handler starts the generation or
    the stream with it and sends no error envelope; when there is none,
    the only envelope it sends is the error that names [anthropic]. *)
Theorem empty_provider_selects_anthropic
    (h : ChatHandler) (w : World) (client : string) (payload : json.bytes) :
  (forall p, decodeChatSend payload = Some p -> ProviderID p = "" ->
     let '(h0, w0) := handleChatCancel h w client in
     let '(h', w') := handleChatSend ToLower decodeChatSend h w client payload in
     match provider.llms (registry h) !! "anthropic" with
     | None =>
         trace w' = trace w0
           ++ [Emit client "error" (ErrorMap "LLM provider not found: anthropic")]
     | Some llm =>
         let lastMsg := match last (Messages p) with
                        | Some m => provider.Content m
                        | None => ""
                        end in
         trace w' = trace w0
           ++ [Emit client "chat.chunk"
                 (ChatChunk ("コード変更を生成しています..." +:+ selfmod.nl) false);
               Go (GenerateTask client llm lastMsg)]
         \/ trace w' = trace w0
              ++ [Go (StreamTask client llm (Messages p) (contexts w))]
     end)
  /\ (forall p, decodeSelfModRequest payload = Some p ->
        RequestProviderID p = "" ->
        let '(h', w') := handleSelfModRequest decodeSelfModRequest h w client payload in
        match provider.llms (registry h) !! "anthropic" with
        | None =>
            trace w' = trace w
              ++ [Emit client "error"
                    (ErrorMap "LLM provider not found: anthropic")]
        | Some llm =>
            trace w' = trace w
              ++ [Emit client "chat.chunk"
                    (ChatChunk ("コード変更を生成しています..." +:+ selfmod.nl) false);
                  Go (GenerateTask client llm (Request p))]
        end).
Proof.
  split.
  - intros p Hd Hp. unfold handleChatSend. rewrite Hd, Hp. simpl.
    assert (registry (handleChatCancel h w client).1 = registry h
            /\ contexts (handleChatCancel h w client).2 = contexts w
            /\ engine (handleChatCancel h w client).1 = engine h) as (Hr & Hc & He).
    { unfold handleChatCancel. by destruct (cancels h !! client). }
    destruct (handleChatCancel h w client) as [h0 w0]. simpl in *.
    unfold provider.GetLLM. rewrite Hr.
    destruct (provider.llms (registry h) !! "anthropic") as [llm|]; [|done].
    destruct (bool_decide _ && _).
    + left. unfold handleSelfModFromChat. rewrite !emit_trace.
      by rewrite <- app_assoc.
    + right. by rewrite Hc.
  - intros p Hd Hp. unfold handleSelfModRequest. rewrite Hd, Hp. simpl.
    unfold provider.GetLLM.
    destruct (provider.llms (registry h) !! "anthropic") as [llm|]; [|done].
    unfold handleSelfModFromChat. rewrite !emit_trace. by rewrite <- app_assoc.
Qed.

End HandlerProofs.

Lemma ApproveAndApply_description (e : selfmod.Engine) (fs : os.FS) (id : string)
    (q : selfmod.ptr) (cr : selfmod.ChangeRequest) :
  selfmod.deref e q = Some cr ->
  exists cr', selfmod.deref (selfmod.ApproveAndApply e fs id).1.1 q = Some cr'
              /\ selfmod.Description cr' = selfmod.Description cr.
Proof.
  intros Hq. unfold selfmod.ApproveAndApply, selfmod.deref in *.
  destruct (selfmod.requests e !! id) as [p|]; simpl; [|eauto].
  destruct (selfmod.store e !! p) as [c|] eqn:E; simpl; [|eauto].
  destruct (negb _); simpl; [eauto|].
  destruct (selfmod.applyChanges _ _ _) as [fs' [err|]]; simpl; [eauto|].
  unfold selfmod.setStatus. rewrite E.
  destruct (decide (p = q)) as [->|Hne].
  - rewrite list_lookup_insert_eq by by eapply lookup_lt_Some.
    eexists. split; [done|]. simpl. congruence.
  - rewrite list_lookup_insert_ne by done. eauto.
Qed.

(** * Goroutines and the connection *)

Lemma interfere_open (moves : list move) (q : chan) :
  closed q = false ->
  Forall (fun m => m <> Close) moves ->
  closed (foldl interfere q moves) = false
  /\ cap (foldl interfere q moves) = cap q
  /\ length (buf (foldl interfere q moves)) <= length (buf q) + length moves.
Proof.
  revert q. induction moves as [|m moves IH]; intros q Hq Hm; simpl.
  { split; [done|]. split; [done|]. lia. }
  apply Forall_cons_1 in Hm as [Hm Hms].
  assert (closed (interfere q m) = false
          /\ cap (interfere q m) = cap q
          /\ length (buf (interfere q m)) <= S (length (buf q)))
    as (H1 & H2 & H3).
  { destruct m as [|frame|]; simpl; [| |done].
    - split; [done|]. split; [done|]. destruct (buf q); simpl; lia.
    - unfold chansend. rewrite Hq.
      destruct (length (buf q) <? cap q); simpl.
      + split; [done|]. split; [done|]. rewrite length_app. simpl. lia.
      + split; [done|]. split; [done|]. lia. }
  destruct (IH _ H1 Hms) as (H4 & H5 & H6).
  split; [done|]. split; [congruence|]. lia.
Qed.

Lemma interfere_closed (moves : list move) (q : chan) :
  closed q = true -> closed (foldl interfere q moves) = true.
Proof.
  revert q. induction moves as [|m moves IH]; intros q Hq; [done|].
  simpl. apply IH. destruct m as [|frame|]; simpl; [done| |done].
  unfold chansend. by rewrite Hq.
Qed.

Section GoroutineProofs.
Variable encode : payload -> json.bytes.
Hypothesis Hser : live.serialises encode.

(** With room in the queue the send of a goroutine puts its frame into
    the queue and returns. *)
Lemma goSendThen_room (h : ChatHandler) (w : World) (k : conn)
    (type_ : string) (p : payload) (next : goroutine -> goroutine) (n : nat) :
  live.room (S n) k ->
  exists k',
    goSendThen encode (h, w, k) type_ p next
    = next (h, emit w (Emit (ID (peer k)) type_ p), k')
    /\ live.room n k'
    /\ ID (peer k') = ID (peer k).
Proof.
  intros (Hc & Hs & Hl). unfold goSendThen, goSend.
  destruct (Hser type_ p) as [data Hd].
  assert (Forall (fun m => m <> Close) (hd [] (schedule k))
          /\ Forall (Forall (fun m => m <> Close)) (tail (schedule k))
          /\ length (concat (schedule k))
             = length (hd [] (schedule k))
               + length (concat (tail (schedule k)))) as (Hh & Ht & Hlen).
  { destruct (schedule k) as [|ms sched]; simpl; [done|].
    apply Forall_cons_1 in Hs as [? ?]. by rewrite length_app. }
  destruct (interfere_open _ _ Hc Hh) as (H1 & H2 & H3).
  unfold Send, chansend. rewrite Hd. simpl. rewrite H1.
  destruct (Nat.ltb_spec
              (length (buf (foldl interfere (send (peer k))
                              (hd [] (schedule k)))))
              (cap (foldl interfere (send (peer k)) (hd [] (schedule k)))))
    as [_|Hge]; [|lia].
  eexists. split; [done|]. split; [|done].
  split; [done|]. split; [done|]. simpl. rewrite length_app. simpl. lia.
Qed.

(** On the queue of a client that has gone the send of a goroutine
    panics. *)
Lemma goSendThen_gone (h : ChatHandler) (w : World) (k : conn)
    (type_ : string) (p : payload) (next : goroutine -> goroutine) :
  live.gone k ->
  exists k',
    goSendThen encode (h, w, k) type_ p next
    = (h, emit (emit w (Emit (ID (peer k)) type_ p)) Panic, k')
    /\ live.gone k'.
Proof.
  intros (Hc & Hs). unfold goSendThen, goSend.
  destruct (Hser type_ p) as [data Hd].
  pose proof (interfere_closed (hd [] (schedule k)) _ Hc) as H1.
  unfold Send, chansend. rewrite Hd. simpl. rewrite H1.
  eexists. split; [done|]. split; [done|]. simpl.
  destruct (schedule k) as [|ms sched]; simpl; [done|].
  by apply Forall_cons_1 in Hs as [_ ?].
Qed.

End GoroutineProofs.

#[local] Arguments goSendThen : simpl never.

(** The next send of the goroutine whose run is described by [Hr], let
    through by a hypothesis on the room in the queue. *)
Ltac deliver Hser Hr :=
  match type of Hr with
  | context [goSendThen ?enc (?h, ?w, ?k) ?ty ?p ?next] =>
      match goal with
      | Hk : live.room (S ?n) k |- _ =>
          let k1 := fresh "k" in
          let E := fresh "E" in
          let Hk1 := fresh "Hk" in
          let Hid := fresh "Hid" in
          destruct (goSendThen_room enc Hser h w k ty p next n Hk)
            as (k1 & E & Hk1 & Hid);
          rewrite E in Hr; clear E Hk; cbv beta iota in Hr;
          repeat match goal with
                 | H : ID (peer _) = ID (peer _) |- _ =>
                     progress rewrite H in Hr
                 end
      end
  end.

(** The run of a goroutine, named so that it can be worked on. *)
Ltac name_run r Hr :=
  match goal with
  | |- context [runApprove ?t ?enc ?s ?id] =>
      remember (runApprove t enc s id) as r eqn:Hr
  | |- context [runGenerate ?a ?b ?c ?d ?enc ?s ?io ?llm ?req] =>
      remember (runGenerate a b c d enc s io llm req) as r eqn:Hr
  end.

Section PublishProofs.
Variable errorText : selfmod.error -> string.
Variable encode : payload -> json.bytes.

Lemma statuses_app tr1 tr2 : statuses (tr1 ++ tr2) = statuses tr1 ++ statuses tr2.
Proof. apply omap_app. Qed.

(** C5. The publish sequence with version control configured, on a
    stored request, for a client that stays connected and whose queue has
    room for four envelopes: every status goes into the queue, none is
    dropped and no send panics; the statuses sent and the collaborator
    calls made are fixed by the first step that fails, and no step after
    that one runs. When the branch is created, the changes are applied and
    committed, and the push fails, the statuses are pushing, applying,
    pushing, error, the last call is the push, and [pr_created] is not
    sent; [pr_created] is sent only when all five steps succeed. *)
Theorem publish_halts_at_failed_step
    (h : ChatHandler) (w : World) (k : conn) (id : string)
    (e : selfmod.Engine) (cr : selfmod.ptr) (req : selfmod.ChangeRequest)
    (git : GitService) (gh : GitHubClient) :
  engine h = Some e ->
  selfmod.GetRequest e id = Some cr ->
  selfmod.deref e cr = Some req ->
  gitSvc h = Some git ->
  ghClient h = Some gh ->
  8 <= String.length id ->
  live.serialises encode ->
  live.room 4 k ->
  let branch := "selfmod/" +:+ strings.upto 8 id in
  let commitMsg := "selfmod: " +:+ selfmod.Description req in
  let prTitle := "[selfmod] " +:+ selfmod.Description req in
  let prBody := "## Self-Modification Request" +:+ selfmod.nl +:+ selfmod.nl
                +:+ selfmod.Description req +:+ selfmod.nl +:+ selfmod.nl
                +:+ "Generated by FlyAGI self-modification engine." in
  exists tr,
    trace (runApprove errorText encode (h, w, k) id).1.2 = trace w ++ tr
    /\ Forall (fun ev => ev <> Dropped /\ ev <> Panic) tr
    /\ Forall (fun c => c = ID (peer k)) (recipients tr)
    /\ match CreateBranch git branch with
       | Some _ =>
           statuses tr = ["pushing"; "error"]
           /\ calls tr = [CallCreateBranch branch]
       | None =>
       match selfmod.ApproveAndApply e (fs w) id with
       | (_, _, Some _) =>
           statuses tr = ["pushing"; "applying"; "error"]
           /\ calls tr = [CallCreateBranch branch; CallApproveAndApply id]
       | (_, _, None) =>
       match CommitAll git commitMsg with
       | (_, Some _) =>
           statuses tr = ["pushing"; "applying"; "pushing"; "error"]
           /\ calls tr = [CallCreateBranch branch; CallApproveAndApply id;
                          CallCommitAll commitMsg]
       | (_, None) =>
       match Push git branch with
       | Some _ =>
           statuses tr = ["pushing"; "applying"; "pushing"; "error"]
           /\ calls tr = [CallCreateBranch branch; CallApproveAndApply id;
                          CallCommitAll commitMsg; CallPush branch]
       | None =>
       match CreatePR gh prTitle prBody branch "main" with
       | inr _ =>
           statuses tr = ["pushing"; "applying"; "pushing"; "error"]
           /\ calls tr = [CallCreateBranch branch; CallApproveAndApply id;
                          CallCommitAll commitMsg; CallPush branch;
                          CallCreatePR prTitle prBody branch "main"]
       | inl _ =>
           statuses tr = ["pushing"; "applying"; "pushing"; "pr_created"]
           /\ calls tr = [CallCreateBranch branch; CallApproveAndApply id;
                          CallCommitAll commitMsg; CallPush branch;
                          CallCreatePR prTitle prBody branch "main";
                          CallCheckoutMain]
       end end end end end.
Proof.
  intros He Hcr Hreq Hgit Hgh Hlen Hser Hroom branch commitMsg prTitle prBody.
  name_run r Hr. unfold runApprove in Hr. rewrite He, Hcr, Hgit, Hgh in Hr.
  destruct (Nat.ltb_spec (String.length id) 8) as [Hlt|_];
    [clear - Hlt Hlen; lia|].
  fold branch in Hr. unfold goSendStatus in Hr. deliver Hser Hr.
  destruct (CreateBranch git branch) as [err|] eqn:Ebranch;
    rewrite ?Ebranch in Hr; cbv beta iota in Hr.
  { deliver Hser Hr. subst r. eexists. simpl. rewrite <- !app_assoc.
    split; [done|]. split; [by repeat constructor|].
    split; [by repeat constructor|]. done. }
  unfold applyThenPublish, goSendStatus in Hr. deliver Hser Hr. simpl in Hr.
  destruct (ApproveAndApply_description e (fs w) id cr req Hreq)
    as (req' & Hreq' & Hdesc).
  destruct (selfmod.ApproveAndApply e (fs w) id) as [[e1 fs1] [err|]] eqn:Eapply;
    rewrite ?Eapply in Hr; cbv beta iota in Hr.
  { deliver Hser Hr. subst r. eexists. simpl. rewrite <- !app_assoc.
    split; [done|]. split; [by repeat constructor|].
    split; [by repeat constructor|]. done. }
  simpl in Hreq'.
  unfold publish, goSendStatus in Hr. simpl in Hr. rewrite Hgit, Hgh in Hr.
  deliver Hser Hr. simpl in Hr. rewrite Hreq' in Hr. simpl in Hr.
  rewrite Hdesc in Hr. fold commitMsg prTitle prBody in Hr.
  destruct (CommitAll git commitMsg) as [sha [err|]] eqn:Ecommit;
    rewrite ?Ecommit in Hr; cbv beta iota in Hr.
  { deliver Hser Hr. subst r. eexists. simpl. rewrite <- !app_assoc.
    split; [done|]. split; [by repeat constructor|].
    split; [by repeat constructor|]. done. }
  destruct (Push git branch) as [err|] eqn:Epush;
    rewrite ?Epush in Hr; cbv beta iota in Hr.
  { deliver Hser Hr. subst r. eexists. simpl. rewrite <- !app_assoc.
    split; [done|]. split; [by repeat constructor|].
    split; [by repeat constructor|]. done. }
  destruct (CreatePR gh prTitle prBody branch "main") as [url|err] eqn:Epr;
    rewrite ?Epr in Hr; cbv beta iota in Hr.
  - deliver Hser Hr. subst r. eexists. simpl. rewrite <- !app_assoc.
    split; [done|]. split; [by repeat constructor|].
    split; [by repeat constructor|]. done.
  - deliver Hser Hr. subst r. eexists. simpl. rewrite <- !app_assoc.
    split; [done|]. split; [by repeat constructor|].
    split; [by repeat constructor|]. done.
Qed.
End PublishProofs.

(** The sample connection: its encoder serialises every payload, and its
    queue of 256 is open, empty and undisturbed. *)
Lemma examples_encode_serialises : live.serialises examples.encode.
Proof.
  intros type_ p. unfold Marshal, examples.encode. eexists.
  cbn [Payload json.lit String.list_ascii_of_string].
  change (json.appendCompact ["{"%char; "}"%char])
    with (Some ["{"%char; "}"%char]).
  reflexivity.
Defined.

Lemma examples_link_room (n : nat) : n <= 256 -> live.room n examples.link.
Proof.
  intros H. split; [reflexivity|]. split; [constructor|]. simpl. lia.
Defined.

(** * More of the engine *)

(** * Paths of validated changes *)

Lemma split_app_sep (a b : string) :
  filepath.split (a +:+ "/" +:+ b) = filepath.split a ++ filepath.split b.
Proof.
  induction a as [|c a IH]; [done|]. simpl.
  destruct (Ascii.eqb c "/"); [by rewrite IH|].
  rewrite IH. destruct (filepath.split a) eqn:E; [|done].
  by destruct (split_nonempty a).
Qed.

Lemma clean_step_poison (out : list string) (el : string) :
  In ".." out -> In ".." (filepath.clean_step false out el).
Proof.
  intros H. unfold filepath.clean_step.
  destruct (String.eqb el "" || String.eqb el "."); [done|].
  destruct (String.eqb el "..") eqn:E.
  - destruct out as [|last out']; [done|].
    destruct (String.eqb last "..") eqn:El; [by right|].
    destruct H as [->|H]; [done|done].
  - by right.
Qed.

Lemma fold_clean_poison (els out : list string) :
  In ".." out -> In ".." (fold_left (filepath.clean_step false) els out).
Proof.
  revert out. induction els as [|el els IH]; intros out H; [done|].
  simpl. by apply IH, clean_step_poison.
Qed.

(** One element read by the loop of [Clean] on a relative path, on top of
    a stack [base] of elements written before: unless the relative path
    climbs above its own start, both runs write the same. *)
Lemma clean_step_base (rooted : bool) (base out : list string) (el : string) :
  ~ In ".." out ->
  In ".." (filepath.clean_step false out el)
  \/ (filepath.clean_step rooted (out ++ base) el
       = filepath.clean_step false out el ++ base
      /\ ~ In ".." (filepath.clean_step false out el)).
Proof.
  intros H. unfold filepath.clean_step.
  destruct (String.eqb el "" || String.eqb el "."); [by right|].
  destruct (String.eqb el "..") eqn:E.
  - destruct out as [|last out'].
    + left. apply String.eqb_eq in E. by left.
    + simpl. destruct (String.eqb last "..") eqn:El.
      { apply String.eqb_eq in El. destruct H. by left. }
      right. split; [done|]. intros Hin. apply H. by right.
  - right. split; [done|]. intros [->|Hin]; [done|by apply H].
Qed.

Lemma fold_clean_base (rooted : bool) (base els out : list string) :
  ~ In ".." out ->
  In ".." (fold_left (filepath.clean_step false) els out)
  \/ fold_left (filepath.clean_step rooted) els (out ++ base)
     = fold_left (filepath.clean_step false) els out ++ base.
Proof.
  revert out. induction els as [|el els IH]; intros out H; [by right|].
  simpl.
  destruct (clean_step_base rooted base out el H) as [Hin|[-> Hno]].
  - left. by apply fold_clean_poison.
  - by apply IH.
Qed.

Lemma prefix_app_self (a b : string) : String.prefix a (a +:+ b) = true.
Proof.
  induction a as [|c a IH]; [apply prefix_nil|]. simpl.
  by destruct (ascii_dec c c).
Qed.

Lemma Contains_app_l (a b x : string) :
  strings.Contains a x = true -> strings.Contains (a +:+ b) x = true.
Proof.
  induction a as [|c a IH]; intros H.
  - simpl in H. rewrite orb_false_r in H. destruct x; [|done].
    apply Contains_prefix, prefix_nil.
  - cbn [strings.Contains] in H. apply orb_true_iff in H as [H|H].
    + apply Contains_prefix.
      revert H. generalize (String c a). clear. intros s.
      revert s. induction x as [|d x IH]; intros s H; [apply prefix_nil|].
      destruct s as [|e s]; [done|]. simpl in *.
      destruct (ascii_dec d e); [by apply IH|done].
    + change (String c a +:+ b) with (String c (a +:+ b)).
      by apply Contains_cons, IH.
Qed.

Lemma Contains_app_r (a b x : string) :
  strings.Contains b x = true -> strings.Contains (a +:+ b) x = true.
Proof.
  intros H. induction a as [|c a IH]; [done|].
  change (String c a +:+ b) with (String c (a +:+ b)). by apply Contains_cons.
Qed.

Lemma concat_In (sep x : string) (l : list string) :
  In x l -> strings.Contains (String.concat sep l) x = true.
Proof.
  induction l as [|y l IH]; [done|]. intros [->|H].
  - destruct l; simpl.
    + apply Contains_prefix, prefix_refl.
    + apply Contains_app_l, Contains_prefix, prefix_refl.
  - destruct l as [|z l]; [done|].
    change (String.concat sep (y :: z :: l))
      with (y +:+ sep +:+ String.concat sep (z :: l)).
    by apply Contains_app_r, Contains_app_r, IH.
Qed.

Lemma app_assoc_string (a b c : string) : (a +:+ b) +:+ c = a +:+ b +:+ c.
Proof.
  induction a as [|x a IH]; [done|].
  change (String x ((a +:+ b) +:+ c) = String x (a +:+ b +:+ c)).
  by rewrite IH.
Qed.

Lemma concat_app (sep : string) (l1 l2 : list string) :
  l1 <> [] -> l2 <> [] ->
  String.concat sep (l1 ++ l2)
  = String.concat sep l1 +:+ sep +:+ String.concat sep l2.
Proof.
  intros H1 H2. induction l1 as [|x l1 IH]; [done|].
  destruct l1 as [|y l1].
  - simpl. by destruct l2.
  - change (String.concat sep ((x :: y :: l1) ++ l2))
      with (x +:+ sep +:+ String.concat sep ((y :: l1) ++ l2)).
    rewrite IH by done.
    change (String.concat sep (x :: y :: l1))
      with (x +:+ sep +:+ String.concat sep (y :: l1)).
    by rewrite !app_assoc_string.
Qed.

(** The stack the loop of [Clean] ends with on a relative path whose
    cleaned form has no [..] holds no [..] element. *)
Lemma clean_relative_no_dotdot (path : string) :
  strings.HasPrefix path "/" = false ->
  strings.Contains (filepath.Clean path) ".." = false ->
  ~ In ".." (fold_left (filepath.clean_step false) (filepath.split path) []).
Proof.
  intros Hrel Hc Hin. destruct path as [|c t]; [by simpl in Hin|].
  unfold filepath.Clean in Hc.
  assert (Ascii.eqb c "/" = false) as Hr.
  { unfold strings.HasPrefix in Hrel. simpl in Hrel.
    destruct (ascii_dec "/" c) as [<-|Hne].
    - by rewrite prefix_nil in Hrel.
    - apply Ascii.eqb_neq. congruence. }
  rewrite Hr in Hc. cbv zeta in Hc.
  assert (strings.Contains
            (strings.Join
               (rev (fold_left (filepath.clean_step false)
                       (filepath.split (String c t)) [])) "/") ".." = true) as H.
  { apply concat_In. by apply in_rev in Hin. }
  destruct (String.eqb _ "") eqn:E.
  - apply String.eqb_eq in E. rewrite E in H. done.
  - congruence.
Qed.

(** X1. A change that [validateChange] accepts and whose path is
    relative stays inside the repository: the path [ApproveAndApply] and
    [generateDiffs] build for it with [filepath.Join] is the cleaned
    repository path itself or lies below it. *)
Theorem validated_relative_path_stays_in_repo
    (repo : string) (change : FileChange) :
  validateChange change = None ->
  strings.HasPrefix (Path change) "/" = false ->
  repo <> "" ->
  filepath.Clean repo <> "/" ->
  filepath.Clean repo <> "." ->
  let fullPath := filepath.Join repo (Path change) in
  fullPath = filepath.Clean repo
  \/ strings.HasPrefix fullPath (filepath.Clean repo +:+ "/") = true.
Proof.
  intros Hv Hrel Hrepo Hroot Hdot fullPath.
  assert (strings.Contains (filepath.Clean (Path change)) ".." = false) as Hc.
  { unfold validateChange in Hv. destruct (existsb _ _); [done|].
    by destruct (strings.Contains _ _). }
  pose proof (clean_relative_no_dotdot _ Hrel Hc) as Hout.
  destruct repo as [|c r]; [done|].
  unfold fullPath, filepath.Join. simpl negb. cbv iota.
  change (String c r +:+ "/" +:+ Path change)
    with (String c (r +:+ "/" +:+ Path change)).
  unfold filepath.Clean in *.
  change (String c (r +:+ "/" +:+ Path change))
    with (String c r +:+ "/" +:+ Path change).
  rewrite split_app_sep, fold_left_app.
  set (base := fold_left (filepath.clean_step (Ascii.eqb c "/"))
                 (filepath.split (String c r)) []) in *.
  set (out := fold_left (filepath.clean_step false)
                (filepath.split (Path change)) []) in *.
  destruct (fold_clean_base (Ascii.eqb c "/") base (filepath.split (Path change)) [])
    as [Hin|Heq]; [by intros [] | by destruct Hout |].
  simpl in Heq. fold out in Heq. rewrite Heq. cbv zeta in *.
  assert (base <> []) as Hbase.
  { intros E. rewrite E in Hroot, Hdot. simpl in Hroot, Hdot.
    by destruct (Ascii.eqb c "/"). }
  assert (rev base <> []) as Hrev.
  { intros E. apply Hbase. by rewrite <- (rev_involutive base), E. }
  rewrite rev_app_distr. unfold strings.Join in *.
  destruct (decide (out = [])) as [->|Hne].
  - left. simpl. by rewrite app_nil_r.
  - right. assert (rev out <> []) as Hrev'.
    { intros E. apply Hne. by rewrite <- (rev_involutive out), E. }
    rewrite concat_app by done.
    set (body := String.concat "/" (rev base)) in *.
    set (rest := String.concat "/" (rev out)).
    unfold strings.HasPrefix.
    destruct (Ascii.eqb c "/").
    + change ("/" +:+ body +:+ "/" +:+ rest)
        with (String "/" (body +:+ "/" +:+ rest)).
      change (("/" +:+ body) +:+ "/") with (String "/" (body +:+ "/")).
      simpl. rewrite <- app_assoc_string. apply prefix_app_self.
    + destruct (String.eqb body "") eqn:E; [done|].
      assert (String.eqb (body +:+ "/" +:+ rest) "" = false) as ->.
      { destruct body; [done|done]. }
      rewrite <- app_assoc_string. apply prefix_app_self.
Qed.

(** * Generation *)

Lemma validateChanges_None (changes : list FileChange) :
  validateChanges changes = None ->
  Forall (fun change => validateChange change = None) changes.
Proof.
  induction changes as [|c cs IH]; intros H; [constructor|].
  simpl in H. destruct (validateChange c) eqn:E; [done|].
  constructor; [done | by apply IH].
Qed.

Section GenerationProofs.
Variable TrimSpace : string -> string.
Variable Unmarshal : string -> option llmResp.
Variable patchText : string -> string -> string.

Lemma generateDiffs_paths (repo : string) (fs : os.FS)
    (changes : list FileChange) (diffs : list FileDiff) :
  generateDiffs patchText repo fs changes = inl diffs ->
  map DiffPath diffs = map Path changes.
Proof.
  revert diffs. induction changes as [|c cs IH]; intros diffs H; simpl in H.
  - by injection H as <-.
  - destruct (if String.eqb (Action c) "modify" || String.eqb (Action c) "delete"
              then _ else _) as [old|err]; [|done].
    destruct (generateDiffs patchText repo fs cs) as [ds|err]; [|done].
    injection H as <-. simpl. by rewrite (IH ds).
Qed.

Lemma GenerateChanges_inv e fs io llm req e' p :
  GenerateChanges TrimSpace Unmarshal patchText e fs io llm req = (e', inl p) ->
  exists resp diffs,
    validateChanges (RespChanges resp) = None
    /\ generateDiffs patchText (repoPath e) fs (RespChanges resp) = inl diffs
    /\ p = length (store e)
    /\ e' = mkEngine (repoPath e)
              (store e ++ [mkCR (newUUID io) (RespDescription resp)
                             (RespChanges resp) diffs "pending" (now io)])
              (<[newUUID io := p]> (requests e)) (history e ++ [p]).
Proof.
  unfold selfmod.GenerateChanges. intros H.
  repeat match type of H with
         | match ?x with _ => _ end = _ => destruct x eqn:?
         | (let '(_, _) := ?x in _) = _ => destruct x eqn:?
         end; simplify_eq.
  unfold new in *. simplify_eq. eauto 10.
Qed.

(** X2. [generateDiffs] gives one diff per change, in the order of the
    changes and under the path of each; it fails only on a change that
    modifies or deletes a file which exists and cannot be read, with the
    read error of that file. A file that does not exist is diffed as an
    empty one. *)
Theorem generateDiffs_one_per_change
    (repo : string) (fs : os.FS) (changes : list FileChange) :
  match generateDiffs patchText repo fs changes with
  | inl diffs => map DiffPath diffs = map Path changes
  | inr err =>
      exists change,
        In change changes
        /\ (Action change = "modify" \/ Action change = "delete")
        /\ os.ReadFile fs (filepath.Join repo (Path change)) = inr os.ErrIO
        /\ err = ErrReadFile (Path change) os.ErrIO
  end.
Proof.
  destruct (generateDiffs patchText repo fs changes) as [diffs|err] eqn:E.
  { by eapply generateDiffs_paths. }
  revert err E. induction changes as [|c cs IH]; intros err E; [done|].
  simpl in E.
  destruct (String.eqb (Action c) "modify" || String.eqb (Action c) "delete")
    eqn:Ea.
  - destruct (os.ReadFile fs (filepath.Join repo (Path c))) as [data|[]] eqn:Er;
      simpl in E.
    + destruct (generateDiffs patchText repo fs cs) as [ds|err']; [done|].
      destruct (IH err' eq_refl) as (c' & Hin & H). injection E as <-.
      exists c'. split; [by right | done].
    + destruct (generateDiffs patchText repo fs cs) as [ds|err']; [done|].
      destruct (IH err' eq_refl) as (c' & Hin & H). injection E as <-.
      exists c'. split; [by right | done].
    + injection E as <-. exists c. split; [by left|].
      split; [|done].
      apply orb_true_iff in Ea as [Ea|Ea]; apply String.eqb_eq in Ea; auto.
  - destruct (generateDiffs patchText repo fs cs) as [ds|err']; [done|].
    destruct (IH err' eq_refl) as (c' & Hin & H). injection E as <-.
    exists c'. split; [by right | done].
Qed.

(** X3. Every failure of [GenerateChanges], at whichever of its five
    steps, leaves the engine as it was; the sample of the answer that a
    decoding error carries is at most 203 bytes long. *)
Theorem generate_failure_is_atomic
    (e : Engine) (fs : os.FS) (io : GenIO) (llm : provider.LLMProvider)
    (userRequest : string) (e' : Engine) (err : selfmod.error) :
  GenerateChanges TrimSpace Unmarshal patchText e fs io llm userRequest
  = (e', inr err) ->
  e' = e
  /\ forall sample, err = ErrParseResponse sample ->
       String.length sample <= 203.
Proof.
  intros H. split; [by eapply GenerateChanges_error_unchanged|].
  assert (forall n s, String.length (strings.upto n s) <= n) as Hup.
  { induction n as [|n IHn]; intros [|c s]; simpl; try lia.
    specialize (IHn s). lia. }
  assert (forall a b, String.length (a +:+ b)
                      = String.length a + String.length b) as Hlen.
  { induction a as [|c a IHa]; intros b; [done|].
    change (String c a +:+ b) with (String c (a +:+ b)). simpl.
    by rewrite IHa. }
  assert (forall s, String.length (truncate s 200) <= 203) as Htr.
  { intros s. unfold truncate.
    destruct (Nat.leb_spec (String.length s) 200) as [Hle|Hgt]; [lia|].
    rewrite Hlen. specialize (Hup 200 s).
    change (String.length "...") with 3. lia. }
  unfold selfmod.GenerateChanges in H.
  repeat match type of H with
         | match ?x with _ => _ end = _ => destruct x eqn:?
         | (let '(_, _) := ?x in _) = _ => destruct x eqn:?
         end; simplify_eq; intros sample Hs;
    try discriminate Hs; try (injection Hs as <-; apply Htr).
  subst.
  match goal with
  | Hv : validateChanges ?cs = Some _ |- _ =>
      exfalso; revert Hv; generalize cs; intros cs';
      induction cs' as [|c cs' IH]; simpl; [done|];
      destruct (validateChange c); [done | exact IH]
  end.
Qed.

(** X4. A successful [GenerateChanges] stores a request that passed
    every check: it is pending, it carries the identifier drawn for it
    and is found under it, each of its changes is accepted by
    [validateChange], and it has one diff per change under the path of
    that change. *)
Theorem generate_stores_validated_request
    (e : Engine) (fs : os.FS) (io : GenIO) (llm : provider.LLMProvider)
    (userRequest : string) (e' : Engine) (p : ptr) :
  GenerateChanges TrimSpace Unmarshal patchText e fs io llm userRequest
  = (e', inl p) ->
  exists cr,
    deref e' p = Some cr
    /\ GetRequest e' (newUUID io) = Some p
    /\ selfmod.ID cr = newUUID io
    /\ Status cr = "pending"
    /\ CreatedAt cr = now io
    /\ Forall (fun change => validateChange change = None) (Changes cr)
    /\ map DiffPath (Diffs cr) = map Path (Changes cr)
    /\ length (History e') = S (length (History e)).
Proof.
  intros H. apply GenerateChanges_inv in H
    as (resp & diffs & Hv & Hd & -> & ->).
  eexists. unfold deref, GetRequest. simpl.
  rewrite lookup_app_r by done. rewrite Nat.sub_diag. simpl.
  split; [done|]. rewrite lookup_insert_eq. repeat split; try done.
  - by apply validateChanges_None.
  - by eapply generateDiffs_paths.
  - unfold History. simpl. rewrite length_app. simpl. lia.
Qed.

(** * Invariants of the engine *)

Lemma setStatus_length st p status :
  length (setStatus st p status) = length st.
Proof.
  unfold setStatus. destruct (st !! p); [|done]. by rewrite length_insert.
Qed.

Lemma setStatus_lookup_inv st p status q cr' :
  setStatus st p status !! q = Some cr' ->
  exists cr, st !! q = Some cr /\ sameButStatus cr cr'
             /\ (Status cr' = Status cr \/ Status cr' = status).
Proof.
  unfold setStatus. destruct (st !! p) as [c|] eqn:E.
  - destruct (decide (p = q)) as [->|Hne].
    + rewrite list_lookup_insert_eq by by eapply lookup_lt_Some.
      intros [= <-]. exists c. split; [done|]. split; [by repeat split|].
      by right.
    + rewrite list_lookup_insert_ne by done. intros H. exists cr'.
      split; [done|]. split; [by repeat split | by left].
  - intros H. exists cr'. split; [done|]. split; [by repeat split | by left].
Qed.

Lemma setStatus_lookup_Some st p status q cr :
  st !! q = Some cr ->
  exists cr', setStatus st p status !! q = Some cr' /\ selfmod.ID cr' = selfmod.ID cr.
Proof.
  intros H. unfold setStatus. destruct (st !! p) as [c|] eqn:E; [|eauto].
  destruct (decide (p = q)) as [->|Hne].
  - rewrite list_lookup_insert_eq by by eapply lookup_lt_Some.
    eexists. split; [done|]. simpl.
    assert (Some c = Some cr) as [= ->]; [|done].
    etrans; [symmetry; exact E | exact H].
  - rewrite list_lookup_insert_ne by done. eauto.
Qed.

(** What [ApproveAndApply] and [Reject] can do to the engine. *)
Lemma ApproveAndApply_engine (e : Engine) (fs : os.FS) (id : string) :
  (ApproveAndApply e fs id).1.1 = e
  \/ exists p, (ApproveAndApply e fs id).1.1
               = withStore e (setStatus (store e) p "approved").
Proof.
  unfold ApproveAndApply. destruct (requests e !! id) as [p|]; [|by left].
  destruct (store e !! p); [|by left]. destruct (negb _); [by left|].
  destruct (applyChanges _ _ _) as [fs' [err|]]; [by left|]. right. eauto.
Qed.

Lemma Reject_engine (e : Engine) (id : string) :
  (Reject e id).1 = e
  \/ exists p, (Reject e id).1 = withStore e (setStatus (store e) p "rejected").
Proof.
  unfold Reject. destruct (requests e !! id) as [p|]; [|by left].
  destruct (store e !! p); [|by left]. right. eauto.
Qed.

Lemma wellFormed_setStatus e p status :
  runs.wellFormed e -> runs.wellFormed (withStore e (setStatus (store e) p status)).
Proof.
  intros [Hh Hr]. split; simpl.
  - by rewrite setStatus_length.
  - intros id q Hq. destruct (Hr id q Hq) as (cr & Hcr & Hid).
    destruct (setStatus_lookup_Some (store e) p status q cr Hcr)
      as (cr' & Hcr' & Hid').
    exists cr'. split; [done | congruence].
Qed.

Lemma reachable_wellFormed (e : Engine) :
  runs.reachable TrimSpace Unmarshal patchText e -> runs.wellFormed e.
Proof.
  induction 1 as [repo|e fs io llm req _ IH|e fs id _ IH|e id _ IH].
  - split; [done|]. intros id p H. simpl in H. by rewrite lookup_empty in H.
  - destruct (GenerateChanges TrimSpace Unmarshal patchText e fs io llm req)
      as [e' [p|err]] eqn:E; simpl.
    + apply GenerateChanges_inv in E as (resp & diffs & _ & _ & -> & ->).
      destruct IH as [Hh Hr]. split; simpl.
      * rewrite Hh, length_app. simpl. rewrite Nat.add_1_r, seq_S. done.
      * intros id q Hq. destruct (decide (id = newUUID io)) as [->|Hne].
        -- rewrite lookup_insert_eq in Hq. injection Hq as <-.
           rewrite lookup_app_r by done. rewrite Nat.sub_diag. simpl. eauto.
        -- rewrite lookup_insert_ne in Hq by done.
           destruct (Hr id q Hq) as (cr & Hcr & Hid). exists cr.
           split; [|done]. apply lookup_app_l_Some. done.
    + apply GenerateChanges_error_unchanged in E. by subst.
  - destruct (ApproveAndApply_engine e fs id) as [->|[p ->]]; [done|].
    by apply wellFormed_setStatus.
  - destruct (Reject_engine e id) as [->|[p ->]]; [done|].
    by apply wellFormed_setStatus.
Qed.

(** X5. In every engine a server can reach, the history lists the
    requests in the order of their creation, one entry per request ever
    stored, and every identifier of the request table leads to a stored
    request that carries this identifier. So [ApproveAndApply] and
    [Reject] never follow a pointer to nothing. *)
Theorem reachable_engine_is_well_formed (e : Engine) :
  runs.reachable TrimSpace Unmarshal patchText e ->
  History e = seq 0 (length (store e))
  /\ (forall id p, GetRequest e id = Some p ->
        exists cr, deref e p = Some cr /\ selfmod.ID cr = id)
  /\ (forall fs id,
        (ApproveAndApply e fs id).2 <> Some PanicNilDereference
        /\ (Reject e id).2 <> Some PanicNilDereference).
Proof.
  intros H. destruct (reachable_wellFormed e H) as [Hh Hr].
  split; [done|]. split; [done|]. intros fs id.
  unfold ApproveAndApply, Reject.
  destruct (requests e !! id) as [p|] eqn:E; [|done].
  destruct (Hr id p E) as (cr & -> & _). split; [|done].
  destruct (negb _); [done|].
  destruct (applyChanges _ _ _) as [fs' [err|]] eqn:Ea; [|done]. simpl.
  intros [= ->]. revert fs fs' Ea. generalize (Changes cr). intros cs.
  induction cs as [|c cs IH]; intros fs fs' Ea; [done|]. simpl in Ea.
  destruct (applyChange (repoPath e) fs c) as [fs1 [err|]] eqn:Ec.
  - injection Ea as <- ->. unfold applyChange in Ec.
    repeat match type of Ec with
           | match ?x with _ => _ end = _ => destruct x eqn:?
           | (if ?x then _ else _) = _ => destruct x eqn:?
           end; simplify_eq.
  - by eapply IH.
Qed.

Lemma checked_setStatus st p status :
  In status runs.statusValues ->
  Forall runs.checked st -> Forall runs.checked (setStatus st p status).
Proof.
  intros Hs Hst. apply Forall_lookup_2. intros q cr' Hq.
  apply setStatus_lookup_inv in Hq
    as (cr & Hcr & (_ & _ & Hc & Hd & _) & Hstat).
  destruct (Forall_lookup_1 _ _ _ _ Hst Hcr) as (H1 & H2 & H3).
  split; [|split].
  - destruct Hstat as [->| ->]; done.
  - by rewrite Hc.
  - by rewrite Hc, Hd.
Qed.

(** X6. In every engine a server can reach, each stored request has one
    of the statuses pending, approved and rejected, holds only changes
    that [validateChange] accepts, and has one diff per change. The
    changes [ApproveAndApply] writes are therefore validated ones. *)
Theorem reachable_requests_are_checked (e : Engine) (p : ptr)
    (cr : ChangeRequest) :
  runs.reachable TrimSpace Unmarshal patchText e ->
  deref e p = Some cr ->
  In (Status cr) ["pending"; "approved"; "rejected"]
  /\ Forall (fun change => validateChange change = None) (Changes cr)
  /\ map DiffPath (Diffs cr) = map Path (Changes cr).
Proof.
  intros H Hp. cut (Forall runs.checked (store e)).
  { intros Hall. exact (Forall_lookup_1 _ _ _ _ Hall Hp). }
  clear p cr Hp.
  induction H as [repo|e fs io llm req _ IH|e fs id _ IH|e id _ IH].
  - constructor.
  - destruct (GenerateChanges TrimSpace Unmarshal patchText e fs io llm req)
      as [e' [p|err]] eqn:E; simpl.
    + apply GenerateChanges_inv in E as (resp & diffs & Hv & Hd & -> & ->).
      simpl. apply Forall_app. split; [done|]. constructor; [|constructor].
      split; [simpl; auto|]. split; simpl.
      * by apply validateChanges_None.
      * by eapply generateDiffs_paths.
    + apply GenerateChanges_error_unchanged in E. by subst.
  - destruct (ApproveAndApply_engine e fs id) as [->|[p ->]]; [done|].
    simpl. apply checked_setStatus; [simpl; auto | done].
  - destruct (Reject_engine e id) as [->|[p ->]]; [done|].
    simpl. apply checked_setStatus; [simpl; auto | done].
Qed.

End GenerationProofs.

(** * Approval *)

(** X7. A request that was approved, or rejected, is not applied
    afterwards: [ApproveAndApply] on it fails with the not-pending error
    that names its status, and leaves the engine and the working tree as
    they are. *)
Theorem decided_request_is_not_applied
    (e e1 : Engine) (fs0 fs1 fs : os.FS) (id status : string) :
  (ApproveAndApply e fs0 id = (e1, fs1, None) /\ status = "approved")
  \/ (Reject e id = (e1, None) /\ status = "rejected") ->
  ApproveAndApply e1 fs id = (e1, fs, Some (ErrNotPending status)).
Proof.
  intros [[H ->]|[H ->]].
  - unfold ApproveAndApply in H.
    destruct (requests e !! id) as [p|] eqn:Hp; [|done].
    destruct (store e !! p) as [cr|] eqn:Hcr; [|done].
    destruct (negb _); [done|].
    destruct (applyChanges _ _ _) as [fs' [err|]]; [done|].
    injection H as <- <-.
    pose proof (setStatus_lookup (store e) p "approved" cr Hcr) as Hs.
    by apply (ApproveAndApply_not_pending
                (withStore e (setStatus (store e) p "approved")) fs id p _
                Hp Hs).
  - unfold Reject in H.
    destruct (requests e !! id) as [p|] eqn:Hp; [|done].
    destruct (store e !! p) as [cr|] eqn:Hcr; [|done].
    injection H as <-.
    pose proof (setStatus_lookup (store e) p "rejected" cr Hcr) as Hs.
    by apply (ApproveAndApply_not_pending
                (withStore e (setStatus (store e) p "rejected")) fs id p _
                Hp Hs).
Qed.

Lemma applyChange_on_disk (repo : string) (fs fs' : os.FS)
    (change : FileChange) :
  applyChange repo fs change = (fs', None) ->
  (Action change = "create" \/ Action change = "modify" ->
     os.ReadFile fs' (filepath.Join repo (Path change))
     = inl (NewContent change))
  /\ (Action change = "delete" ->
        os.ReadFile fs' (filepath.Join repo (Path change))
        = inr os.ErrNotExist).
Proof.
  unfold applyChange, os.MkdirAll, os.WriteFile, os.Remove, os.ReadFile.
  intros H. split.
  - intros Ha.
    assert (String.eqb (Action change) "create"
            || String.eqb (Action change) "modify" = true) as Hb.
    { destruct Ha as [-> | ->]; done. }
    rewrite Hb in H.
    destruct (bool_decide (filepath.Dir _ ∈ _)); [done|].
    destruct (bool_decide (filepath.Join repo (Path change) ∈ os.faulty fs))
      eqn:Ef; [done|].
    injection H as <-. simpl. rewrite Ef. by rewrite lookup_insert_eq.
  - intros Ha. rewrite Ha in H. simpl in H.
    destruct (bool_decide (filepath.Join repo (Path change) ∈ os.faulty fs))
      eqn:Ef; [done|].
    destruct (os.files fs !! filepath.Join repo (Path change)) eqn:El.
    + injection H as <-. simpl. rewrite Ef. by rewrite lookup_delete_eq.
    + injection H as <-. by rewrite Ef, El.
Qed.

(** X8. When [ApproveAndApply]'s loop over the changes ends without an
    error, the last change is on disk: the file of a create or modify
    change reads back as its new content, and the file of a delete change
    does not exist, whether it existed before or not. *)
Theorem applied_change_is_on_disk
    (repo : string) (fs fs' : os.FS) (changes : list FileChange)
    (change : FileChange) :
  applyChanges repo (changes ++ [change]) fs = (fs', None) ->
  (Action change = "create" \/ Action change = "modify" ->
     os.ReadFile fs' (filepath.Join repo (Path change))
     = inl (NewContent change))
  /\ (Action change = "delete" ->
        os.ReadFile fs' (filepath.Join repo (Path change))
        = inr os.ErrNotExist).
Proof.
  rewrite applyChanges_app.
  destruct (applyChanges repo changes fs) as [fs1 [err|]]; [done|].
  simpl. destruct (applyChange repo fs1 change) as [fs2 [err|]] eqn:E; [done|].
  intros [= <-]. exact (applyChange_on_disk _ _ _ _ E).
Qed.

(** * The answer of the model *)

Lemma prefix_upto (x s : string) (n : nat) :
  String.prefix x (strings.upto n s) = true -> String.prefix x s = true.
Proof.
  revert s n. induction x as [|c x IH]; intros s n H; [apply prefix_nil|].
  destruct n as [|n], s as [|d s]; simpl in *; try done.
  destruct (ascii_dec c d); [by eapply IH | done].
Qed.

Lemma Index_None (s x : string) :
  strings.Index s x = None -> strings.Contains s x = false.
Proof.
  induction s as [|c s IH]; cbn [strings.Index strings.Contains].
  - by destruct (String.prefix x "").
  - destruct (String.prefix x (String c s)); [done|].
    destruct (strings.Index s x); [done|]. intros _. by apply IH.
Qed.

Lemma Index_upto (s x : string) (n : nat) :
  x <> "" -> strings.Index s x = Some n ->
  strings.Contains (strings.upto n s) x = false.
Proof.
  intros Hx. revert n.
  induction s as [|c s IH]; intros n; cbn [strings.Index].
  - destruct (String.prefix x "") eqn:Ep; [|done].
    intros [= <-]. by destruct x.
  - destruct (String.prefix x (String c s)) eqn:Ep.
    + intros [= <-]. by destruct x.
    + destruct (strings.Index s x) as [m|] eqn:Ei; [|done].
      intros [= <-]. cbn [strings.upto strings.Contains].
      rewrite (IH m eq_refl), orb_false_r.
      destruct (String.prefix x (String c (strings.upto m s))) eqn:Ep'; [|done].
      apply (prefix_upto x (String c s) (S m)) in Ep'. congruence.
Qed.

(** X9. What [extractJSON] cuts out of an answer with a code fence
    holds no fence: the text after the opening fence ends where the next
    fence begins, and is the whole rest when there is none. *)
Theorem extracted_text_has_no_fence (s fence r : string) :
  extractFence s fence = Some r ->
  strings.Contains r "```" = false.
Proof.
  unfold extractFence. destruct (strings.Index s fence) as [idx|]; [|done].
  destruct (strings.Index _ "```") as [end_|] eqn:E.
  - intros [= <-]. by eapply Index_upto.
  - intros [= <-]. by apply Index_None.
Qed.

(** * Paths that leave the repository *)

Lemma split_plain (name : string) :
  strings.Contains name "/" = false -> filepath.split name = [name].
Proof.
  induction name as [|c name IH]; [done|]. intros H.
  cbn [strings.Contains] in H. apply orb_false_iff in H as [Hp Hc].
  simpl. destruct (Ascii.eqb_spec c "/") as [->|Hne].
  - simpl in Hp. by rewrite prefix_nil in Hp.
  - by rewrite IH.
Qed.

(** X10. Validation does not keep a rooted path inside the repository.
    A path that begins with a separator and climbs with [..] is cleaned
    against the root, so the cleaned path shows no [..], while
    [filepath.Join] resolves the same elements against the repository
    path: for the default repository path of the configuration, a change
    to [/../../name] is accepted, and [ApproveAndApply] would write the
    file [/name]. *)
Theorem rooted_path_leaves_repo (name action content : string) :
  name <> "" ->
  name <> "." ->
  strings.Contains name "/" = false ->
  strings.Contains name ".." = false ->
  In action ["create"; "modify"; "delete"] ->
  (Z.of_nat (String.length content) <= 1048576)%Z ->
  let change := mkChange ("/../../" +:+ name) action content in
  validateChange change = None
  /\ filepath.Join "/tmp/flyagi-repo" (Path change) = "/" +:+ name.
Proof.
  intros Hne Hdot Hsep Hdd Hact Hlen change.
  assert (name <> "..") as Hne2.
  { intros ->. done. }
  assert (filepath.clean_step true [] name = [name]) as Hstep.
  { unfold filepath.clean_step.
    rewrite (String_eqb_false name "") by done.
    rewrite (String_eqb_false name ".") by done.
    by rewrite (String_eqb_false name "..") by done. }
  assert (filepath.Clean ("/../../" +:+ name) = "/" +:+ name) as Hclean.
  { unfold filepath.Clean.
    change ("/../../" +:+ name) with (String "/" ("../../" +:+ name)).
    cbv iota beta zeta.
    change (String "/" ("../../" +:+ name))
      with ("" +:+ "/" +:+ ".." +:+ "/" +:+ ".." +:+ "/" +:+ name).
    rewrite !split_app_sep, (split_plain name) by done.
    change (Ascii.eqb "/" "/") with true. cbv iota.
    change (fold_left (filepath.clean_step true)
              (filepath.split "" ++ filepath.split ".." ++ filepath.split ".."
               ++ [name]) [])
      with (filepath.clean_step true [] name).
    by rewrite Hstep. }
  split.
  - unfold validateChange, change. cbn [Path Action NewContent]. cbv zeta.
    rewrite Hclean.
    assert (existsb (fun protected => strings.HasPrefix ("/" +:+ name) protected)
              protectedPaths = false) as ->.
    { done. }
    assert (strings.Contains ("/" +:+ name) ".." = false) as ->.
    { change ("/" +:+ name) with (String "/" name).
      cbn [strings.Contains]. by rewrite Hdd. }
    assert (String.eqb action "create" || String.eqb action "modify"
            || String.eqb action "delete" = true) as ->.
    { destruct Hact as [<-|[<-|[<-|[]]]]; done. }
    simpl negb. cbv iota.
    change (Z.shiftl 1 20) with 1048576%Z.
    destruct (Z.ltb_spec 1048576 (Z.of_nat (String.length content)));
      [lia | done].
  - unfold change. cbn [Path]. unfold filepath.Join. simpl negb. cbv iota.
    unfold filepath.Clean.
    change ("/tmp/flyagi-repo" +:+ "/" +:+ "/../../" +:+ name)
      with (String "/" ("tmp/flyagi-repo" +:+ "/" +:+ "/../../" +:+ name)).
    cbv iota beta zeta.
    change (String "/" ("tmp/flyagi-repo" +:+ "/" +:+ "/../../" +:+ name))
      with ("/tmp/flyagi-repo" +:+ "/" +:+ "" +:+ "/" +:+ ".." +:+ "/" +:+ ".."
            +:+ "/" +:+ name).
    rewrite !split_app_sep, (split_plain name) by done.
    change (Ascii.eqb "/" "/") with true. cbv iota.
    change (fold_left (filepath.clean_step true)
              (filepath.split "/tmp/flyagi-repo" ++ filepath.split ""
               ++ filepath.split ".." ++ filepath.split ".." ++ [name]) [])
      with (filepath.clean_step true [] name).
    by rewrite Hstep.
Qed.

(** * The engine extras on the examples *)

Lemma validated_relative_path_stays_in_repo_witness :
  validateChange examples.change0 = None
  /\ filepath.Join "/repo" (Path examples.change0) = "/repo/src/x.go"
  /\ (filepath.Join "/repo" (Path examples.change0) = filepath.Clean "/repo"
      \/ strings.HasPrefix (filepath.Join "/repo" (Path examples.change0))
           (filepath.Clean "/repo" +:+ "/") = true).
Proof.
  split; [vm_compute; reflexivity|]. split; [vm_compute; reflexivity|].
  apply (validated_relative_path_stays_in_repo "/repo" examples.change0).
  - vm_compute. reflexivity.
  - vm_compute. reflexivity.
  - discriminate.
  - vm_compute. discriminate.
  - vm_compute. discriminate.
Defined.

Lemma generate_failure_is_atomic_witness :
  GenerateChanges examples.trim examples.decode examples.patch
    examples.engine0 examples.fs0 examples.io examples.llmBad "change it"
  = (examples.engine0,
     inr (ErrParseResponse
            (examples.jsonAnswer "Modify Dockerfile" examples.badChange)))
  /\ String.length (examples.jsonAnswer "Modify Dockerfile" examples.badChange)
     <= 203.
Proof.
  assert (GenerateChanges examples.trim examples.decode examples.patch
            examples.engine0 examples.fs0 examples.io examples.llmBad
            "change it"
          = (examples.engine0,
             inr (ErrParseResponse
                    (examples.jsonAnswer "Modify Dockerfile"
                       examples.badChange)))) as H
    by (vm_compute; reflexivity).
  split; [exact H|].
  destruct (generate_failure_is_atomic _ _ _ _ _ _ _ _ _ _ H) as [_ Hs].
  exact (Hs _ eq_refl).
Defined.

Lemma generate_stores_validated_request_witness :
  GenerateChanges examples.trim examples.decode examples.patch
    (NewEngine "/repo") examples.fs0 examples.io examples.llm
    "please add a module X"
  = (examples.engine0, inl 0)
  /\ exists cr, deref examples.engine0 0 = Some cr
                /\ Status cr = "pending"
                /\ map DiffPath (Diffs cr) = map Path (Changes cr).
Proof.
  assert (GenerateChanges examples.trim examples.decode examples.patch
            (NewEngine "/repo") examples.fs0 examples.io examples.llm
            "please add a module X"
          = (examples.engine0, inl 0)) as Hgen by (vm_compute; reflexivity).
  split; [exact Hgen|].
  destruct (generate_stores_validated_request _ _ _ _ _ _ _ _ _ _ Hgen)
    as (cr & Hd & _ & _ & Hst & _ & _ & Hp & _).
  exists cr. split; [exact Hd|]. split; [exact Hst | exact Hp].
Defined.

Lemma examples_engine0_reachable :
  runs.reachable examples.trim examples.decode examples.patch examples.engine0.
Proof.
  exact (runs.reach_generate examples.trim examples.decode examples.patch
           (NewEngine "/repo") examples.fs0 examples.io examples.llm
           "please add a module X"
           (runs.reach_new _ _ _ "/repo")).
Defined.

Lemma reachable_engine_is_well_formed_witness :
  runs.reachable examples.trim examples.decode examples.patch examples.engine0
  /\ History examples.engine0 = [0]
  /\ (ApproveAndApply examples.engine0 examples.fsLocked examples.id0).2
     <> Some PanicNilDereference.
Proof.
  split; [exact examples_engine0_reachable|].
  destruct (reachable_engine_is_well_formed _ _ _ _ examples_engine0_reachable)
    as (Hh & _ & Hp).
  split; [exact Hh|]. exact (proj1 (Hp examples.fsLocked examples.id0)).
Defined.

Lemma reachable_requests_are_checked_witness :
  runs.reachable examples.trim examples.decode examples.patch examples.engine0
  /\ deref examples.engine0 0 = Some examples.cr0
  /\ Forall (fun change => validateChange change = None)
       (Changes examples.cr0).
Proof.
  split; [exact examples_engine0_reachable|]. split; [reflexivity|].
  destruct (reachable_requests_are_checked _ _ _ _ 0 examples.cr0
              examples_engine0_reachable eq_refl) as (_ & Hv & _).
  exact Hv.
Defined.

Lemma decided_request_is_not_applied_witness :
  Reject examples.engine0 examples.id0
  = ((Reject examples.engine0 examples.id0).1, None)
  /\ ApproveAndApply (Reject examples.engine0 examples.id0).1 examples.fs0
       examples.id0
     = ((Reject examples.engine0 examples.id0).1, examples.fs0,
        Some (ErrNotPending "rejected")).
Proof.
  assert (Reject examples.engine0 examples.id0
          = ((Reject examples.engine0 examples.id0).1, None)) as H
    by reflexivity.
  split; [exact H|].
  exact (decided_request_is_not_applied examples.engine0 _ examples.fs0
           examples.fs0 examples.fs0 examples.id0 "rejected"
           (or_intror (conj H eq_refl))).
Defined.

Lemma applied_change_is_on_disk_witness :
  (applyChanges "/repo"
     ([examples.change0] ++ [mkChange "src/x.go" "delete" ""])
     examples.fs0).2 = None
  /\ os.ReadFile
       (applyChanges "/repo"
          ([examples.change0] ++ [mkChange "src/x.go" "delete" ""])
          examples.fs0).1
       (filepath.Join "/repo" "src/x.go")
     = inr os.ErrNotExist.
Proof.
  assert ((applyChanges "/repo"
             ([examples.change0] ++ [mkChange "src/x.go" "delete" ""])
             examples.fs0).2 = None) as H by (vm_compute; reflexivity).
  split; [exact H|].
  destruct (applyChanges "/repo"
              ([examples.change0] ++ [mkChange "src/x.go" "delete" ""])
              examples.fs0) as [fs' r] eqn:E.
  simpl in H. subst r.
  exact (proj2 (applied_change_is_on_disk "/repo" examples.fs0 fs'
                  [examples.change0] (mkChange "src/x.go" "delete" "") E)
           eq_refl).
Defined.

Lemma extracted_text_has_no_fence_witness :
  extractFence "Here it is: ```json{}``` as asked" "```json" = Some "{}"
  /\ strings.Contains "{}" "```" = false.
Proof.
  assert (extractFence "Here it is: ```json{}``` as asked" "```json"
          = Some "{}") as H by (vm_compute; reflexivity).
  split; [exact H|].
  exact (extracted_text_has_no_fence _ _ _ H).
Defined.

Lemma rooted_path_leaves_repo_witness :
  validateChange (mkChange "/../../crontab" "create" "* * * * * id") = None
  /\ filepath.Join "/tmp/flyagi-repo" "/../../crontab" = "/crontab".
Proof.
  apply (rooted_path_leaves_repo "crontab" "create" "* * * * * id").
  - discriminate.
  - discriminate.
  - vm_compute. reflexivity.
  - vm_compute. reflexivity.
  - simpl. auto.
  - vm_compute. discriminate.
Defined.

(** * More of the hub and of the session handler *)

(** * The hub *)

(** X11. [unregister] closes the queue of a client once: it removes a
    registered client and closes its queue, a second call finds no entry
    and does nothing, and the other clients stay registered. *)
Theorem unregister_closes_once (h : Hub) (c : Client) :
  unregister (unregister h c).1 (unregister h c).2 = unregister h c
  /\ clients (unregister h c).1 !! ID c = None
  /\ closed (send (unregister h c).2)
     = closed (send c) || bool_decide (is_Some (clients h !! ID c))
  /\ forall id, id <> ID c ->
       clients (unregister h c).1 !! id = clients h !! id.
Proof.
  unfold unregister. destruct (clients h !! ID c) as [c0|] eqn:E; simpl.
  - rewrite lookup_delete_eq. split; [done|]. split; [done|].
    split; [by rewrite orb_true_r|]. intros id Hne.
    by rewrite lookup_delete_ne.
  - rewrite E. split; [done|]. split; [done|].
    split; [by rewrite orb_false_r | done].
Qed.

(** X12. When [readPump] has ended for a registered client, its queue
    is closed and the client is gone from the hub: a [Send] to it from a
    goroutine that is still running panics on the closed channel. *)
Theorem send_after_disconnect_panics
    {S : Type} (handler : S -> Client -> Envelope -> S)
    (h : Hub) (st : S) (c : Client) (frames : list json.bytes)
    (env : Envelope) :
  is_Some (clients h !! ID c) ->
  is_Some (Marshal env) ->
  let '(h', c', _) := readPump handler h st c frames in
  clients h' !! ID c = None
  /\ Send c' env = (c', Panics).
Proof.
  intros [c0 Hc] [data Hm]. unfold readPump, unregister. rewrite Hc.
  split; [apply lookup_delete_eq|]. unfold Send, chansend. by rewrite Hm.
Qed.

(** X13. The queue of a client is first in, first out, and bounded: of
    the envelopes handed to [Send] one after the other while the write
    pump takes nothing out, the queue takes the serialised forms in order
    until it is full, and drops the rest. *)
Theorem queue_keeps_first_frames
    (c : Client) (envs : list Envelope) (frames : list json.bytes) :
  closed (send c) = false ->
  length (buf (send c)) <= cap (send c) ->
  Forall2 (fun env frame => Marshal env = Some frame) envs frames ->
  let c' := foldl (fun c env => (Send c env).1) c envs in
  buf (send c') = take (cap (send c)) (buf (send c) ++ frames)
  /\ cap (send c') = cap (send c)
  /\ closed (send c') = false
  /\ ID c' = ID c.
Proof.
  intros Hc Hl Hf. revert c Hc Hl.
  induction Hf as [|env frame envs frames Hm _ IH]; intros c Hc Hl; simpl.
  - rewrite app_nil_r, take_ge by done. done.
  - unfold Send at 2 4 6 8, chansend. rewrite Hm, Hc.
    destruct (Nat.ltb_spec (length (buf (send c))) (cap (send c))) as [Hlt|Hge];
      simpl.
    + destruct (IH (mkClient (ID c)
                      (mkChan (buf (send c) ++ [frame]) (cap (send c)) false)))
        as (H1 & H2 & H3 & H4); simpl; [done | |].
      { rewrite length_app. simpl. lia. }
      simpl in *. rewrite H1, <- app_assoc. done.
    + destruct (IH c Hc Hl) as (H1 & H2 & H3 & H4).
      rewrite H1. split; [|done].
      rewrite !take_app_le by lia. done.
Qed.

(** * The session handler *)

Section SessionProofs.
Variable ToLower : string -> string.
Variable decodeChatSend : json.bytes -> option ChatSendPayload.
Variable decodeSelfModRequest : json.bytes -> option SelfModRequestPayload.
Variable decodeApprove : json.bytes -> option SelfModApprovePayload.
Variable TrimSpace : string -> string.
Variable decodeResponse : string -> option llmResp.
Variable patchText : string -> string -> string.
Variable errorText : selfmod.error -> string.
Variable encode : payload -> json.bytes.

Lemma cancelled_app tr1 tr2 :
  cancelled (tr1 ++ tr2) = cancelled tr1 ++ cancelled tr2.
Proof. apply omap_app. Qed.

Lemma tasks_app tr1 tr2 : tasks (tr1 ++ tr2) = tasks tr1 ++ tasks tr2.
Proof. apply omap_app. Qed.

Lemma calls_app tr1 tr2 : calls (tr1 ++ tr2) = calls tr1 ++ calls tr2.
Proof. apply omap_app. Qed.

(** X14. [handleChatCancel] cancels the stream registered for the
    client, if there is one, and forgets it: a second cancel does
    nothing, and the streams of other clients are not touched. *)
Theorem chat_cancel_is_idempotent (h : ChatHandler) (w : World)
    (client : string) :
  let '(h1, w1) := handleChatCancel h w client in
  handleChatCancel h1 w1 client = (h1, w1)
  /\ cancels h1 = delete client (cancels h)
  /\ trace w1 = trace w ++ match cancels h !! client with
                           | Some ctx => [Cancel ctx]
                           | None => []
                           end.
Proof.
  unfold handleChatCancel. destruct (cancels h !! client) as [ctx|] eqn:E.
  - simpl. rewrite lookup_delete_eq. done.
  - rewrite E. split; [done|]. split; [|by rewrite app_nil_r].
    by rewrite delete_id.
Qed.

(** X15. A [chat.send] that starts a stream replaces the stream of the
    client: the context registered for the client before is cancelled
    first, the new stream runs under a context that was never handed out
    before, and this context is the one a later [chat.cancel] cancels. *)
Theorem chat_send_replaces_stream
    (h : ChatHandler) (w : World) (client : string) (payload : json.bytes)
    (p : ChatSendPayload) (llm : provider.LLMProvider) :
  decodeChatSend payload = Some p ->
  provider.GetLLM (registry h)
    (if String.eqb (ProviderID p) "" then "anthropic" else ProviderID p)
  = inl llm ->
  engine h = None
  \/ isCodeChangeRequest ToLower
       (match last (Messages p) with
        | Some m => provider.Content m
        | None => ""
        end) = false ->
  let '(h', w') := handleChatSend ToLower decodeChatSend h w client payload in
  trace w'
  = trace w
    ++ match cancels h !! client with
       | Some ctx => [Cancel ctx]
       | None => []
       end
    ++ [Go (StreamTask client llm (Messages p) (contexts w))]
  /\ cancels h' = <[client := contexts w]> (cancels h)
  /\ contexts w' = S (contexts w)
  /\ (handleChatCancel h' w' client).2 = emit w' (Cancel (contexts w)).
Proof.
  intros Hd Hllm Hchat. unfold handleChatSend. rewrite Hd.
  assert (registry (handleChatCancel h w client).1 = registry h
          /\ contexts (handleChatCancel h w client).2 = contexts w
          /\ engine (handleChatCancel h w client).1 = engine h) as (Hr & Hc & He).
  { unfold handleChatCancel. by destruct (cancels h !! client). }
  pose proof (chat_cancel_is_idempotent h w client) as Hcancel.
  destruct (handleChatCancel h w client) as [h0 w0]. simpl in *.
  destruct Hcancel as (_ & Hcs & Htr).
  rewrite Hr, Hllm, He.
  assert (bool_decide (is_Some (engine h))
          && isCodeChangeRequest ToLower
               (match last (Messages p) with
                | Some m => provider.Content m
                | None => ""
                end) = false) as ->.
  { destruct Hchat as [-> | ->]; [done|]. apply andb_false_r. }
  simpl. rewrite Htr, Hc, Hcs, <- app_assoc. split; [done|].
  split; [by rewrite insert_delete_eq|]. split; [done|].
  unfold handleChatCancel. simpl. by rewrite lookup_insert_eq.
Qed.

(** X16. The deferred function of a stream deletes the entry of the
    client without looking at whose entry it is. When a stream was
    replaced by a new one and then ends, the entry it deletes is the one
    of its successor: the new stream is running, its context was not
    cancelled, and [chat.cancel] no longer reaches it. *)
Theorem replaced_stream_unregisters_successor
    (h : ChatHandler) (w : World) (client : string) (payload : json.bytes)
    (p : ChatSendPayload) (llm : provider.LLMProvider) (old : nat) :
  decodeChatSend payload = Some p ->
  provider.GetLLM (registry h)
    (if String.eqb (ProviderID p) "" then "anthropic" else ProviderID p)
  = inl llm ->
  engine h = None
  \/ isCodeChangeRequest ToLower
       (match last (Messages p) with
        | Some m => provider.Content m
        | None => ""
        end) = false ->
  cancels h !! client = Some old ->
  old < contexts w ->
  let '(h1, w1) := handleChatSend ToLower decodeChatSend h w client payload in
  let '(h2, w2) := streamDone h1 w1 client old in
  exists tr,
    trace w2 = trace w ++ tr
    /\ tasks tr = [StreamTask client llm (Messages p) (contexts w)]
    /\ cancelled tr = [old; old]
    /\ ~ In (contexts w) (cancelled tr)
    /\ cancels h2 !! client = None
    /\ handleChatCancel h2 w2 client = (h2, w2).
Proof.
  intros Hd Hllm Hchat Hold Hlt.
  pose proof (chat_send_replaces_stream h w client payload p llm Hd Hllm Hchat)
    as H.
  destruct (handleChatSend ToLower decodeChatSend h w client payload)
    as [h1 w1].
  destruct H as (Htr & Hcs & _ & _). rewrite Hold in Htr.
  unfold streamDone, handleChatCancel. simpl.
  rewrite lookup_delete_eq, Htr. eexists.
  split; [by rewrite <- !app_assoc|]. simpl.
  split; [done|]. split; [done|]. split; [|done].
  intros [Heq|[Heq|[]]]; clear - Heq Hlt; lia.
Qed.

Ltac extends :=
  simpl; rewrite ?emit_trace, <- ?app_assoc;
  first [reflexivity | symmetry; apply app_nil_r].

(** X17. What the handler does on a message, before any goroutine
    runs: it answers nobody but the sender, starts at most one goroutine,
    leaves the working tree, the registry and the version-control
    services alone, and calls no collaborator but [Reject]. *)
Theorem handler_answers_only_the_sender
    (h : ChatHandler) (w : World) (client : string) (env : Envelope) :
  let '(h', w') :=
    HandleMessage ToLower decodeChatSend decodeSelfModRequest decodeApprove
      h w client env in
  exists tr,
    trace w' = trace w ++ tr
    /\ Forall (fun c => c = client) (recipients tr)
    /\ length (tasks tr) <= 1
    /\ Forall (fun c => exists id, c = CallReject id) (calls tr)
    /\ fs w' = fs w
    /\ registry h' = registry h
    /\ gitSvc h' = gitSvc h
    /\ ghClient h' = ghClient h.
Proof.
  unfold HandleMessage.
  destruct (String.eqb (Type_ env) "chat.send").
  { unfold handleChatSend. destruct (decodeChatSend (Payload env)) as [p|].
    2: { exists []. rewrite app_nil_r. repeat split; simpl; auto. }
    unfold handleChatCancel.
    destruct (cancels h !! client) as [ctx|]; simpl;
      destruct (provider.GetLLM _ _) as [llm|err]; simpl;
      try destruct (bool_decide _ && _); simpl;
      eexists; (split; [extends|]); simpl;
      repeat split; auto; repeat constructor; eauto. }
  destruct (String.eqb (Type_ env) "chat.cancel").
  { unfold handleChatCancel. destruct (cancels h !! client) as [ctx|]; simpl;
      eexists; (split; [extends|]); simpl;
      repeat split; auto; repeat constructor; eauto. }
  destruct (String.eqb (Type_ env) "selfmod.request").
  { unfold handleSelfModRequest.
    destruct (decodeSelfModRequest (Payload env)) as [p|]; simpl;
      try destruct (provider.GetLLM _ _) as [llm|err]; simpl;
      eexists; (split; [extends|]); simpl;
      repeat split; auto; repeat constructor; eauto. }
  destruct (String.eqb (Type_ env) "selfmod.approve").
  { unfold handleSelfModApprove.
    destruct (decodeApprove (Payload env)) as [p|]; simpl;
      try destruct (engine h) as [e|]; simpl;
      eexists; (split; [extends|]); simpl;
      repeat split; auto; repeat constructor; eauto. }
  destruct (String.eqb (Type_ env) "selfmod.reject").
  { unfold handleSelfModReject.
    destruct (decodeApprove (Payload env)) as [p|]; simpl;
      try destruct (engine h) as [e|]; simpl;
      eexists; (split; [extends|]); simpl;
      repeat split; auto; repeat constructor; eauto. }
  exists []. rewrite app_nil_r. repeat split; simpl; auto.
Qed.

(** X18. [handleSelfModRequest] does not look whether the engine is
    configured: with no engine it still acknowledges the request and
    starts the generation, and the goroutine then panics on the nil
    engine before it sends anything. *)
Theorem selfmod_request_without_engine_panics
    (h : ChatHandler) (w : World) (k : conn) (io : selfmod.GenIO)
    (client : string) (payload : json.bytes) (p : SelfModRequestPayload)
    (llm : provider.LLMProvider) :
  engine h = None ->
  decodeSelfModRequest payload = Some p ->
  provider.GetLLM (registry h)
    (if String.eqb (RequestProviderID p) "" then "anthropic"
     else RequestProviderID p) = inl llm ->
  let '(h1, w1) := handleSelfModRequest decodeSelfModRequest h w client payload in
  tasks (trace w1) = tasks (trace w) ++ [GenerateTask client llm (Request p)]
  /\ runGenerate TrimSpace decodeResponse patchText errorText encode
       (h1, w1, k) io llm (Request p)
     = (h1, emit w1 Panic, k).
Proof.
  intros He Hd Hllm. unfold handleSelfModRequest. rewrite Hd, Hllm.
  unfold handleSelfModFromChat, runGenerate. rewrite He. simpl.
  rewrite <- app_assoc, tasks_app. done.
Qed.

(** X19. The goroutine that generates changes tells the client the
    identifier of the very request the engine stored. For a client that
    stays connected, with room for two envelopes in its queue: on success
    the goroutine sends the closing chunk and then the diff, and the
    identifier of the diff is found in the engine with the status
    pending, so it can be approved or rejected; on failure it sends one
    closing chunk with the error and the engine is as before. No envelope
    is dropped, no send panics, and the working tree is not changed
    either way. *)
Theorem generated_diff_names_stored_request
    (h : ChatHandler) (w : World) (k : conn) (io : selfmod.GenIO)
    (llm : provider.LLMProvider) (request : string) (e : selfmod.Engine) :
  engine h = Some e ->
  live.serialises encode ->
  live.room 2 k ->
  let '(h', w', _) :=
    runGenerate TrimSpace decodeResponse patchText errorText encode
      (h, w, k) io llm request in
  fs w' = fs w
  /\ match selfmod.GenerateChanges TrimSpace decodeResponse patchText
             e (fs w) io llm request with
     | (_, inr err) =>
         engine h' = Some e
         /\ trace w'
            = trace w
              ++ [Call (CallGenerateChanges request);
                  Emit (ID (peer k)) "chat.chunk"
                    (ChatChunk (selfmod.nl +:+ "変更の生成に失敗しました: "
                                  +:+ errorText err) true)]
     | (e', inl _) =>
         engine h' = Some e'
         /\ statusOf e' (newUUID io) = Some "pending"
         /\ exists description diffs chunk,
              trace w'
              = trace w
                ++ [Call (CallGenerateChanges request);
                    Emit (ID (peer k)) "chat.chunk" (ChatChunk chunk true);
                    Emit (ID (peer k)) "selfmod.diff"
                      (SelfModDiff (newUUID io) description diffs)]
     end.
Proof.
  intros He Hser Hroom. name_run r Hr. unfold runGenerate in Hr.
  rewrite He in Hr. simpl in Hr.
  destruct (selfmod.GenerateChanges TrimSpace decodeResponse patchText
              e (fs w) io llm request) as [e' [p|err]] eqn:E.
  - destruct (generate_stores_validated_request _ _ _ _ _ _ _ _ _ _ E)
      as (cr & Hd & Hg & Hid & Hst & _).
    rewrite Hd in Hr. deliver Hser Hr. deliver Hser Hr. subst r. simpl.
    split; [done|]. split; [done|]. split.
    + unfold statusOf. rewrite Hg. simpl. rewrite Hd. simpl. by rewrite Hst.
    + rewrite Hid. eexists _, _, _. rewrite <- !app_assoc. done.
  - apply GenerateChanges_error_unchanged in E as ->.
    deliver Hser Hr. subst r. simpl. rewrite <- !app_assoc.
    split; [done|]. split; [by destruct h|done].
Qed.

(** X20. Approval without version control, for a client that stays
    connected with room for two envelopes in its queue: when the Git
    service or the GitHub client is missing, the goroutine of
    [selfmod.approve] creates no branch and publishes nothing. It reports
    [applying], calls [ApproveAndApply], and reports [applied] when that
    succeeds and [error] when it fails; both statuses go into the queue,
    and the engine and the working tree are what [ApproveAndApply]
    left. *)
Theorem approve_without_version_control
    (h : ChatHandler) (w : World) (k : conn) (id : string)
    (e : selfmod.Engine) (cr : selfmod.ptr) :
  engine h = Some e ->
  selfmod.GetRequest e id = Some cr ->
  isConfigured h = false ->
  live.serialises encode ->
  live.room 2 k ->
  let '(h', w', _) := runApprove errorText encode (h, w, k) id in
  engine h' = Some (selfmod.ApproveAndApply e (fs w) id).1.1
  /\ fs w' = (selfmod.ApproveAndApply e (fs w) id).1.2
  /\ exists tr,
       trace w' = trace w ++ tr
       /\ Forall (fun ev => ev <> Dropped /\ ev <> Panic) tr
       /\ Forall (fun c => c = ID (peer k)) (recipients tr)
       /\ calls tr = [CallApproveAndApply id]
       /\ statuses tr
          = match (selfmod.ApproveAndApply e (fs w) id).2 with
            | None => ["applying"; "applied"]
            | Some _ => ["applying"; "error"]
            end.
Proof.
  intros He Hcr Hconf Hser Hroom. name_run r Hr. unfold runApprove in Hr.
  rewrite He, Hcr in Hr.
  assert (match gitSvc h, ghClient h with
          | Some _, Some _ => False
          | _, _ => True
          end) as Hnone.
  { unfold isConfigured in Hconf.
    by destruct (gitSvc h), (ghClient h). }
  assert (r = applyThenPublish errorText encode e (h, w, k) id "" cr) as Hr'.
  { destruct (gitSvc h), (ghClient h); done. }
  clear Hr. unfold applyThenPublish, goSendStatus in Hr'. deliver Hser Hr'.
  simpl in Hr'.
  destruct (selfmod.ApproveAndApply e (fs w) id) as [[e1 fs1] [err|]];
    cbv beta iota in Hr'.
  - deliver Hser Hr'. subst r. simpl. split; [done|]. split; [done|].
    eexists. rewrite <- !app_assoc. split; [done|].
    split; [by repeat constructor|]. split; [by repeat constructor|]. done.
  - unfold publish, goSendStatus in Hr'.
    assert (r = goSendThen encode
                  (withEngine h e1,
                   mkWorld fs1 (contexts w)
                     ((trace w
                       ++ [Emit (ID (peer k)) "selfmod.status"
                             (SelfModStatus id "applying" "変更を適用中..." "")])
                      ++ [Call (CallApproveAndApply id)]), k0)
                  "selfmod.status"
                  (SelfModStatus id "applied"
                     "変更が適用されました（GitHub未設定のためPRは作成されません）"
                     "")
                  (fun s => s)) as Hr.
    { rewrite Hr'. simpl. destruct (gitSvc h), (ghClient h); done. }
    clear Hr'. deliver Hser Hr. subst r. simpl. split; [done|].
    split; [done|]. eexists. rewrite <- !app_assoc. split; [done|].
    split; [by repeat constructor|]. split; [by repeat constructor|]. done.
Qed.

(** X21. A second approval publishes nothing. When the request is
    stored but no longer pending, and the client stays connected with
    room for three envelopes in its queue, the goroutine of
    [selfmod.approve] ends with the status [error]; the engine and the
    working tree are as before, and nothing is committed, pushed or
    proposed. With version control configured it has by then created and
    checked out the branch of the request, and does not go back to the
    main branch. *)
Theorem approve_of_decided_request_changes_nothing
    (h : ChatHandler) (w : World) (k : conn) (id : string)
    (e : selfmod.Engine) (p : selfmod.ptr) (cr : selfmod.ChangeRequest) :
  engine h = Some e ->
  selfmod.GetRequest e id = Some p ->
  selfmod.deref e p = Some cr ->
  selfmod.Status cr <> "pending" ->
  8 <= String.length id ->
  live.serialises encode ->
  live.room 3 k ->
  let '(h', w', _) := runApprove errorText encode (h, w, k) id in
  engine h' = Some e
  /\ fs w' = fs w
  /\ exists tr,
       trace w' = trace w ++ tr
       /\ Forall (fun ev => ev <> Dropped /\ ev <> Panic) tr
       /\ last (statuses tr) = Some "error"
       /\ calls tr
          = (if isConfigured h
             then [CallCreateBranch ("selfmod/" +:+ strings.upto 8 id)]
             else [])
            ++ match gitSvc h, ghClient h with
               | Some git, Some _ =>
                   match CreateBranch git ("selfmod/" +:+ strings.upto 8 id)
                   with
                   | Some _ => []
                   | None => [CallApproveAndApply id]
                   end
               | _, _ => [CallApproveAndApply id]
               end.
Proof.
  intros He Hp Hcr Hst Hlen Hser Hroom. name_run r Hr.
  unfold runApprove, isConfigured in *. rewrite He, Hp in Hr.
  pose proof (ApproveAndApply_not_pending e (fs w) id p cr Hp Hcr Hst) as Hnp.
  destruct (Nat.ltb_spec (String.length id) 8) as [Hlt|_];
    [clear - Hlt Hlen; lia|].
  assert (forall s0 b,
            live.room 2 s0.2 -> fs s0.1.2 = fs w -> engine s0.1.1 = Some e ->
            let r0 := applyThenPublish errorText encode e s0 id b p in
            engine r0.1.1 = Some e /\ fs r0.1.2 = fs w
            /\ trace r0.1.2
               = trace s0.1.2
                 ++ [Emit (ID (peer s0.2)) "selfmod.status"
                       (SelfModStatus id "applying" "変更を適用中..." "");
                     Call (CallApproveAndApply id);
                     Emit (ID (peer s0.2)) "selfmod.status"
                       (SelfModStatus id "error"
                          ("変更の適用に失敗: "
                           +:+ errorText (ErrNotPending (Status cr))) "")])
    as Happly.
  { intros [[h0 w0] k0] b Hk0 Hfs0 He0 r0. simpl in *. subst r0.
    remember (applyThenPublish errorText encode e (h0, w0, k0) id b p)
      as r0 eqn:Hr0.
    unfold applyThenPublish, goSendStatus in Hr0. deliver Hser Hr0.
    simpl in Hr0. rewrite Hfs0, Hnp in Hr0. cbv beta iota in Hr0.
    deliver Hser Hr0. subst r0. simpl. rewrite <- !app_assoc.
    split; [done|]. split; [done|]. done. }
  destruct (gitSvc h) as [git|] eqn:Eg, (ghClient h) as [gh|] eqn:Eh.
  - unfold goSendStatus in Hr. deliver Hser Hr.
    destruct (CreateBranch git _) as [err|] eqn:Eb.
    + deliver Hser Hr. subst r. simpl. split; [done|]. split; [done|].
      eexists. rewrite <- !app_assoc. split; [done|].
      split; [by repeat constructor|]. done.
    + destruct (Happly (h, emit (emit w (Emit (ID (peer k)) "selfmod.status"
                                   (SelfModStatus id "pushing"
                                      "ブランチを作成中..." "")))
                             (Call (CallCreateBranch
                                      ("selfmod/" +:+ strings.upto 8 id))),
                        k0)
                  ("selfmod/" +:+ strings.upto 8 id) Hk eq_refl He)
        as (H1 & H2 & H3).
      rewrite <- Hr in H1, H2, H3. destruct r as [[h' w'] k']. simpl in *.
      split; [done|]. split; [done|]. eexists. rewrite H3, Hid.
      rewrite <- !app_assoc. split; [done|].
      split; [by repeat constructor|]. done.
  - destruct (Happly (h, w, k) "") as (H1 & H2 & H3); simpl;
      [by destruct Hroom as (?&?&?); repeat split; try done; lia|done|done|].
    rewrite <- Hr in H1, H2, H3. destruct r as [[h' w'] k']. simpl in *.
    split; [done|]. split; [done|]. eexists. rewrite H3.
    split; [done|]. split; [by repeat constructor|]. done.
  - destruct (Happly (h, w, k) "") as (H1 & H2 & H3); simpl;
      [by destruct Hroom as (?&?&?); repeat split; try done; lia|done|done|].
    rewrite <- Hr in H1, H2, H3. destruct r as [[h' w'] k']. simpl in *.
    split; [done|]. split; [done|]. eexists. rewrite H3.
    split; [done|]. split; [by repeat constructor|]. done.
  - destruct (Happly (h, w, k) "") as (H1 & H2 & H3); simpl;
      [by destruct Hroom as (?&?&?); repeat split; try done; lia|done|done|].
    rewrite <- Hr in H1, H2, H3. destruct r as [[h' w'] k']. simpl in *.
    split; [done|]. split; [done|]. eexists. rewrite H3.
    split; [done|]. split; [by repeat constructor|]. done.
Qed.

(** X22. A goroutine does not notice that its client has gone. When
    the read pump of the client has ended and [unregister] has closed the
    queue, and no other goroutine sends to the client first, the
    goroutine of [selfmod.approve] on a stored request panics at its
    first status, on the closed channel: no branch is created and nothing
    is applied, and the engine and the working tree are as before. *)
Theorem approve_for_departed_client_panics
    (h : ChatHandler) (w : World) (k : conn) (id : string)
    (e : selfmod.Engine) (cr : selfmod.ptr) :
  engine h = Some e ->
  selfmod.GetRequest e id = Some cr ->
  8 <= String.length id ->
  live.serialises encode ->
  live.gone k ->
  let '(h', w', _) := runApprove errorText encode (h, w, k) id in
  h' = h
  /\ fs w' = fs w
  /\ exists message,
       trace w'
       = trace w
         ++ [Emit (ID (peer k)) "selfmod.status"
               (SelfModStatus id
                  (if isConfigured h then "pushing" else "applying")
                  message "");
             Panic].
Proof.
  intros He Hcr Hlen Hser Hgone. unfold runApprove, isConfigured.
  rewrite He, Hcr.
  destruct (Nat.ltb_spec (String.length id) 8) as [Hlt|_];
    [clear - Hlt Hlen; lia|].
  destruct (gitSvc h) as [git|], (ghClient h) as [gh|];
    unfold applyThenPublish, goSendStatus;
    match goal with
    | |- context [goSendThen ?enc (?h0, ?w0, ?k0) ?ty ?p0 ?next] =>
        destruct (goSendThen_gone enc Hser h0 w0 k0 ty p0 next Hgone)
          as (k1 & -> & _)
    end;
    simpl; (split; [done|]); (split; [done|]);
    eexists; rewrite <- !app_assoc; done.
Qed.

Lemma attempts_app tr1 tr2 :
  attempts (tr1 ++ tr2) = attempts tr1 ++ attempts tr2.
Proof. apply omap_app. Qed.

Lemma omap_attempts {B : Type} (f : event -> option B) (tr : list event) :
  f Dropped = None -> omap f (attempts tr) = omap f tr.
Proof.
  intros Hf. induction tr as [|ev tr IH]; [done|].
  assert (forall ev', omap f (ev' :: attempts tr) = omap f (ev' :: tr)) as Hc.
  { intros ev'. simpl. destruct (f ev'); [f_equal|]; exact IH. }
  destruct ev; try exact (Hc _).
  simpl. rewrite Hf. exact IH.
Qed.

Lemma calls_attempts tr : calls (attempts tr) = calls tr.
Proof. by apply omap_attempts. Qed.

Lemma statuses_attempts tr : statuses (attempts tr) = statuses tr.
Proof. by apply omap_attempts. Qed.

(** While the client stays connected a send of a goroutine returns,
    whether the envelope went into the queue or not. *)
Lemma goSend_connected (w : World) (k : conn) (type_ : string) (p : payload) :
  live.connected k ->
  exists w' k',
    goSend encode w k type_ p = (w', k', true)
    /\ fs w' = fs w
    /\ contexts w' = contexts w
    /\ attempts (trace w')
       = attempts (trace w) ++ [Emit (ID (peer k)) type_ p]
    /\ live.connected k'
    /\ ID (peer k') = ID (peer k).
Proof.
  intros (Hc & Hs). unfold goSend.
  assert (Forall (fun m => m <> Close) (hd [] (schedule k))
          /\ Forall (Forall (fun m => m <> Close)) (tail (schedule k)))
    as (Hh & Ht).
  { destruct (schedule k) as [|ms sched]; simpl; [done|].
    by apply Forall_cons_1 in Hs as [? ?]. }
  destruct (interfere_open _ _ Hc Hh) as (H1 & _ & _).
  unfold Send, chansend.
  destruct (Marshal _) as [data|]; simpl.
  - rewrite H1.
    destruct (_ <? _); simpl; eexists _, _; (split; [done|]); simpl;
      rewrite ?attempts_app; simpl; rewrite ?app_nil_r; done.
  - eexists _, _. split; [done|]. simpl.
    rewrite !attempts_app. simpl. rewrite app_nil_r. done.
Qed.

Lemma goSendThen_alike (s1 s2 : goroutine) (type_ : string) (p : payload)
    (next1 next2 : goroutine -> goroutine) :
  (forall t1 t2, live.alike t1 t2 -> live.alike (next1 t1) (next2 t2)) ->
  live.alike s1 s2 ->
  live.alike (goSendThen encode s1 type_ p next1)
    (goSendThen encode s2 type_ p next2).
Proof.
  intros Hnext. destruct s1 as [[h1 w1] k1], s2 as [[h2 w2] k2].
  intros (Hh & Hfs & Hctx & Htr & (Hk1 & Hk2) & Hid). simpl in *.
  unfold goSendThen.
  destruct (goSend_connected w1 k1 type_ p Hk1)
    as (w1' & k1' & -> & F1 & C1 & T1 & K1 & I1).
  destruct (goSend_connected w2 k2 type_ p Hk2)
    as (w2' & k2' & -> & F2 & C2 & T2 & K2 & I2).
  apply Hnext. unfold live.alike. simpl.
  split; [done|]. split; [congruence|]. split; [congruence|].
  split; [congruence|]. split; [done|]. congruence.
Qed.

Lemma alike_emit (h1 h2 : ChatHandler) (w1 w2 : World) (k1 k2 : conn)
    (ev : event) :
  live.alike (h1, w1, k1) (h2, w2, k2) ->
  live.alike (h1, emit w1 ev, k1) (h2, emit w2 ev, k2).
Proof.
  intros (Hh & Hfs & Hctx & Htr & Hk & Hid). unfold live.alike. simpl in *.
  split; [done|]. split; [done|]. split; [done|].
  split; [by rewrite !attempts_app, Htr|]. done.
Qed.

Lemma alike_apply (h : ChatHandler) (e : selfmod.Engine) (w1 w2 : World)
    (k1 k2 : conn) (fs' : os.FS) :
  live.alike (h, w1, k1) (h, w2, k2) ->
  live.alike (withEngine h e, mkWorld fs' (contexts w1) (trace w1), k1)
    (withEngine h e, mkWorld fs' (contexts w2) (trace w2), k2).
Proof.
  intros (Hh & Hfs & Hctx & Htr & Hk & Hid). unfold live.alike. simpl in *.
  split; [done|]. split; [done|]. split; [done|]. split; [done|]. done.
Qed.

(** The goroutine of [selfmod.approve] keeps two runs alike. *)
Lemma runApprove_alike (s1 s2 : goroutine) (id : string) :
  live.alike s1 s2 ->
  live.alike (runApprove errorText encode s1 id)
    (runApprove errorText encode s2 id).
Proof.
  destruct s1 as [[h1 w1] k1], s2 as [[h2 w2] k2]. intros HR.
  pose proof HR as (Hh & _). simpl in Hh. subst h2.
  assert (forall e b cr t1 t2, live.alike t1 t2 ->
            live.alike (applyThenPublish errorText encode e t1 id b cr)
              (applyThenPublish errorText encode e t2 id b cr)) as Happly.
  { intros e b cr t1 t2 Ht. unfold applyThenPublish, goSendStatus.
    apply goSendThen_alike; [|done].
    intros [[g1 v1] q1] [[g2 v2] q2] HT.
    pose proof HT as (Hg & Hfs & Hctx & Htr & Hq & Hid). simpl in *.
    subst g2. rewrite Hfs.
    destruct (selfmod.ApproveAndApply e (fs v2) id) as [[e' fs'] [err|]].
    - apply goSendThen_alike; [done|].
      apply (alike_apply g1 e' (emit v1 _) (emit v2 _)). by apply alike_emit.
    - assert (live.alike
                (withEngine g1 e',
                 mkWorld fs' (contexts v1)
                   (trace v1 ++ [Call (CallApproveAndApply id)]), q1)
                (withEngine g1 e',
                 mkWorld fs' (contexts v2)
                   (trace v2 ++ [Call (CallApproveAndApply id)]), q2))
        as HP.
      { apply (alike_apply g1 e' (emit v1 _) (emit v2 _)).
        by apply alike_emit. }
      revert HP.
      generalize (mkWorld fs' (contexts v1)
                    (trace v1 ++ [Call (CallApproveAndApply id)])).
      generalize (mkWorld fs' (contexts v2)
                    (trace v2 ++ [Call (CallApproveAndApply id)])).
      intros u2 u1 HP.
      destruct (gitSvc g1) as [gt|], (ghClient g1) as [gh|];
        unfold goSendStatus; (apply goSendThen_alike; [|done]); try done.
      intros [[a1 x1] y1] [[a2 x2] y2] HA.
      pose proof HA as (Ha & _). simpl in Ha. subst a2.
      destruct (engine a1 ≫= _) as [req|]; [|by apply alike_emit].
      destruct (CommitAll gt _) as [? [err|]].
      { apply goSendThen_alike; [done|]. by apply alike_emit. }
      destruct (Push gt b) as [err|].
      { apply goSendThen_alike; [done|]. by do 2 apply alike_emit. }
      destruct (CreatePR gh _ _ b "main") as [url|err].
      + apply goSendThen_alike; [|by do 3 apply alike_emit].
        intros [[? ?] ?] [[? ?] ?] HB. by apply alike_emit.
      + apply goSendThen_alike; [done|]. by do 3 apply alike_emit. }
  unfold runApprove.
  destruct (engine h1) as [e|]; [|by apply alike_emit].
  destruct (selfmod.GetRequest e id) as [cr|];
    [|unfold goSendStatus; by apply goSendThen_alike].
  destruct (gitSvc h1) as [gt|], (ghClient h1) as [gh|];
    try by apply Happly.
  destruct (String.length id <? 8); [by apply alike_emit|].
  unfold goSendStatus. apply goSendThen_alike; [|done].
  intros [[a1 x1] y1] [[a2 x2] y2] HA.
  destruct (CreateBranch gt _) as [err|].
  - apply goSendThen_alike; [done|]. by apply alike_emit.
  - apply Happly. by apply alike_emit.
Qed.

(** X23. Delivery does not steer the goroutine of [selfmod.approve].
    As long as the queue of the client is not closed, what becomes of the
    envelopes makes no difference: two runs from the same handler and
    working tree, on two queues of the same client that differ in
    content, capacity and what the other goroutines do to them, end with
    the same handler and working tree, and make the same sends and the
    same collaborator calls in the same order. A full queue loses
    statuses and stops no step. *)
Theorem approve_does_not_depend_on_delivery
    (h : ChatHandler) (w : World) (k1 k2 : conn) (id : string) :
  live.connected k1 ->
  live.connected k2 ->
  ID (peer k1) = ID (peer k2) ->
  let '(h1, w1, _) := runApprove errorText encode (h, w, k1) id in
  let '(h2, w2, _) := runApprove errorText encode (h, w, k2) id in
  h1 = h2
  /\ fs w1 = fs w2
  /\ attempts (trace w1) = attempts (trace w2)
  /\ calls (trace w1) = calls (trace w2)
  /\ statuses (trace w1) = statuses (trace w2).
Proof.
  intros Hk1 Hk2 Hid.
  assert (live.alike (h, w, k1) (h, w, k2)) as HR by done.
  apply (runApprove_alike _ _ id) in HR.
  destruct (runApprove errorText encode (h, w, k1) id) as [[h1 w1] q1].
  destruct (runApprove errorText encode (h, w, k2) id) as [[h2 w2] q2].
  destruct HR as (Hh & Hfs & _ & Htr & _). simpl in *.
  split; [done|]. split; [done|]. split; [done|].
  split.
  - by rewrite <- (calls_attempts (trace w1)), Htr, calls_attempts.
  - by rewrite <- (statuses_attempts (trace w1)), Htr, statuses_attempts.
Qed.

End SessionProofs.

(** * The hub and handler extras on the examples *)

Lemma send_after_disconnect_panics_witness :
  is_Some (clients (register (mkHub ∅ "*") examples.client)
             !! ID examples.client)
  /\ is_Some (Marshal examples.envCompact)
  /\ let '(h', c', _) :=
       readPump (fun (st : unit) _ _ => st)
         (register (mkHub ∅ "*") examples.client) tt examples.client [] in
     clients h' !! ID examples.client = None
     /\ Send c' examples.envCompact = (c', Panics).
Proof.
  assert (is_Some (clients (register (mkHub ∅ "*") examples.client)
                     !! ID examples.client)) as H1.
  { exists examples.client. vm_compute. reflexivity. }
  assert (is_Some (Marshal examples.envCompact)) as H2.
  { exists examples.dataCompact. vm_compute. reflexivity. }
  split; [exact H1|]. split; [exact H2|].
  exact (send_after_disconnect_panics (fun (st : unit) _ _ => st)
           (register (mkHub ∅ "*") examples.client) tt examples.client []
           examples.envCompact H1 H2).
Defined.

Lemma queue_keeps_first_frames_witness :
  Forall2 (fun env frame => Marshal env = Some frame)
    [examples.envCompact; examples.envCompact]
    [examples.dataCompact; examples.dataCompact]
  /\ buf (send (foldl (fun c env => (Send c env).1) examples.client
                  [examples.envCompact; examples.envCompact]))
     = take 256 ([] ++ [examples.dataCompact; examples.dataCompact]).
Proof.
  assert (Forall2 (fun env frame => Marshal env = Some frame)
            [examples.envCompact; examples.envCompact]
            [examples.dataCompact; examples.dataCompact]) as H.
  { repeat constructor; vm_compute; reflexivity. }
  split; [exact H|].
  refine (proj1 (queue_keeps_first_frames examples.client _ _ eq_refl _ H)).
  simpl. lia.
Defined.

Lemma chat_send_replaces_stream_witness :
  examples.decodeChatSend examples.chatBytes
  = Some (mkChatSend [provider.mkMessage "user" "hello"] "")
  /\ provider.GetLLM (registry examples.handlerBare) "anthropic"
     = inl examples.llm
  /\ let '(h', w') :=
       handleChatSend examples.toLower examples.decodeChatSend
         examples.handlerBare examples.world "c1" examples.chatBytes in
     trace w'
     = [Go (StreamTask "c1" examples.llm [provider.mkMessage "user" "hello"] 0)]
     /\ cancels h' = <["c1" := 0]> ∅
     /\ contexts w' = 1
     /\ (handleChatCancel h' w' "c1").2 = emit w' (Cancel 0).
Proof.
  assert (examples.decodeChatSend examples.chatBytes
          = Some (mkChatSend [provider.mkMessage "user" "hello"] "")) as H1
    by (vm_compute; reflexivity).
  assert (provider.GetLLM (registry examples.handlerBare) "anthropic"
          = inl examples.llm) as H2 by (vm_compute; reflexivity).
  split; [exact H1|]. split; [exact H2|].
  exact (chat_send_replaces_stream examples.toLower examples.decodeChatSend
           examples.handlerBare examples.world "c1" examples.chatBytes _
           examples.llm H1 H2 (or_introl eq_refl)).
Defined.

Lemma replaced_stream_unregisters_successor_witness :
  cancels (withCancels examples.handlerBare {["c1" := 0]}) !! "c1" = Some 0
  /\ let '(h1, w1) :=
       handleChatSend examples.toLower examples.decodeChatSend
         (withCancels examples.handlerBare {["c1" := 0]})
         (mkWorld examples.fs0 1 []) "c1" examples.chatBytes in
     let '(h2, w2) := streamDone h1 w1 "c1" 0 in
     exists tr,
       trace w2 = [] ++ tr
       /\ tasks tr
          = [StreamTask "c1" examples.llm [provider.mkMessage "user" "hello"] 1]
       /\ cancelled tr = [0; 0]
       /\ ~ In 1 (cancelled tr)
       /\ cancels h2 !! "c1" = None
       /\ handleChatCancel h2 w2 "c1" = (h2, w2).
Proof.
  assert (cancels (withCancels examples.handlerBare {["c1" := 0]}) !! "c1"
          = Some 0) as H by (vm_compute; reflexivity).
  split; [exact H|].
  refine (replaced_stream_unregisters_successor examples.toLower
            examples.decodeChatSend
            (withCancels examples.handlerBare {["c1" := 0]})
            (mkWorld examples.fs0 1 []) "c1" examples.chatBytes
            (mkChatSend [provider.mkMessage "user" "hello"] "")
            examples.llm 0 _ _ (or_introl eq_refl) H _).
  - vm_compute. reflexivity.
  - vm_compute. reflexivity.
  - simpl. lia.
Defined.

Lemma selfmod_request_without_engine_panics_witness :
  engine examples.handlerBare = None
  /\ examples.decodeSelfModRequest examples.requestBytes
     = Some (mkSelfModRequest "please add a module X" "")
  /\ let '(h1, w1) :=
       handleSelfModRequest examples.decodeSelfModRequest examples.handlerBare
         examples.world "c1" examples.requestBytes in
     tasks (trace w1)
     = tasks (trace examples.world)
       ++ [GenerateTask "c1" examples.llm "please add a module X"]
     /\ runGenerate examples.trim examples.decode examples.patch
          examples.errorText examples.encode (h1, w1, examples.link)
          examples.io examples.llm "please add a module X"
        = (h1, emit w1 Panic, examples.link).
Proof.
  assert (examples.decodeSelfModRequest examples.requestBytes
          = Some (mkSelfModRequest "please add a module X" "")) as H
    by (vm_compute; reflexivity).
  split; [reflexivity|]. split; [exact H|].
  refine (selfmod_request_without_engine_panics examples.decodeSelfModRequest
            examples.trim examples.decode examples.patch examples.errorText
            examples.encode
            examples.handlerBare examples.world examples.link examples.io
            "c1" examples.requestBytes _ examples.llm eq_refl H _).
  vm_compute. reflexivity.
Defined.

Lemma generated_diff_names_stored_request_witness :
  live.room 2 examples.link
  /\ let '(h', w', _) :=
       runGenerate examples.trim examples.decode examples.patch
         examples.errorText examples.encode
         (withEngine examples.handlerBare (NewEngine "/repo"),
          examples.world, examples.link)
         examples.io examples.llm "please add a module X" in
     fs w' = fs examples.world
     /\ engine h' = Some examples.engine0
     /\ statusOf examples.engine0 examples.id0 = Some "pending".
Proof.
  assert (live.room 2 examples.link) as Hroom
    by (apply examples_link_room; lia).
  split; [exact Hroom|].
  pose proof (generated_diff_names_stored_request examples.trim
                examples.decode examples.patch examples.errorText
                examples.encode
                (withEngine examples.handlerBare (NewEngine "/repo"))
                examples.world examples.link examples.io examples.llm
                "please add a module X" (NewEngine "/repo") eq_refl
                examples_encode_serialises Hroom) as H.
  destruct (runGenerate _ _ _ _ _ _ _ _ _) as [[h' w'] k'].
  destruct H as [Hfs H]. split; [exact Hfs|].
  assert (selfmod.GenerateChanges examples.trim examples.decode examples.patch
            (NewEngine "/repo")
            (fs examples.world) examples.io examples.llm
            "please add a module X"
          = (examples.engine0, inl 0)) as Hgen by (vm_compute; reflexivity).
  rewrite Hgen in H. destruct H as (He & Hst & _).
  split; [exact He | exact Hst].
Defined.

Lemma approve_without_version_control_witness :
  isConfigured (mkHandler examples.registry (Some examples.engine0) None None ∅)
  = false
  /\ live.room 2 examples.link
  /\ let '(h', w', _) :=
       runApprove examples.errorText examples.encode
         (mkHandler examples.registry (Some examples.engine0) None None ∅,
          examples.world, examples.link) examples.id0 in
     engine h'
     = Some (selfmod.ApproveAndApply examples.engine0 examples.fs0
               examples.id0).1.1
     /\ fs w'
        = (selfmod.ApproveAndApply examples.engine0 examples.fs0
             examples.id0).1.2
     /\ exists tr,
          trace w' = [] ++ tr
          /\ Forall (fun ev => ev <> Dropped /\ ev <> Panic) tr
          /\ Forall (fun c => c = "c1") (recipients tr)
          /\ calls tr = [CallApproveAndApply examples.id0]
          /\ statuses tr
             = match (selfmod.ApproveAndApply examples.engine0 examples.fs0
                        examples.id0).2 with
               | None => ["applying"; "applied"]
               | Some _ => ["applying"; "error"]
               end.
Proof.
  assert (live.room 2 examples.link) as Hroom
    by (apply examples_link_room; lia).
  split; [reflexivity|]. split; [exact Hroom|].
  exact (approve_without_version_control examples.errorText examples.encode
           (mkHandler examples.registry (Some examples.engine0) None None ∅)
           examples.world examples.link examples.id0 examples.engine0 0
           eq_refl eq_refl eq_refl examples_encode_serialises Hroom).
Defined.

Lemma approve_of_decided_request_changes_nothing_witness :
  selfmod.deref examples.engineApproved 0
  = Some (mkCR examples.id0 "add X" [examples.change0]
            [mkDiff "src/x.go" "+package x"] "approved" 0)
  /\ 8 <= String.length examples.id0
  /\ live.room 3 examples.link
  /\ let '(h', w', _) :=
       runApprove examples.errorText examples.encode
         (withEngine examples.handler examples.engineApproved,
          examples.world, examples.link) examples.id0 in
     engine h' = Some examples.engineApproved
     /\ fs w' = examples.fs0
     /\ exists tr,
          trace w' = [] ++ tr
          /\ Forall (fun ev => ev <> Dropped /\ ev <> Panic) tr
          /\ last (statuses tr) = Some "error"
          /\ calls tr
             = [CallCreateBranch ("selfmod/" +:+ strings.upto 8 examples.id0)]
               ++ [CallApproveAndApply examples.id0].
Proof.
  assert (selfmod.deref examples.engineApproved 0
          = Some (mkCR examples.id0 "add X" [examples.change0]
                    [mkDiff "src/x.go" "+package x"] "approved" 0)) as H1
    by (vm_compute; reflexivity).
  assert (8 <= String.length examples.id0) as H2 by (vm_compute; lia).
  assert (live.room 3 examples.link) as Hroom
    by (apply examples_link_room; lia).
  split; [exact H1|]. split; [exact H2|]. split; [exact Hroom|].
  refine (approve_of_decided_request_changes_nothing examples.errorText
            examples.encode
            (withEngine examples.handler examples.engineApproved)
            examples.world examples.link examples.id0
            examples.engineApproved 0 _
            eq_refl eq_refl H1 _ H2 examples_encode_serialises Hroom).
  simpl. discriminate.
Defined.

Lemma approve_for_departed_client_panics_witness :
  live.gone (mkConn (mkClient "c1" (close (make 256))) [])
  /\ let '(h', w', _) :=
       runApprove examples.errorText examples.encode
         (examples.handler, examples.world,
          mkConn (mkClient "c1" (close (make 256))) []) examples.id0 in
     h' = examples.handler
     /\ fs w' = examples.fs0
     /\ exists message,
          trace w'
          = [] ++ [Emit "c1" "selfmod.status"
                     (SelfModStatus examples.id0 "pushing" message "");
                   Panic].
Proof.
  assert (live.gone (mkConn (mkClient "c1" (close (make 256))) [])) as Hg
    by (split; [reflexivity | constructor]).
  split; [exact Hg|].
  refine (approve_for_departed_client_panics examples.errorText
            examples.encode examples.handler examples.world
            (mkConn (mkClient "c1" (close (make 256))) []) examples.id0
            examples.engine0 0 eq_refl eq_refl _ examples_encode_serialises
            Hg).
  vm_compute. lia.
Defined.

Lemma approve_does_not_depend_on_delivery_witness :
  live.connected examples.link
  /\ live.connected (mkConn (mkClient "c1" (make 0)) [[Receive]; []])
  /\ let '(h1, w1, _) :=
       runApprove examples.errorText examples.encode
         (examples.handler, examples.world, examples.link) examples.id0 in
     let '(h2, w2, _) :=
       runApprove examples.errorText examples.encode
         (examples.handler, examples.world,
          mkConn (mkClient "c1" (make 0)) [[Receive]; []]) examples.id0 in
     h1 = h2
     /\ fs w1 = fs w2
     /\ attempts (trace w1) = attempts (trace w2)
     /\ calls (trace w1) = calls (trace w2)
     /\ statuses (trace w1) = statuses (trace w2).
Proof.
  assert (live.connected examples.link) as H1 by (split; [reflexivity|constructor]).
  assert (live.connected (mkConn (mkClient "c1" (make 0)) [[Receive]; []]))
    as H2.
  { split; [reflexivity|]. repeat constructor; discriminate. }
  split; [exact H1|]. split; [exact H2|].
  exact (approve_does_not_depend_on_delivery examples.errorText
           examples.encode examples.handler examples.world examples.link
           (mkConn (mkClient "c1" (make 0)) [[Receive]; []]) examples.id0
           H1 H2 eq_refl).
Defined.

(** * Configuration and wiring *)

Lemma getEnv_nonempty (env : gmap string string) (key fallback : string) :
  fallback <> "" -> config.getEnv env key fallback <> "".
Proof.
  intros H. unfold config.getEnv.
  destruct (String.eqb_spec (config.Getenv env key) ""); simpl; done.
Qed.

(** X24. [Load] never fails: [getEnv] replaces an empty or unset
    variable by its fallback, so the port is never empty and the check of
    [Load] never fires. The repository path, the allowed origin and the
    default provider are never empty either; an empty [REPO_PATH] gives
    the default path like an unset one. *)
Theorem Load_never_fails (env : gmap string string) :
  exists cfg,
    config.Load env = inl cfg
    /\ config.Port cfg <> ""
    /\ config.RepoPath cfg <> ""
    /\ config.AllowedOrigin cfg <> ""
    /\ config.DefaultLLMProvider cfg <> ""
    /\ (config.Getenv env "REPO_PATH" = "" ->
        config.RepoPath cfg = "/tmp/flyagi-repo").
Proof.
  unfold config.Load. cbv zeta. cbn [config.Port].
  destruct (String.eqb_spec (config.getEnv env "PORT" "8080") "") as [E|_].
  { by apply getEnv_nonempty in E. }
  eexists. split; [done|]. cbn.
  repeat split; try by apply getEnv_nonempty.
  intros H. unfold config.getEnv. by rewrite H.
Qed.

Section WiringProofs.
Variable chatAnthropic chatOpenAI chatGemini :
  string -> list provider.Message -> list provider.StreamChunk * option string.
Variable geminiError : string -> option string.
Variable NewService : string -> string -> GitService.
Variable NewClient : string -> string -> string -> GitHubClient.
Variable CloneOrOpen : string -> option string.

(** X25. The handler that [main] builds from a loaded configuration
    always has an engine, on the configured repository path; it has the
    Git service and the GitHub client together or neither, and both
    exactly when token, owner and repository are set and the clone
    succeeded; and the provider [anthropic], the one the handlers fall
    back to, is registered exactly when an Anthropic key is set. *)
Theorem server_handler_has_engine (env : gmap string string) :
  exists cfg,
    config.Load env = inl cfg
    /\ let h := main.chatHandler chatAnthropic chatOpenAI chatGemini
                  geminiError NewService NewClient CloneOrOpen cfg in
       engine h = Some (NewEngine (config.RepoPath cfg))
       /\ cancels h = ∅
       /\ isConfigured h
          = bool_decide (config.GitHubToken cfg <> ""
                         /\ config.GitHubOwner cfg <> ""
                         /\ config.GitHubRepo cfg <> ""
                         /\ CloneOrOpen
                              ("https://github.com/" +:+ config.GitHubOwner cfg
                               +:+ "/" +:+ config.GitHubRepo cfg +:+ ".git")
                            = None)
       /\ (gitSvc h = None <-> ghClient h = None)
       /\ provider.GetLLM (registry h) "anthropic"
          = if String.eqb (config.AnthropicAPIKey cfg) "" then inr "anthropic"
            else inl (main.NewAnthropicProvider chatAnthropic
                        (config.AnthropicAPIKey cfg)).
Proof.
  destruct (Load_never_fails env) as (cfg & Hl & _ & Hrepo & _).
  exists cfg. split; [done|]. cbv zeta. unfold main.chatHandler.
  rewrite (String_eqb_false _ _ Hrepo). cbn [negb].
  assert (provider.GetLLM
            (main.registerProviders chatAnthropic chatOpenAI chatGemini
               geminiError cfg provider.NewRegistry) "anthropic"
          = if String.eqb (config.AnthropicAPIKey cfg) "" then inr "anthropic"
            else inl (main.NewAnthropicProvider chatAnthropic
                        (config.AnthropicAPIKey cfg))) as Hreg.
  { unfold main.registerProviders, provider.GetLLM, provider.RegisterLLM,
      main.NewGeminiProvider.
    destruct (String.eqb (config.AnthropicAPIKey cfg) "");
      destruct (String.eqb (config.OpenAIAPIKey cfg) "");
      destruct (String.eqb (config.GeminiAPIKey cfg) "");
      try destruct (geminiError _); simpl;
      rewrite ?lookup_insert_ne by done;
      rewrite ?lookup_insert_eq, ?lookup_empty; done. }
  destruct (String.eqb_spec (config.GitHubToken cfg) "") as [Et|Et];
    destruct (String.eqb_spec (config.GitHubOwner cfg) "") as [Eo|Eo];
    destruct (String.eqb_spec (config.GitHubRepo cfg) "") as [Er|Er];
    cbn [negb andb];
    try destruct (CloneOrOpen _) as [err|] eqn:Ec; cbn;
    (split; [done|]); (split; [done|]);
    (split; [symmetry; first [by apply bool_decide_eq_true_2
                             | apply bool_decide_eq_false_2; intros (?&?&?&?);
                               congruence]|]);
    (split; [done | exact Hreg]).
Qed.

End WiringProofs.

(** * The rate limiter *)

Lemma wrap_id (z : Z) : (- 2 ^ 63 <= z < 2 ^ 63)%Z -> api.wrap z = z.
Proof. intros H. unfold api.wrap. rewrite Z.mod_small; lia. Qed.

Lemma saturate_range (z : Z) : (- 2 ^ 63 <= api.saturate z < 2 ^ 63)%Z.
Proof. unfold api.saturate, api.minInt, api.maxInt. lia. Qed.

Lemma saturate_le (z b : Z) :
  (z < b)%Z -> (0 < b)%Z -> (api.saturate z < b)%Z.
Proof. unfold api.saturate, api.minInt, api.maxInt. lia. Qed.

(** The refill computed for an elapsed time, when the parameters leave
    room for it. *)
Lemma refill_range (elapsed window rate : Z) :
  (0 < window)%Z -> (0 <= rate)%Z ->
  (rate * (2 ^ 63 / window + 1) < 2 ^ 62)%Z ->
  (- 2 ^ 63 <= elapsed < 2 ^ 63)%Z ->
  (- 2 ^ 62 < Z.quot elapsed window * rate < 2 ^ 62)%Z
  /\ (elapsed < window -> Z.quot elapsed window * rate <= 0)%Z.
Proof.
  intros Hw Hr Hb He.
  assert (- (2 ^ 63 / window + 1) < Z.quot elapsed window
          < 2 ^ 63 / window + 1)%Z as Hq.
  { destruct (Z.le_gt_cases 0 elapsed) as [Hpos|Hneg].
    - rewrite Z.quot_div_nonneg by lia.
      assert (elapsed / window <= 2 ^ 63 / window)%Z
        by (apply Z.div_le_mono; lia).
      assert (0 <= elapsed / window)%Z by (apply Z.div_pos; lia).
      assert (0 <= 2 ^ 63 / window)%Z by (apply Z.div_pos; lia). lia.
    - replace elapsed with (- (- elapsed))%Z by lia.
      rewrite Z.quot_opp_l by lia. rewrite Z.quot_div_nonneg by lia.
      assert (- elapsed / window <= 2 ^ 63 / window)%Z
        by (apply Z.div_le_mono; lia).
      assert (0 <= - elapsed / window)%Z by (apply Z.div_pos; lia).
      assert (0 <= 2 ^ 63 / window)%Z by (apply Z.div_pos; lia). lia. }
  split; [nia|]. intros Hlt.
  assert (Z.quot elapsed window <= 0)%Z; [|nia].
  destruct (Z.le_gt_cases 0 elapsed) as [Hpos|Hneg].
  - rewrite Z.quot_small by lia. lia.
  - replace elapsed with (- (- elapsed))%Z by lia.
    rewrite Z.quot_opp_l by lia. rewrite Z.quot_div_nonneg by lia.
    assert (0 <= - elapsed / window)%Z by (apply Z.div_pos; lia). lia.
Qed.

(** X26. [allow] keeps every bucket between empty and full. For a
    limiter with a positive window and a rate and burst that leave room
    in a 64-bit integer, as the one of the router has, a call never
    panics, never changes the parameters or the bucket of another key,
    and leaves the bucket of its key with between 0 and [burst]
    tokens. *)
Theorem allow_keeps_buckets_in_range
    (rl : api.RateLimiter) (key : string) (now : api.readings) :
  (0 < api.window rl)%Z ->
  (0 <= api.rate rl)%Z ->
  (0 <= api.burst rl < 2 ^ 62)%Z ->
  (api.rate rl * (2 ^ 63 / api.window rl + 1) < 2 ^ 62)%Z ->
  (forall k b, api.buckets rl !! k = Some b ->
     (0 <= api.tokens b <= api.burst rl)%Z) ->
  exists rl' ok,
    api.allow rl key now = Some (rl', ok)
    /\ api.rate rl' = api.rate rl
    /\ api.burst rl' = api.burst rl
    /\ api.window rl' = api.window rl
    /\ (forall k b, api.buckets rl' !! k = Some b ->
          (0 <= api.tokens b <= api.burst rl)%Z)
    /\ (forall k, k <> key -> api.buckets rl' !! k = api.buckets rl !! k)
    /\ is_Some (api.buckets rl' !! key).
Proof.
  intros Hw Hr Hb Hroom Hinv. unfold api.allow.
  destruct (Z.eqb_spec (api.window rl) 0) as [|_]; [lia|].
  set (b := match api.buckets rl !! key with
            | Some b => b
            | None => api.mkBucket (api.burst rl) (api.atCreate now)
            end).
  assert (0 <= api.tokens b <= api.burst rl)%Z as Hb0.
  { unfold b. destruct (api.buckets rl !! key) as [b0|] eqn:E.
    - by eapply Hinv.
    - simpl. lia. }
  set (elapsed := api.saturate (api.atSince now - api.lastFill b)).
  destruct (refill_range elapsed (api.window rl) (api.rate rl) Hw Hr Hroom
              (saturate_range _)) as [Hrange _].
  rewrite (wrap_id (Z.quot elapsed (api.window rl) * api.rate rl)) by lia.
  set (refill := (Z.quot elapsed (api.window rl) * api.rate rl)%Z) in *.
  set (b1 := if (0 <? refill)%Z then _ else b).
  assert (0 <= api.tokens b1 <= api.burst rl)%Z as Hb1.
  { unfold b1. destruct (Z.ltb_spec 0 refill); [|done]. simpl.
    rewrite wrap_id by lia.
    destruct (Z.ltb_spec (api.burst rl) (api.tokens b + refill)); lia. }
  clearbody b1. clear Hb0 Hrange. clearbody refill.
  destruct (Z.leb_spec (api.tokens b1) 0) as [Hz|Hpos];
    eexists _, _; (split; [done|]); simpl;
    (split; [done|]); (split; [done|]); (split; [done|]).
  - split; [|split].
    + intros k b' Hk. destruct (decide (k = key)) as [->|Hne].
      * rewrite lookup_insert_eq in Hk. by injection Hk as <-.
      * rewrite lookup_insert_ne in Hk by done. by eapply Hinv.
    + intros k Hne. by rewrite lookup_insert_ne.
    + rewrite lookup_insert_eq. eauto.
  - split; [|split].
    + intros k b' Hk. destruct (decide (k = key)) as [->|Hne].
      * rewrite lookup_insert_eq in Hk. injection Hk as <-. simpl.
        rewrite wrap_id by lia. lia.
      * rewrite lookup_insert_ne in Hk by done. by eapply Hinv.
    + intros k Hne. by rewrite lookup_insert_ne.
    + rewrite lookup_insert_eq. eauto.
Qed.


Lemma allow_no_refill (rl : api.RateLimiter) (key : string)
    (now : api.readings) (b : api.bucket) :
  (0 < api.window rl)%Z ->
  (0 <= api.rate rl)%Z ->
  (api.rate rl * (2 ^ 63 / api.window rl + 1) < 2 ^ 62)%Z ->
  (0 <= api.tokens b < 2 ^ 62)%Z ->
  match api.buckets rl !! key with
  | Some b' => b' = b
  | None => b = api.mkBucket (api.burst rl) (api.atCreate now)
  end ->
  (api.atSince now - api.lastFill b < api.window rl)%Z ->
  api.allow rl key now
  = Some (api.mkRateLimiter
            (<[key := api.mkBucket
                        (if (0 <? api.tokens b)%Z then api.tokens b - 1
                         else api.tokens b)
                        (api.lastFill b)]> (api.buckets rl))
            (api.rate rl) (api.burst rl) (api.window rl),
          (0 <? api.tokens b)%Z).
Proof.
  intros Hw Hr Hroom Hb Hstart Hel. unfold api.allow.
  destruct (Z.eqb_spec (api.window rl) 0) as [|_]; [lia|].
  assert (match api.buckets rl !! key with
          | Some b' => b'
          | None => api.mkBucket (api.burst rl) (api.atCreate now)
          end = b) as ->.
  { by destruct (api.buckets rl !! key). }
  set (elapsed := api.saturate (api.atSince now - api.lastFill b)).
  assert (elapsed < api.window rl)%Z as Hlt by by apply saturate_le.
  destruct (refill_range elapsed (api.window rl) (api.rate rl) Hw Hr Hroom
              (saturate_range _)) as [Hrange Hno].
  specialize (Hno Hlt).
  rewrite (wrap_id (Z.quot elapsed (api.window rl) * api.rate rl)) by lia.
  destruct (Z.ltb_spec 0 (Z.quot elapsed (api.window rl) * api.rate rl));
    [lia|].
  destruct (Z.leb_spec (api.tokens b) 0), (Z.ltb_spec 0 (api.tokens b));
    try lia.
  - by destruct b.
  - by rewrite wrap_id by lia.
Qed.

Lemma allows_no_refill (rl : api.RateLimiter) (key : string)
    (nows : list api.readings) (b : api.bucket) :
  (0 < api.window rl)%Z ->
  (0 <= api.rate rl)%Z ->
  (api.rate rl * (2 ^ 63 / api.window rl + 1) < 2 ^ 62)%Z ->
  (0 <= api.tokens b < 2 ^ 62)%Z ->
  api.buckets rl !! key = Some b ->
  Forall (fun now => (api.atSince now - api.lastFill b < api.window rl)%Z)
    nows ->
  exists rl',
    api.allows rl key nows
    = Some (rl',
            replicate (length nows `min` Z.to_nat (api.tokens b)) true
            ++ replicate (length nows - Z.to_nat (api.tokens b)) false).
Proof.
  intros Hw Hr Hroom Hb Hk Hall. revert rl b Hw Hr Hroom Hb Hk Hall.
  induction nows as [|now nows IH]; intros rl b Hw Hr Hroom Hb Hk Hall.
  - eexists. done.
  - inversion Hall as [|? ? Hnow Hrest]; subst. cbn [api.allows].
    rewrite (allow_no_refill rl key now b) by (done || by rewrite Hk).
    cbn [mbind option_bind].
    set (b1 := api.mkBucket _ _).
    set (rl1 := api.mkRateLimiter _ _ _ _).
    destruct (IH rl1 b1) as [rl' Hrl']; try done.
    { unfold b1. simpl. destruct (0 <? api.tokens b)%Z eqn:E; lia. }
    { unfold rl1. simpl. by rewrite lookup_insert_eq. }
    rewrite Hrl'. cbn [mbind option_bind]. eexists. f_equal. f_equal.
    unfold b1. simpl. destruct (Z.ltb_spec 0 (api.tokens b)) as [Hpos|Hz].
    + replace (Z.to_nat (api.tokens b)) with (S (Z.to_nat (api.tokens b - 1)))
        by lia.
      done.
    + replace (api.tokens b) with 0%Z by lia. simpl.
      by rewrite Nat.min_0_r, Nat.sub_0_r.
Qed.

(** X27. One burst, then refusal. As long as less than one window has
    passed since the bucket of a client was last filled, and the bucket
    is not deleted meanwhile, no call of [allow] refills it: of the
    requests of the client in that time, as many pass as the bucket holds
    tokens, which is at most [burst] and exactly [burst] for a client the
    limiter has not seen, and every further request is refused. *)
Theorem burst_then_refused
    (rl : api.RateLimiter) (key : string) (nows : list api.readings)
    (b : api.bucket) :
  (0 < api.window rl)%Z ->
  (0 <= api.rate rl)%Z ->
  (api.rate rl * (2 ^ 63 / api.window rl + 1) < 2 ^ 62)%Z ->
  (0 <= api.tokens b < 2 ^ 62)%Z ->
  match api.buckets rl !! key with
  | Some b' => b' = b
  | None =>
      api.tokens b = api.burst rl
      /\ Forall (fun now => api.atCreate now = api.lastFill b) (take 1 nows)
  end ->
  Forall (fun now => (api.atSince now - api.lastFill b < api.window rl)%Z)
    nows ->
  exists rl',
    api.allows rl key nows
    = Some (rl',
            replicate (length nows `min` Z.to_nat (api.tokens b)) true
            ++ replicate (length nows - Z.to_nat (api.tokens b)) false).
Proof.
  intros Hw Hr Hroom Hb Hstart Hall.
  destruct nows as [|now nows]; [eexists; done|].
  inversion Hall as [|? ? Hnow Hrest]; subst.
  cbn [api.allows].
  rewrite (allow_no_refill rl key now b); try done.
  2: { destruct (api.buckets rl !! key); [done|].
       destruct Hstart as [Ht Hc]. simpl in Hc.
       apply Forall_cons_1 in Hc as [Hc _]. destruct b. simpl in *.
       by subst. }
  cbn [mbind option_bind].
  set (b1 := api.mkBucket _ _).
  set (rl1 := api.mkRateLimiter _ _ _ _).
  destruct (allows_no_refill rl1 key nows b1) as [rl' Hrl']; try done.
  { unfold b1. simpl. destruct (0 <? api.tokens b)%Z eqn:E; lia. }
  { unfold rl1. simpl. by rewrite lookup_insert_eq. }
  rewrite Hrl'. cbn [mbind option_bind]. eexists. f_equal. f_equal.
  unfold b1. simpl. destruct (Z.ltb_spec 0 (api.tokens b)) as [Hpos|Hz].
  - replace (Z.to_nat (api.tokens b)) with (S (Z.to_nat (api.tokens b - 1)))
      by lia.
    done.
  - replace (api.tokens b) with 0%Z by lia. simpl.
    by rewrite Nat.min_0_r, Nat.sub_0_r.
Qed.

(** * Configuration and rate limiter on examples *)

Lemma allow_keeps_buckets_in_range_witness :
  exists rl' ok,
    api.allow (api.NewRateLimiter 10 30 api.Second) "10.0.0.7:51234"
      (api.mkReadings 5 5 5)
    = Some (rl', ok)
    /\ is_Some (api.buckets rl' !! "10.0.0.7:51234").
Proof.
  destruct (allow_keeps_buckets_in_range
              (api.NewRateLimiter 10 30 api.Second) "10.0.0.7:51234"
              (api.mkReadings 5 5 5))
    as (rl' & ok & H & _ & _ & _ & _ & _ & Hk).
  - reflexivity.
  - simpl. lia.
  - simpl. lia.
  - vm_compute. reflexivity.
  - intros k b Hk. simpl in Hk. by rewrite lookup_empty in Hk.
  - exists rl', ok. split; [exact H | exact Hk].
Defined.

Lemma burst_then_refused_witness :
  exists rl',
    api.allows (api.NewRateLimiter 10 30 api.Second) "10.0.0.7:51234"
      (replicate 32 (api.mkReadings 5 5 5))
    = Some (rl', replicate 30 true ++ replicate 2 false).
Proof.
  destruct (burst_then_refused
              (api.NewRateLimiter 10 30 api.Second) "10.0.0.7:51234"
              (replicate 32 (api.mkReadings 5 5 5)) (api.mkBucket 30 5))
    as [rl' H].
  - reflexivity.
  - simpl. lia.
  - vm_compute. reflexivity.
  - simpl. lia.
  - simpl. split; [reflexivity|]. repeat constructor.
  - repeat constructor.
  - exists rl'. exact H.
Defined.


Import json utf8 scanner.
(** * The scanner *)



Lemma skipSpace_cons (c : ascii) (t : bytes) :
  isSpace c = false -> skipSpace (c :: t) = c :: t.
Proof. intros H. simpl. by rewrite H. Qed.

Lemma spaces_cons (c : ascii) (t : bytes) :
  isSpace c = false -> spaces (c :: t) = [].
Proof. intros H. simpl. by rewrite H. Qed.

Lemma ws_cons (m : mode) (c : ascii) (t : bytes) :
  isSpace c = false -> ws m (c :: t) = [].
Proof. intros H. destruct m; [by apply spaces_cons | done]. Qed.

Lemma ws_Compact (s : bytes) : ws Compact s = [].
Proof. done. Qed.

Lemma digits_split (s ds r : bytes) :
  digits s = (ds, r) -> s = ds ++ r /\ Forall (fun c => isDigit c = true) ds.
Proof.
  revert ds r. induction s as [|c s IH]; intros ds r H; simpl in H.
  - by simplify_eq.
  - destruct (isDigit c) eqn:E.
    + destruct (digits s) as [ds' r'] eqn:E'. simplify_eq.
      destruct (IH _ _ eq_refl) as [-> ?]. split; [done|]. by constructor.
    + by simplify_eq.
Qed.

Lemma stops_not_digit (c : ascii) (t : bytes) :
  stops (c :: t) = true -> isDigit c = false.
Proof.
  unfold stops. destruct (isDigit c) eqn:E; [|done].
  intros H. exfalso. revert E H. unfold isDigit, oneOf. simpl.
  repeat (destruct (Ascii.eqb c _); [done|]). done.
Qed.

Lemma digits_app (ds t : bytes) :
  Forall (fun c => isDigit c = true) ds -> stops t = true ->
  digits (ds ++ t) = (ds, t).
Proof.
  intros Hds Ht. induction Hds as [|c ds Hc _ IH]; simpl.
  - destruct t as [|c t]; [done|]. simpl. by rewrite (stops_not_digit _ _ Ht).
  - by rewrite Hc, IH.
Qed.

Lemma digits_app_any (ds t : bytes) (c : ascii) :
  Forall (fun c => isDigit c = true) ds -> isDigit c = false ->
  digits (ds ++ c :: t) = (ds, c :: t).
Proof.
  intros Hds Hc. induction Hds as [|c' ds Hc' _ IH]; simpl.
  - by rewrite Hc.
  - by rewrite Hc', IH.
Qed.



Ltac ascii_cases c := destruct c as [[] [] [] [] [] [] [] []].

Lemma oneOf_digit_classes (c : ascii) :
  isDigit c = true ->
  oneOf c "-" = false /\ oneOf c "+-" = false /\ oneOf c "eE" = false
  /\ Ascii.eqb c "." = false /\ isSpace c = false
  /\ Ascii.eqb c "{" = false /\ Ascii.eqb c "[" = false
  /\ Ascii.eqb c dquote = false /\ Ascii.eqb c "t" = false
  /\ Ascii.eqb c "f" = false /\ Ascii.eqb c "n" = false.
Proof. ascii_cases c; try discriminate; done. Qed.

Lemma stops_headNot (t : bytes) :
  stops t = true ->
  headNot "0123456789" t = true /\ headNot "." t = true
  /\ headNot "eE" t = true /\ headNot "+-" t = true.
Proof.
  destruct t as [|c t]; [done|]. unfold stops, headNot.
  ascii_cases c; try discriminate; done.
Qed.

Lemma digits_app_head (ds X : bytes) :
  Forall (fun c => isDigit c = true) ds -> headNot "0123456789" X = true ->
  digits (ds ++ X) = (ds, X).
Proof.
  intros Hds HX. induction Hds as [|c' ds Hc' _ IH]; simpl.
  - destruct X as [|c X]; [done|]. simpl in *. fold (isDigit c) in HX.
    by destruct (isDigit c).
  - by rewrite Hc', IH.
Qed.

Lemma digits_rest_head (s ds r : bytes) :
  digits s = (ds, r) -> headNot "0123456789" r = true.
Proof.
  revert ds r. induction s as [|c s IH]; intros ds r H; simpl in H.
  - by simplify_eq.
  - destruct (isDigit c) eqn:E.
    + destruct (digits s) as [ds' r'] eqn:E'. simplify_eq. by eapply IH.
    + simplify_eq. simpl. fold (isDigit c). by rewrite E.
Qed.

Lemma headNot_dot (c : ascii) (X : bytes) :
  headNot "." (c :: X) = true -> Ascii.eqb c "." = false.
Proof.
  unfold headNot, oneOf. simpl. rewrite orb_false_r. by intros ?%negb_true_iff.
Qed.

Lemma headNot_cons (set : string) (c : ascii) (X : bytes) :
  headNot set (c :: X) = true -> oneOf c set = false.
Proof. unfold headNot. by intros ?%negb_true_iff. Qed.

#[local] Arguments digits : simpl never.

Lemma intPart_spec (s o r : bytes) :
  intPart s = Some (o, r) ->
  s = o ++ r
  /\ (exists c o', o = c :: o' /\ isDigit c = true)
  /\ forall X, headNot "0123456789" X = true -> intPart (o ++ X) = Some (o, X).
Proof.
  destruct s as [|c t]; [done|]. simpl.
  destruct (Ascii.eqb c "0") eqn:E0.
  - intros [= <- <-]. apply Ascii.eqb_eq in E0 as ->. split; [done|].
    split; [by eexists _, _|]. done.
  - destruct (isDigit c) eqn:Ed; [|done].
    destruct (digits t) as [ds r'] eqn:E. intros [= <- <-].
    destruct (digits_split _ _ _ E) as [-> Hds]. split; [done|].
    split; [by eexists _, _|]. intros X HX. simpl.
    by rewrite E0, Ed, digits_app_head.
Qed.

Lemma fracPart_spec (s o r : bytes) :
  fracPart s = Some (o, r) ->
  s = o ++ r
  /\ (o = [] \/ exists o', o = "."%char :: o')
  /\ forall X, headNot "0123456789" X = true -> headNot "." X = true ->
       fracPart (o ++ X) = Some (o, X).
Proof.
  destruct s as [|c t].
  { intros [= <- <-]. split; [done|]. split; [by left|]. intros [|c X] _ H; [done|].
    simpl. by rewrite (headNot_dot _ _ H). }
  simpl. destruct (Ascii.eqb c ".") eqn:E0.
  - apply Ascii.eqb_eq in E0 as ->.
    destruct (digits t) as [[|d ds] r'] eqn:E; [done|]. intros [= <- <-].
    destruct (digits_split _ _ _ E) as [-> Hds]. split; [done|].
    split; [right; by eexists|]. intros X HX _. simpl.
    change (d :: ds ++ X) with ((d :: ds) ++ X).
    rewrite (digits_app_head (d :: ds) X) by done. done.
  - intros [= <- <-]. split; [done|]. split; [by left|].
    intros [|c' X] _ H; [done|]. simpl. by rewrite (headNot_dot _ _ H).
Qed.

Lemma optional_spec (set : string) (s o r : bytes) :
  optional set s = (o, r) ->
  s = o ++ r
  /\ forall X, (o = [] -> headNot set X = true) -> optional set (o ++ X) = (o, X).
Proof.
  destruct s as [|c t]; simpl.
  - intros [= <- <-]. split; [done|]. intros [|c X] H; [done|]. simpl.
    by rewrite (headNot_cons _ _ _ (H eq_refl)).
  - destruct (oneOf c set) eqn:E; intros [= <- <-].
    + split; [done|]. intros X _. simpl. by rewrite E.
    + split; [done|]. intros [|c' X] H; [done|]. simpl.
      by rewrite (headNot_cons _ _ _ (H eq_refl)).
Qed.

Lemma expPart_spec (s o r : bytes) :
  expPart s = Some (o, r) ->
  s = o ++ r
  /\ (o = [] \/ exists c o', o = c :: o' /\ oneOf c "eE" = true)
  /\ forall X, stops X = true -> expPart (o ++ X) = Some (o, X).
Proof.
  destruct s as [|c t].
  { intros [= <- <-]. split; [done|]. split; [by left|]. intros [|c X] H; [done|].
    destruct (stops_headNot _ H) as (_ & _ & H' & _). simpl.
    by rewrite (headNot_cons _ _ _ H'). }
  simpl. destruct (oneOf c "eE") eqn:E0.
  - destruct (optional "+-" t) as [sg t1] eqn:Es.
    destruct (digits t1) as [[|d ds] r'] eqn:E; [done|]. intros [= <- <-].
    destruct (optional_spec _ _ _ _ Es) as [-> Hopt].
    destruct (digits_split _ _ _ E) as [-> Hds].
    split; [simpl; by rewrite <- ?app_assoc|].
    split; [right; by eexists _, _|]. intros X HX. simpl. rewrite E0.
    rewrite <- app_assoc. rewrite Hopt.
    + destruct (stops_headNot _ HX) as (H1 & _).
      rewrite (digits_app_head (d :: ds) X) by done. done.
    + intros _. simpl. inversion Hds as [|? ? Hd _]; subst.
      destruct (oneOf_digit_classes _ Hd) as (_ & -> & _). done.
  - intros [= <- <-]. split; [done|]. split; [by left|].
    intros [|c' X] H; [done|].
    destruct (stops_headNot _ H) as (_ & _ & H' & _). simpl.
    by rewrite (headNot_cons _ _ _ H').
Qed.

Lemma number_spec (s o r : bytes) :
  number s = Some (o, r) ->
  s = o ++ r
  /\ (exists c o', o = c :: o' /\ (isDigit c = true \/ c = "-"%char))
  /\ forall X, stops X = true -> number (o ++ X) = Some (o, X).
Proof.
  unfold number. destruct (optional "-" s) as [sign s1] eqn:Es.
  destruct (intPart s1) as [[int s2]|] eqn:Ei; [|done]. simpl.
  destruct (fracPart s2) as [[frac s3]|] eqn:Ef; [|done]. simpl.
  destruct (expPart s3) as [[exp s4]|] eqn:Ee; [|done]. simpl.
  intros [= <- <-].
  destruct (optional_spec _ _ _ _ Es) as [-> Hopt].
  destruct (intPart_spec _ _ _ Ei) as (-> & (ci & int' & -> & Hci) & Hint).
  destruct (fracPart_spec _ _ _ Ef) as (-> & Hfrac_shape & Hfrac).
  destruct (expPart_spec _ _ _ Ee) as (-> & Hexp_shape & Hexp).
  split; [by rewrite <- !app_assoc|]. split.
  { destruct sign as [|c sign].
    - eexists _, _. split; [done|]. by left.
    - eexists _, _. split; [done|]. right.
      simpl in Es. destruct (oneOf c "-") eqn:E; [|simplify_eq].
      unfold oneOf in E. simpl in E. rewrite orb_false_r in E.
      by apply Ascii.eqb_eq in E. }
  intros X HX. destruct (stops_headNot _ HX) as (HX1 & HX2 & HX3 & HX4).
  rewrite <- !app_assoc. rewrite Hopt.
  2:{ intros _. simpl. destruct (oneOf_digit_classes _ Hci) as (-> & _). done. }
  assert (headNot "0123456789" (exp ++ X) = true /\ headNot "." (exp ++ X) = true)
    as [Hn1 Hn2].
  { destruct Hexp_shape as [->|(c & o' & -> & Hc)]; [done|]. simpl.
    clear -Hc. ascii_cases c; try discriminate; done. }
  rewrite Hint.
  2:{ destruct Hfrac_shape as [->|(o' & ->)]; [done|]. done. }
  simpl. rewrite Hfrac by done. simpl. by rewrite Hexp.
Qed.

(** ** String literals *)

Lemma stringBody_eq (m : mode) (c : ascii) (t : bytes) :
  stringBody m (c :: t) =
    let plain := '(o, r) ← stringBody m t; Some (c :: o, r) in
    if Ascii.eqb c dquote then Some ([c], t)
    else if Ascii.eqb c bslash then
      match t with
      | [] => None
      | e :: t1 =>
          if Ascii.eqb e dquote || Ascii.eqb e bslash || oneOf e "/bfnrt"
          then '(o, r) ← stringBody m t1; Some (c :: e :: o, r)
          else if Ascii.eqb e "u" then
            match t1 with
            | h1 :: h2 :: h3 :: h4 :: t2 =>
                if isHex h1 && isHex h2 && isHex h3 && isHex h4
                then '(o, r) ← stringBody m t2;
                     Some (c :: e :: h1 :: h2 :: h3 :: h4 :: o, r)
                else None
            | _ => None
            end
          else None
      end
    else if (N_of_ascii c <? 32)%N then None
    else
      match m with
      | Raw => plain
      | Compact =>
          if oneOf c "<>&"
          then '(o, r) ← stringBody m t; Some (escape00 c ++ o, r)
          else if (N_of_ascii c =? 0xE2)%N then
            match t with
            | c1 :: c2 :: t2 =>
                if (N_of_ascii c1 =? 0x80)%N
                   && ((N_of_ascii c2 =? 0xA8)%N || (N_of_ascii c2 =? 0xA9)%N)
                then '(o, r) ← stringBody m t2;
                     Some ([bslash; "u"; "2"; "0"; "2";
                            hex (N_of_ascii c2 mod 16)]%char ++ o, r)
                else plain
            | _ => plain
            end
          else plain
      end.
Proof. done. Qed.

#[local] Arguments stringBody : simpl never.

Lemma raw_plain (c : ascii) (x : bytes) :
  Ascii.eqb c dquote = false -> Ascii.eqb c bslash = false ->
  (N_of_ascii c <? 32)%N = false ->
  stringBody Raw (c :: x) = '(o, r) ← stringBody Raw x; Some (c :: o, r).
Proof. intros H1 H2 H3. by rewrite stringBody_eq, H1, H2, H3. Qed.

Lemma raw_escape (e : ascii) (x : bytes) :
  Ascii.eqb e dquote || Ascii.eqb e bslash || oneOf e "/bfnrt" = true ->
  stringBody Raw (bslash :: e :: x)
  = '(o, r) ← stringBody Raw x; Some (bslash :: e :: o, r).
Proof. intros H. rewrite stringBody_eq. simpl. by rewrite H. Qed.

Lemma raw_u (h1 h2 h3 h4 : ascii) (x : bytes) :
  isHex h1 && isHex h2 && isHex h3 && isHex h4 = true ->
  stringBody Raw (bslash :: "u"%char :: h1 :: h2 :: h3 :: h4 :: x)
  = '(o, r) ← stringBody Raw x;
    Some (bslash :: "u"%char :: h1 :: h2 :: h3 :: h4 :: o, r).
Proof. intros H. rewrite stringBody_eq. simpl. by rewrite H. Qed.

Lemma oneOf_html (c : ascii) :
  oneOf c "<>&" = true -> c = "<"%char \/ c = ">"%char \/ c = "&"%char.
Proof.
  unfold oneOf. simpl. rewrite orb_false_r.
  intros [->%Ascii.eqb_eq
         | [->%Ascii.eqb_eq | ->%Ascii.eqb_eq]%orb_true_iff]%orb_true_iff; auto.
Qed.

Lemma N_of_ascii_eq (c : ascii) (n : N) :
  (N_of_ascii c =? n)%N = true -> c = ascii_of_N n.
Proof. intros H%N.eqb_eq. by rewrite <- H, ascii_N_embedding. Qed.

Lemma stringBody_compact_raw (s o r : bytes) :
  stringBody Compact s = Some (o, r) ->
  forall t, stringBody Raw (o ++ t) = Some (o, t).
Proof.
  revert o r. induction s as [s IH] using (induction_ltof1 _ (@length _)).
  unfold ltof in IH. intros o r H t.
  destruct s as [|c s]; [done|]. rewrite stringBody_eq in H. cbv zeta in H.
  destruct (Ascii.eqb c dquote) eqn:Eq.
  { simplify_eq. simpl. by rewrite stringBody_eq, Eq. }
  destruct (Ascii.eqb c bslash) eqn:Eb.
  { apply Ascii.eqb_eq in Eb as ->. destruct s as [|e s1]; [done|].
    destruct (_ || _ || _) eqn:Ee.
    - destruct (stringBody Compact s1) as [[o' r']|] eqn:E1; [|done].
      simpl in H. simplify_eq. simpl. rewrite raw_escape by done.
      rewrite (IH s1 ltac:(simpl; lia) _ _ E1). done.
    - destruct (Ascii.eqb e "u") eqn:Eu; [|done].
      apply Ascii.eqb_eq in Eu as ->.
      destruct s1 as [|h1 [|h2 [|h3 [|h4 s2]]]]; try done.
      destruct (_ && _ && _ && _) eqn:Eh; [|done].
      destruct (stringBody Compact s2) as [[o' r']|] eqn:E1; [|done].
      simpl in H. simplify_eq. simpl. rewrite raw_u by done.
      rewrite (IH s2 ltac:(simpl; lia) _ _ E1). done. }
  destruct (N_of_ascii c <? 32)%N eqn:Ec; [done|].
  assert (forall o', stringBody Compact s = Some (o', r) ->
            stringBody Raw ((c :: o') ++ t) = Some (c :: o', t)) as Hplain.
  { intros o' E1. simpl. rewrite raw_plain by done.
    rewrite (IH s ltac:(simpl; lia) _ _ E1). done. }
  destruct (oneOf c "<>&") eqn:Eh.
  { destruct (stringBody Compact s) as [[o' r']|] eqn:E1; [|done].
    simpl in H. simplify_eq.
    pose proof (IH s ltac:(simpl; lia) _ _ E1 t) as IH1.
    destruct (oneOf_html _ Eh) as [-> | [-> | ->]];
      simpl; rewrite raw_u by done; by rewrite IH1. }
  destruct (N_of_ascii c =? 226)%N eqn:E2.
  2:{ destruct (stringBody Compact s) as [[o' r']|] eqn:E1; [|done].
      simpl in H. simplify_eq. by apply Hplain. }
  destruct s as [|c1 [|c2 s2]].
  1,2: destruct (stringBody Compact _) as [[o' r']|] eqn:E1; [|done];
       simpl in H; simplify_eq; by apply Hplain.
  destruct (_ && _) eqn:E3.
  2:{ destruct (stringBody Compact _) as [[o' r']|] eqn:E1; [|done].
      simpl in H. simplify_eq. by apply Hplain. }
  destruct (stringBody Compact s2) as [[o' r']|] eqn:E1; [|done].
  simpl in H. simplify_eq.
  pose proof (IH s2 ltac:(simpl; lia) _ _ E1 t) as IH1.
  apply andb_true_iff in E3 as [_ [E3|E3]%orb_true_iff];
    apply N_of_ascii_eq in E3 as ->;
    simpl; rewrite raw_u by done; by rewrite IH1.
Qed.

(** ** Values *)

Lemma value_eq (m : mode) (fuel' : nat) (depth : N) (c : ascii) (t : bytes) :
  value m (S fuel') depth (c :: t) =
    let s := c :: t in
    if Ascii.eqb c "{" then
      if (depth <? maxNestingDepth)%N then
        match skipSpace t with
        | c1 :: t1 =>
            if Ascii.eqb c1 "}" then Some (c :: ws m t ++ [c1], t1)
            else '(o, r) ← members m fuel' (N.succ depth) (skipSpace t);
                 Some (c :: ws m t ++ o, r)
        | [] => None
        end
      else None
    else if Ascii.eqb c "[" then
      if (depth <? maxNestingDepth)%N then
        match skipSpace t with
        | c1 :: t1 =>
            if Ascii.eqb c1 "]" then Some (c :: ws m t ++ [c1], t1)
            else '(o, r) ← elements m fuel' (N.succ depth) (skipSpace t);
                 Some (c :: ws m t ++ o, r)
        | [] => None
        end
      else None
    else if Ascii.eqb c dquote then
      '(o, r) ← stringBody m t; Some (c :: o, r)
    else if Ascii.eqb c "t" then literal (lit "true") s
    else if Ascii.eqb c "f" then literal (lit "false") s
    else if Ascii.eqb c "n" then literal (lit "null") s
    else number s.
Proof. done. Qed.

Lemma members_eq (m : mode) (fuel' : nat) (depth : N) (c : ascii) (t : bytes) :
  members m (S fuel') depth (c :: t) =
    if Ascii.eqb c dquote then
      '(k, r1) ← stringBody m t;
      match skipSpace r1 with
      | c2 :: r2 =>
          if Ascii.eqb c2 ":" then
            '(v, r3) ← value m fuel' depth (skipSpace r2);
            match skipSpace r3 with
            | c4 :: r4 =>
                if Ascii.eqb c4 "," then
                  '(o, r) ← members m fuel' depth (skipSpace r4);
                  Some (c :: k ++ ws m r1 ++ c2 :: ws m r2 ++ v
                          ++ ws m r3 ++ c4 :: ws m r4 ++ o, r)
                else if Ascii.eqb c4 "}" then
                  Some (c :: k ++ ws m r1 ++ c2 :: ws m r2 ++ v
                          ++ ws m r3 ++ [c4], r4)
                else None
            | [] => None
            end
          else None
      | [] => None
      end
    else None.
Proof. done. Qed.

Lemma elements_eq (m : mode) (fuel' : nat) (depth : N) (s : bytes) :
  elements m (S fuel') depth s =
    '(v, r1) ← value m fuel' depth s;
    match skipSpace r1 with
    | c2 :: r2 =>
        if Ascii.eqb c2 "," then
          '(o, r) ← elements m fuel' depth (skipSpace r2);
          Some (v ++ ws m r1 ++ c2 :: ws m r2 ++ o, r)
        else if Ascii.eqb c2 "]" then Some (v ++ ws m r1 ++ [c2], r2)
        else None
    | [] => None
    end.
Proof. done. Qed.

#[local] Arguments value : simpl never.
#[local] Arguments members : simpl never.
#[local] Arguments elements : simpl never.
#[local] Arguments number : simpl never.

Lemma literal_spec (l s o r : bytes) :
  literal l s = Some (o, r) ->
  o = l /\ s = l ++ r /\ forall t, literal l (l ++ t) = Some (l, t).
Proof.
  revert s o r. induction l as [|c l IH]; intros s o r H; simpl in H.
  - by simplify_eq.
  - destruct s as [|c' s]; [done|]. destruct (Ascii.eqb c c') eqn:E; [|done].
    apply Ascii.eqb_eq in E as <-.
    destruct (literal l s) as [[o' r']|] eqn:E'; [|done]. simpl in H. simplify_eq.
    destruct (IH _ _ _ E') as (-> & -> & Hl). split; [done|]. split; [done|].
    intros t. simpl. rewrite Ascii.eqb_refl, Hl. done.
Qed.



Lemma value_head (m : mode) (n : nat) (d : N) (s o r : bytes) :
  value m n d s = Some (o, r) ->
  exists c o', o = c :: o' /\ starts c = true.
Proof.
  destruct n as [|n]; [done|]. destruct s as [|c t]; [done|].
  rewrite value_eq. cbv zeta.
  destruct (Ascii.eqb c "{") eqn:E1.
  { apply Ascii.eqb_eq in E1 as ->. destruct (_ <? _)%N; [|done].
    destruct (skipSpace t) as [|c1 t1]; [done|].
    destruct (Ascii.eqb c1 "}"); [intros [= <- <-]; by eexists _, _|].
    destruct (members _ _ _ _) as [[o' r']|]; [|done]. simpl.
    intros [= <- <-]. by eexists _, _. }
  destruct (Ascii.eqb c "[") eqn:E2.
  { apply Ascii.eqb_eq in E2 as ->. destruct (_ <? _)%N; [|done].
    destruct (skipSpace t) as [|c1 t1]; [done|].
    destruct (Ascii.eqb c1 "]"); [intros [= <- <-]; by eexists _, _|].
    destruct (elements _ _ _ _) as [[o' r']|]; [|done]. simpl.
    intros [= <- <-]. by eexists _, _. }
  destruct (Ascii.eqb c dquote) eqn:E3.
  { apply Ascii.eqb_eq in E3 as ->.
    destruct (stringBody _ _) as [[o' r']|]; [|done]. simpl.
    intros [= <- <-]. by eexists _, _. }
  destruct (Ascii.eqb c "t") eqn:E4.
  { intros (-> & _ & _)%literal_spec. by eexists _, _. }
  destruct (Ascii.eqb c "f") eqn:E5.
  { intros (-> & _ & _)%literal_spec. by eexists _, _. }
  destruct (Ascii.eqb c "n") eqn:E6.
  { intros (-> & _ & _)%literal_spec. by eexists _, _. }
  intros (_ & (c' & o' & -> & Hc) & _)%number_spec.
  eexists _, _. split; [done|]. destruct Hc as [Hc| ->]; [|done].
  clear -Hc. ascii_cases c'; try discriminate; done.
Qed.

Lemma starts_spec (c : ascii) :
  starts c = true ->
  isSpace c = false /\ Ascii.eqb c "]" = false /\ Ascii.eqb c "}" = false.
Proof. ascii_cases c; try discriminate; done. Qed.

Lemma members_head (m : mode) (n : nat) (d : N) (s o r : bytes) :
  members m n d s = Some (o, r) -> exists o', o = dquote :: o'.
Proof.
  destruct n as [|n]; [done|]. destruct s as [|c t]; [done|].
  rewrite members_eq.
  destruct (Ascii.eqb c dquote) eqn:E; [|done]. apply Ascii.eqb_eq in E as ->.
  destruct (stringBody m t) as [[k r1]|]; [|done]. simpl.
  destruct (skipSpace r1) as [|c2 r2]; [done|].
  destruct (Ascii.eqb c2 ":"); [|done].
  destruct (value m n d _) as [[v r3]|]; [|done]. simpl.
  destruct (skipSpace r3) as [|c4 r4]; [done|].
  destruct (Ascii.eqb c4 ",").
  - destruct (members m n d _) as [[o' r']|]; [|done]. simpl.
    intros [= <- <-]. by eexists.
  - destruct (Ascii.eqb c4 "}"); [|done]. intros [= <- <-]. by eexists.
Qed.

Lemma elements_head (m : mode) (n : nat) (d : N) (s o r : bytes) :
  elements m n d s = Some (o, r) ->
  exists c o', o = c :: o' /\ starts c = true.
Proof.
  destruct n as [|n]; [done|]. rewrite elements_eq.
  destruct (value m n d s) as [[v r1]|] eqn:Ev; [|done].
  destruct (value_head _ _ _ _ _ _ Ev) as (c & v' & -> & Hc). simpl.
  destruct (skipSpace r1) as [|c2 r2]; [done|].
  destruct (Ascii.eqb c2 ",").
  - destruct (elements m n d _) as [[o2 r2']|]; [|done]. simpl.
    intros [= <- <-]. by eexists _, _.
  - destruct (Ascii.eqb c2 "]"); [|done]. intros [= <- <-]. by eexists _, _.
Qed.

Ltac norm := repeat (progress (simpl; rewrite <- ?app_assoc)).
Ltac norm_in H := repeat (progress (simpl in H; rewrite <- ?app_assoc in H)).

Lemma stops_delims (c : ascii) (t : bytes) :
  oneOf c ",]}" = true -> stops (c :: t) = true.
Proof.
  unfold oneOf. simpl. rewrite orb_false_r.
  intros [->%Ascii.eqb_eq
         | [->%Ascii.eqb_eq | ->%Ascii.eqb_eq]%orb_true_iff]%orb_true_iff; done.
Qed.

(** What the scan writes in [Compact] mode, it reads back in [Raw] mode as
    one value of the same extent. *)
Lemma compact_raw (n : nat) :
  (forall d s o r, value Compact n d s = Some (o, r) ->
     forall t, stops t = true -> value Raw n d (o ++ t) = Some (o, t))
  /\ (forall d s o r, members Compact n d s = Some (o, r) ->
        forall t, members Raw n d (o ++ t) = Some (o, t))
  /\ (forall d s o r, elements Compact n d s = Some (o, r) ->
        forall t, elements Raw n d (o ++ t) = Some (o, t)).
Proof.
  induction n as [|n (IHv & IHm & IHe)]; [done|].
  split; [|split].
  - intros d s o r H t Ht. destruct s as [|c s]; [done|].
    rewrite value_eq in H. cbv zeta in H.
    destruct (Ascii.eqb c "{") eqn:E1.
    { apply Ascii.eqb_eq in E1 as ->.
      destruct (d <? maxNestingDepth)%N eqn:Ed; [|done].
      destruct (skipSpace s) as [|c1 s1] eqn:Es; [done|].
      destruct (Ascii.eqb c1 "}") eqn:Ec1.
      - apply Ascii.eqb_eq in Ec1 as ->. simplify_eq. simpl.
        rewrite value_eq. cbv zeta. simpl. by rewrite Ed.
      - destruct (members Compact n (N.succ d) (c1 :: s1)) as [[o' r']|] eqn:Em;
          [|done].
        simpl in H. simplify_eq.
        destruct (members_head _ _ _ _ _ _ Em) as [o'' ->].
        pose proof (IHm _ _ _ _ Em t) as IH1.
        simpl. rewrite value_eq. cbv zeta. simpl. rewrite Ed.
        simpl in IH1. by rewrite IH1. }
    destruct (Ascii.eqb c "[") eqn:E2.
    { apply Ascii.eqb_eq in E2 as ->.
      destruct (d <? maxNestingDepth)%N eqn:Ed; [|done].
      destruct (skipSpace s) as [|c1 s1] eqn:Es; [done|].
      destruct (Ascii.eqb c1 "]") eqn:Ec1.
      - apply Ascii.eqb_eq in Ec1 as ->. simplify_eq. simpl.
        rewrite value_eq. cbv zeta. simpl. by rewrite Ed.
      - destruct (elements Compact n (N.succ d) (c1 :: s1)) as [[o' r']|] eqn:Em;
          [|done].
        simpl in H. simplify_eq.
        pose proof (IHe _ _ _ _ Em t) as IH1.
        destruct (elements_head _ _ _ _ _ _ Em) as (c & o'' & -> & Hc).
        destruct (starts_spec _ Hc) as (Hsp & Hbr & _).
        simpl. rewrite value_eq. cbv zeta. simpl. rewrite Ed, Hsp, Hbr.
        simpl in IH1. by rewrite IH1. }
    destruct (Ascii.eqb c dquote) eqn:E3.
    { destruct (stringBody Compact s) as [[o' r']|] eqn:Es; [|done].
      simpl in H. simplify_eq. simpl. rewrite value_eq. cbv zeta.
      rewrite E1, E2, E3. by rewrite (stringBody_compact_raw _ _ _ Es). }
    destruct (Ascii.eqb c "t") eqn:E4.
    { apply literal_spec in H as (-> & _ & Hl). apply Ascii.eqb_eq in E4 as ->.
      by rewrite <- Hl. }
    destruct (Ascii.eqb c "f") eqn:E5.
    { apply literal_spec in H as (-> & _ & Hl). apply Ascii.eqb_eq in E5 as ->.
      by rewrite <- Hl. }
    destruct (Ascii.eqb c "n") eqn:E6.
    { apply literal_spec in H as (-> & _ & Hl). apply Ascii.eqb_eq in E6 as ->.
      by rewrite <- Hl. }
    apply number_spec in H as (Hs & (c' & o' & -> & Hc) & Hn).
    simpl in Hs. injection Hs as <- _.
    simpl. rewrite value_eq. cbv zeta. rewrite E1, E2, E3, E4, E5, E6.
    by apply Hn.
  - intros d s o r H t. destruct s as [|c s]; [done|].
    rewrite members_eq in H.
    destruct (Ascii.eqb c dquote) eqn:E; [|done]. apply Ascii.eqb_eq in E as ->.
    destruct (stringBody Compact s) as [[k r1]|] eqn:Ek; [|done]. simpl in H.
    destruct (skipSpace r1) as [|c2 r2]; [done|].
    destruct (Ascii.eqb c2 ":") eqn:Ec2; [|done]. apply Ascii.eqb_eq in Ec2 as ->.
    destruct (value Compact n d (skipSpace r2)) as [[v r3]|] eqn:Ev; [|done].
    simpl in H.
    destruct (value_head _ _ _ _ _ _ Ev) as (cv & v' & -> & Hcv).
    destruct (starts_spec _ Hcv) as (Hsp & _ & _).
    destruct (skipSpace r3) as [|c4 r4]; [done|].
    destruct (Ascii.eqb c4 ",") eqn:Ec4.
    + apply Ascii.eqb_eq in Ec4 as ->.
      destruct (members Compact n d (skipSpace r4)) as [[o' r']|] eqn:Em; [|done].
      simpl in H. simplify_eq.
      destruct (members_head _ _ _ _ _ _ Em) as [o'' ->].
      pose proof (IHm _ _ _ _ Em t) as IH1.
      pose proof (IHv _ _ _ _ Ev ("," :: dquote :: o'' ++ t)%char eq_refl) as IH2.
      norm. rewrite members_eq. norm.
      rewrite (stringBody_compact_raw _ _ _ Ek). norm.
      rewrite Hsp. norm_in IH2. rewrite IH2. norm. norm_in IH1. by rewrite IH1.
    + destruct (Ascii.eqb c4 "}") eqn:Ec5; [|done]. apply Ascii.eqb_eq in Ec5 as ->.
      simplify_eq.
      pose proof (IHv _ _ _ _ Ev ("}" :: t)%char eq_refl) as IH2.
      norm. rewrite members_eq. norm.
      rewrite (stringBody_compact_raw _ _ _ Ek). norm.
      rewrite Hsp. norm_in IH2. by rewrite IH2.
  - intros d s o r H t. rewrite elements_eq in H.
    destruct (value Compact n d s) as [[v r1]|] eqn:Ev; [|done]. simpl in H.
    destruct (skipSpace r1) as [|c2 r2]; [done|].
    destruct (Ascii.eqb c2 ",") eqn:Ec2.
    + apply Ascii.eqb_eq in Ec2 as ->.
      destruct (elements Compact n d (skipSpace r2)) as [[o' r']|] eqn:Em; [|done].
      simpl in H. simplify_eq.
      destruct (elements_head _ _ _ _ _ _ Em) as (c & o'' & -> & Hc).
      destruct (starts_spec _ Hc) as (Hsp & _ & _).
      pose proof (IHe _ _ _ _ Em t) as IH1.
      pose proof (IHv _ _ _ _ Ev ("," :: c :: o'' ++ t)%char eq_refl) as IH2.
      rewrite elements_eq. norm. norm_in IH2.
      rewrite IH2. norm. rewrite Hsp. norm_in IH1. by rewrite IH1.
    + destruct (Ascii.eqb c2 "]") eqn:Ec3; [|done]. apply Ascii.eqb_eq in Ec3 as ->.
      simplify_eq.
      pose proof (IHv _ _ _ _ Ev ("]" :: t)%char eq_refl) as IH2.
      rewrite elements_eq. norm. norm_in IH2. by rewrite IH2.
Qed.

(** More fuel does not change a result. *)
Lemma fuel_mono (n : nat) :
  (forall m d s res, value m n d s = Some res ->
     forall n', n <= n' -> value m n' d s = Some res)
  /\ (forall m d s res, members m n d s = Some res ->
        forall n', n <= n' -> members m n' d s = Some res)
  /\ (forall m d s res, elements m n d s = Some res ->
        forall n', n <= n' -> elements m n' d s = Some res).
Proof.
  induction n as [|n (IHv & IHm & IHe)]; [done|].
  split; [|split].
  - intros m d s res H [|n'] Hn; [lia|]. destruct s as [|c s]; [done|].
    rewrite value_eq in *. cbv zeta in *.
    destruct (Ascii.eqb c "{").
    { destruct (_ <? _)%N; [|done]. destruct (skipSpace s) as [|c1 s1]; [done|].
      destruct (Ascii.eqb c1 "}"); [done|].
      destruct (members m n _ _) as [[o r]|] eqn:E; [|done].
      by rewrite (IHm _ _ _ _ E n') by lia. }
    destruct (Ascii.eqb c "[").
    { destruct (_ <? _)%N; [|done]. destruct (skipSpace s) as [|c1 s1]; [done|].
      destruct (Ascii.eqb c1 "]"); [done|].
      destruct (elements m n _ _) as [[o r]|] eqn:E; [|done].
      by rewrite (IHe _ _ _ _ E n') by lia. }
    done.
  - intros m d s res H [|n'] Hn; [lia|]. destruct s as [|c s]; [done|].
    rewrite members_eq in *.
    destruct (Ascii.eqb c dquote); [|done].
    destruct (stringBody m s) as [[k r1]|]; [|done]. simpl in *.
    destruct (skipSpace r1) as [|c2 r2]; [done|].
    destruct (Ascii.eqb c2 ":"); [|done].
    destruct (value m n d _) as [[v r3]|] eqn:Ev; [|done].
    rewrite (IHv _ _ _ _ Ev n') by lia. simpl in *.
    destruct (skipSpace r3) as [|c4 r4]; [done|].
    destruct (Ascii.eqb c4 ","); [|done].
    destruct (members m n d _) as [[o r]|] eqn:Em; [|done].
    by rewrite (IHm _ _ _ _ Em n') by lia.
  - intros m d s res H [|n'] Hn; [lia|].
    rewrite elements_eq in *.
    destruct (value m n d s) as [[v r1]|] eqn:Ev; [|done].
    rewrite (IHv _ _ _ _ Ev n') by lia. simpl in *.
    destruct (skipSpace r1) as [|c2 r2]; [done|].
    destruct (Ascii.eqb c2 ","); [|done].
    destruct (elements m n d _) as [[o r]|] eqn:Em; [|done].
    by rewrite (IHe _ _ _ _ Em n') by lia.
Qed.

(** A value accepted under a parse stack is accepted under a lower one. *)
Lemma depth_mono (n : nat) :
  (forall m d' s res, value m n d' s = Some res ->
     forall d, (d <= d')%N -> value m n d s = Some res)
  /\ (forall m d' s res, members m n d' s = Some res ->
        forall d, (d <= d')%N -> members m n d s = Some res)
  /\ (forall m d' s res, elements m n d' s = Some res ->
        forall d, (d <= d')%N -> elements m n d s = Some res).
Proof.
  induction n as [|n (IHv & IHm & IHe)]; [done|].
  split; [|split].
  - intros m d' s res H d Hd. destruct s as [|c s]; [done|].
    rewrite value_eq in *. cbv zeta in *.
    assert ((d' <? maxNestingDepth)%N = true -> (d <? maxNestingDepth)%N = true)
      as Hlt.
    { intros ?%N.ltb_lt. apply N.ltb_lt. lia. }
    destruct (Ascii.eqb c "{").
    { destruct (d' <? _)%N; [|done]. rewrite Hlt by done.
      destruct (skipSpace s) as [|c1 s1]; [done|].
      destruct (Ascii.eqb c1 "}"); [done|].
      destruct (members m n _ _) as [[o r]|] eqn:E; [|done].
      by rewrite (IHm _ _ _ _ E (N.succ d)) by lia. }
    destruct (Ascii.eqb c "[").
    { destruct (d' <? _)%N; [|done]. rewrite Hlt by done.
      destruct (skipSpace s) as [|c1 s1]; [done|].
      destruct (Ascii.eqb c1 "]"); [done|].
      destruct (elements m n _ _) as [[o r]|] eqn:E; [|done].
      by rewrite (IHe _ _ _ _ E (N.succ d)) by lia. }
    done.
  - intros m d' s res H d Hd. destruct s as [|c s]; [done|].
    rewrite members_eq in *.
    destruct (Ascii.eqb c dquote); [|done].
    destruct (stringBody m s) as [[k r1]|]; [|done]. simpl in *.
    destruct (skipSpace r1) as [|c2 r2]; [done|].
    destruct (Ascii.eqb c2 ":"); [|done].
    destruct (value m n d' _) as [[v r3]|] eqn:Ev; [|done].
    rewrite (IHv _ _ _ _ Ev d) by lia. simpl in *.
    destruct (skipSpace r3) as [|c4 r4]; [done|].
    destruct (Ascii.eqb c4 ","); [|done].
    destruct (members m n d' _) as [[o r]|] eqn:Em; [|done].
    by rewrite (IHm _ _ _ _ Em d) by lia.
  - intros m d' s res H d Hd.
    rewrite elements_eq in *.
    destruct (value m n d' s) as [[v r1]|] eqn:Ev; [|done].
    rewrite (IHv _ _ _ _ Ev d) by lia. simpl in *.
    destruct (skipSpace r1) as [|c2 r2]; [done|].
    destruct (Ascii.eqb c2 ","); [|done].
    destruct (elements m n d' _) as [[o r]|] eqn:Em; [|done].
    by rewrite (IHe _ _ _ _ Em d) by lia.
Qed.

Ltac decide_N :=
  repeat match goal with
         | |- context [(?a <? ?b)%N] => destruct (N.ltb_spec a b)
         | |- context [(?a <=? ?b)%N] => destruct (N.leb_spec a b)
         | |- context [(?a =? ?b)%N] => destruct (N.eqb_spec a b)
         | H : context [(?a <? ?b)%N] |- _ => destruct (N.ltb_spec a b)
         | H : context [(?a <=? ?b)%N] |- _ => destruct (N.leb_spec a b)
         | H : context [(?a =? ?b)%N] |- _ => destruct (N.eqb_spec a b)
         end; simpl in *.

Lemma DecodeRune_inv (c0 : ascii) (t : bytes) (r : N) (size : nat) :
  (0x80 <= N_of_ascii c0)%N ->
  DecodeRune (c0 :: t) = (r, size) ->
  (r =? RuneError)%N && (size =? 1)%nat = false ->
  exists bs rest, c0 :: t = bs ++ rest /\ length bs = size /\ wellFormed r bs.
Proof.
  intros H0 H Hv. unfold DecodeRune, RuneSelf, RuneError in *.
  destruct (N.ltb_spec (N_of_ascii c0) 128); [lia|].
  destruct (N.ltb_spec (N_of_ascii c0) 194);
    [simpl in H; simplify_eq; done|].
  destruct (N.ltb_spec 244 (N_of_ascii c0));
    [simpl in H; simplify_eq; done|].
  simpl in H.
  destruct t as [|c1 t1]; [simplify_eq; done|].
  destruct (N.ltb_spec (N_of_ascii c0) 224).
  { decide_N; simplify_eq; try done; try (exfalso; lia).
    all: exists [c0; c1], t1; split; [done|]; split; [done|].
    all: apply wellFormed2; [lia|lia|done]. }
  destruct t1 as [|c2 t2]; [simplify_eq; done|].
  destruct (N.ltb_spec (N_of_ascii c0) 240).
  { decide_N; simplify_eq; try done; try (exfalso; lia).
    all: exists [c0; c1; c2], t2; split; [done|]; split; [done|].
    all: apply wellFormed3; [lia|lia|lia|lia|lia|done]. }
  destruct t2 as [|c3 t3]; [simplify_eq; done|].
  decide_N; simplify_eq; try done; try (exfalso; lia).
  all: exists [c0; c1; c2; c3], t3; split; [done|]; split; [done|].
  all: apply wellFormed4; [lia|lia|lia|lia|lia|lia|done].
Qed.

Ltac Zify.zify_post_hook ::= Z.to_euclidean_division_equations.

Lemma wellFormed_Encode (r : N) (bs : bytes) :
  wellFormed r bs -> EncodeRune r = bs.
Proof.
  intros [c0 c1 H0 H1 ->|c0 c1 c2 H0 H1 Ha Hb H2 ->|c0 c1 c2 c3 H0 H1 Ha Hb H2 H3 ->];
    unfold EncodeRune, RuneError.
  - transitivity (map ascii_of_N (map N_of_ascii [c0; c1]));
      [|simpl; by rewrite !ascii_N_embedding].
    decide_N; try (exfalso; lia). repeat f_equal; lia.
  - transitivity (map ascii_of_N (map N_of_ascii [c0; c1; c2]));
      [|simpl; by rewrite !ascii_N_embedding].
    decide_N; try (exfalso; lia). all: repeat f_equal; lia.
  - transitivity (map ascii_of_N (map N_of_ascii [c0; c1; c2; c3]));
      [|simpl; by rewrite !ascii_N_embedding].
    decide_N; try (exfalso; lia). all: repeat f_equal; lia.
Qed.

Lemma wellFormed_Decode (r : N) (bs : bytes) :
  wellFormed r bs -> forall x, DecodeRune (bs ++ x) = (r, length bs).
Proof.
  intros [c0 c1 H0 H1 ->|c0 c1 c2 H0 H1 Ha Hb H2 ->|c0 c1 c2 c3 H0 H1 Ha Hb H2 H3 ->] x;
    simpl; unfold DecodeRune, RuneSelf, RuneError.
  - destruct (N.ltb_spec (N_of_ascii c0) 128); [lia|].
    destruct (N.ltb_spec (N_of_ascii c0) 194); [lia|].
    destruct (N.ltb_spec 244 (N_of_ascii c0)); [lia|]. simpl.
    destruct (N.ltb_spec (N_of_ascii c0) 224); [|lia].
    destruct (N.eqb_spec (N_of_ascii c0) 224); [lia|].
    destruct (N.eqb_spec (N_of_ascii c0) 240); [lia|].
    destruct (N.eqb_spec (N_of_ascii c0) 237); [lia|].
    destruct (N.eqb_spec (N_of_ascii c0) 244); [lia|].
    destruct (N.ltb_spec (N_of_ascii c1) 128); [lia|].
    destruct (N.ltb_spec 191 (N_of_ascii c1)); [lia|]. done.
  - destruct (N.ltb_spec (N_of_ascii c0) 128); [lia|].
    destruct (N.ltb_spec (N_of_ascii c0) 194); [lia|].
    destruct (N.ltb_spec 244 (N_of_ascii c0)); [lia|]. simpl.
    destruct (N.ltb_spec (N_of_ascii c0) 224); [lia|].
    destruct (N.ltb_spec (N_of_ascii c0) 240); [|lia].
    destruct (N.ltb_spec (N_of_ascii c2) 128); [lia|].
    destruct (N.ltb_spec 191 (N_of_ascii c2)); [lia|].
    destruct (N.eqb_spec (N_of_ascii c0) 240); [lia|].
    destruct (N.eqb_spec (N_of_ascii c0) 244); [lia|].
    destruct (N.eqb_spec (N_of_ascii c0) 224);
      destruct (N.eqb_spec (N_of_ascii c0) 237); try lia.
    all: match goal with
         | |- context [(?a <? ?b)%N || (?c <? ?d)%N] =>
             destruct (N.ltb_spec a b); [lia|];
             destruct (N.ltb_spec c d); [lia|]
         end; done.
  - destruct (N.ltb_spec (N_of_ascii c0) 128); [lia|].
    destruct (N.ltb_spec (N_of_ascii c0) 194); [lia|].
    destruct (N.ltb_spec 244 (N_of_ascii c0)); [lia|]. simpl.
    destruct (N.ltb_spec (N_of_ascii c0) 224); [lia|].
    destruct (N.ltb_spec (N_of_ascii c0) 240); [lia|].
    destruct (N.ltb_spec (N_of_ascii c2) 128); [lia|].
    destruct (N.ltb_spec 191 (N_of_ascii c2)); [lia|].
    destruct (N.ltb_spec (N_of_ascii c3) 128); [lia|].
    destruct (N.ltb_spec 191 (N_of_ascii c3)); [lia|].
    destruct (N.eqb_spec (N_of_ascii c0) 224); [lia|].
    destruct (N.eqb_spec (N_of_ascii c0) 237); [lia|].
    destruct (N.eqb_spec (N_of_ascii c0) 240);
      destruct (N.eqb_spec (N_of_ascii c0) 244); try lia.
    all: match goal with
         | |- context [(?a <? ?b)%N || (?c <? ?d)%N] =>
             destruct (N.ltb_spec a b); [lia|];
             destruct (N.ltb_spec c d); [lia|]
         end; done.
Qed.

Lemma wellFormed_high (r : N) (bs : bytes) :
  wellFormed r bs -> Forall (fun c => (0x80 <= N_of_ascii c)%N) bs /\ 2 <= length bs.
Proof.
  intros [c0 c1 H0 H1 ->|c0 c1 c2 H0 H1 Ha Hb H2 ->|c0 c1 c2 c3 H0 H1 Ha Hb H2 H3 ->];
    (split; [repeat constructor; lia | simpl; lia]).
Qed.

#[local] Arguments stringBody : simpl never.
#[local] Arguments value : simpl never.
#[local] Arguments members : simpl never.
#[local] Arguments elements : simpl never.

(** * The string encoder *)

Lemma safe_plain (c : ascii) :
  htmlSafe c = true ->
  Ascii.eqb c dquote = false /\ Ascii.eqb c bslash = false
  /\ (N_of_ascii c <? 32)%N = false.
Proof. ascii_cases c; vm_compute; try discriminate; auto. Qed.

Lemma raw_escapeByte (c : ascii) (x : bytes) :
  (N_of_ascii c <? 128)%N = true -> htmlSafe c = false ->
  stringBody Raw (escapeByte c ++ x)
  = '(o, r) ← stringBody Raw x; Some (escapeByte c ++ o, r).
Proof.
  ascii_cases c; (intros H1 H2; vm_compute in H1, H2; try discriminate);
    clear H1 H2;
    match goal with
    | |- context [escapeByte ?c] =>
        let e := eval vm_compute in (escapeByte c) in
        change (escapeByte c) with e
    end; cbn [app];
    (rewrite raw_escape by reflexivity) || (rewrite raw_u by reflexivity);
    reflexivity.
Qed.

Lemma unquote_escapeByte (c : ascii) (f : nat) (x : bytes) :
  (N_of_ascii c <? 128)%N = true -> htmlSafe c = false ->
  unquoteLoop (S f) (escapeByte c ++ x) = o ← unquoteLoop f x; Some (c :: o).
Proof.
  ascii_cases c; (intros H1 H2; vm_compute in H1, H2; try discriminate);
    reflexivity.
Qed.

Lemma unquote_safe (c : ascii) (f : nat) (x : bytes) :
  (N_of_ascii c <? 128)%N = true -> htmlSafe c = true ->
  unquoteLoop (S f) (c :: x) = o ← unquoteLoop f x; Some (c :: o).
Proof.
  ascii_cases c; (intros H1 H2; vm_compute in H1, H2; try discriminate);
    reflexivity.
Qed.

Lemma escapeByte_length (c : ascii) : 1 <= length (escapeByte c).
Proof.
  unfold escapeByte, escape00.
  repeat match goal with |- context [if ?b then _ else _] => destruct b end;
    simpl; lia.
Qed.

Lemma appendStringLoop_eq (fuel' : nat) (c : ascii) (t : bytes) :
  appendStringLoop (S fuel') (c :: t) =
    let src := c :: t in
    if (N_of_ascii c <? utf8.RuneSelf)%N then
      if htmlSafe c then c :: appendStringLoop fuel' t
      else escapeByte c ++ appendStringLoop fuel' t
    else
      let '(r, size) := utf8.DecodeRune src in
      if (r =? utf8.RuneError)%N && (size =? 1)%nat
      then lit "\ufffd" ++ appendStringLoop fuel' t
      else if (r =? 0x2028)%N || (r =? 0x2029)%N
      then lit "\u202" ++ hex (r mod 16)
             :: appendStringLoop fuel' (skipn size src)
      else firstn size src ++ appendStringLoop fuel' (skipn size src).
Proof. done. Qed.

Lemma appendStringLoop_nil (fuel : nat) : appendStringLoop fuel [] = [].
Proof. by destruct fuel. Qed.

Lemma appendStringLoop_0 (src : bytes) : appendStringLoop 0 src = [].
Proof. by destruct src. Qed.

#[local] Arguments appendStringLoop : simpl never.

Lemma high_plain (c : ascii) :
  (0x80 <= N_of_ascii c)%N ->
  Ascii.eqb c dquote = false /\ Ascii.eqb c bslash = false
  /\ (N_of_ascii c <? 32)%N = false /\ (N_of_ascii c <? 128)%N = false.
Proof.
  intros H. repeat split.
  - apply Ascii.eqb_neq. intros ->. vm_compute in H. by apply H.
  - apply Ascii.eqb_neq. intros ->. vm_compute in H. by apply H.
  - apply N.ltb_ge. lia.
  - apply N.ltb_ge. lia.
Qed.

Lemma raw_high (bs x : bytes) :
  Forall (fun c => (0x80 <= N_of_ascii c)%N) bs ->
  stringBody Raw (bs ++ x) = '(o, r) ← stringBody Raw x; Some (bs ++ o, r).
Proof.
  induction 1 as [|c bs Hc _ IH]; simpl.
  - by destruct (stringBody Raw x) as [[]|].
  - destruct (high_plain _ Hc) as (H1 & H2 & H3 & _).
    rewrite raw_plain, IH by done. by destruct (stringBody Raw x) as [[]|].
Qed.

Lemma DecodeRune_valid (c : ascii) (t : bytes) (r : N) (size : nat) :
  (N_of_ascii c <? 128)%N = false ->
  utf8.DecodeRune (c :: t) = (r, size) ->
  (r =? utf8.RuneError)%N && (size =? 1)%nat = false ->
  exists bs, utf8.wellFormed r bs /\ firstn size (c :: t) = bs
             /\ c :: t = bs ++ skipn size (c :: t) /\ length bs = size.
Proof.
  intros Hc%N.ltb_ge Hd Hv.
  destruct (DecodeRune_inv _ _ _ _ Hc Hd Hv) as (bs & rest & Heq & Hlen & Hwf).
  exists bs. rewrite Heq, <- Hlen.
  rewrite firstn_app, Nat.sub_diag, firstn_all, skipn_app, Nat.sub_diag,
    skipn_all. simpl. by rewrite !app_nil_r.
Qed.

(** The encoder writes the body of a string literal: read back, it ends at
    the quote that follows it. *)
Lemma stringBody_encoded (n : nat) (src t : bytes) :
  stringBody Raw (appendStringLoop n src ++ dquote :: t)
  = Some (appendStringLoop n src ++ [dquote], t).
Proof.
  revert src. induction n as [|n IH]; intros src.
  { rewrite appendStringLoop_0. simpl. by rewrite stringBody_eq. }
  destruct src as [|c src].
  { rewrite appendStringLoop_nil. simpl. by rewrite stringBody_eq. }
  rewrite appendStringLoop_eq. cbv zeta. unfold utf8.RuneSelf.
  destruct (N_of_ascii c <? 128)%N eqn:Ec.
  { destruct (htmlSafe c) eqn:Es.
    - destruct (safe_plain _ Es) as (H1 & H2 & H3). simpl.
      by rewrite raw_plain, IH by done.
    - rewrite <- app_assoc, raw_escapeByte, IH by done. simpl.
      by rewrite <- app_assoc. }
  destruct (utf8.DecodeRune (c :: src)) as [r size] eqn:Ed.
  destruct ((r =? utf8.RuneError)%N && (size =? 1)%nat) eqn:Ev.
  { simpl. rewrite raw_u, IH by done. done. }
  destruct (DecodeRune_valid _ _ _ _ Ec Ed Ev) as (bs & Hwf & -> & _ & _).
  destruct ((r =? 0x2028)%N || (r =? 0x2029)%N) eqn:Er.
  { apply orb_true_iff in Er as [->%N.eqb_eq | ->%N.eqb_eq];
      simpl; rewrite raw_u, IH by done; done. }
  destruct (wellFormed_high _ _ Hwf) as [Hhigh _].
  rewrite <- app_assoc, raw_high, IH by done. simpl. by rewrite <- app_assoc.
Qed.

(** ** [unquote] of what the encoder writes *)

Lemma unquote_high (c : ascii) (f : nat) (x : bytes) :
  (0x80 <= N_of_ascii c)%N ->
  unquoteLoop (S f) (c :: x)
  = let '(rr, size) := utf8.DecodeRune (c :: x) in
    o ← unquoteLoop f (skipn size (c :: x)); Some (utf8.EncodeRune rr ++ o).
Proof.
  intros H. destruct (high_plain _ H) as (H1 & H2 & H3 & H4).
  cbn [unquoteLoop]. unfold utf8.RuneSelf. by rewrite H1, H2, H3, H4.
Qed.

Lemma unquote_encoded (n : nat) (src : bytes) :
  utf8.ValidLoop n src = true ->
  forall f, length (appendStringLoop n src) <= f ->
  unquoteLoop f (appendStringLoop n src) = Some src.
Proof.
  revert src. induction n as [|n IH]; intros src Hv f Hf.
  { destruct src; [|done]. rewrite appendStringLoop_0. by destruct f. }
  destruct src as [|c src]; [rewrite appendStringLoop_nil; by destruct f|].
  rewrite appendStringLoop_eq in *. cbv zeta in *. unfold utf8.RuneSelf in *.
  cbn [utf8.ValidLoop] in Hv.
  destruct (utf8.DecodeRune (c :: src)) as [r size] eqn:Ed.
  destruct ((r =? utf8.RuneError)%N && (size =? 1)%nat) eqn:Ev; [done|].
  destruct (N_of_ascii c <? 128)%N eqn:Ec.
  { assert (size = 1 /\ True) as [-> _].
    { unfold utf8.DecodeRune, utf8.RuneSelf in Ed. rewrite Ec in Ed. by simplify_eq. }
    simpl in Hv. destruct (htmlSafe c) eqn:Es.
    - destruct f as [|f]; [simpl in Hf; lia|].
      rewrite unquote_safe by done. rewrite IH; [done|done|simpl in Hf; lia].
    - destruct f as [|f].
      { pose proof (escapeByte_length c). rewrite length_app in Hf. lia. }
      rewrite unquote_escapeByte by done.
      rewrite IH; [done|done|].
      pose proof (escapeByte_length c). rewrite length_app in Hf. lia. }
  destruct (DecodeRune_valid _ _ _ _ Ec Ed Ev) as (bs & Hwf & Hfirst & Hsplit & Hlen).
  rewrite Hfirst in *.
  destruct (wellFormed_high _ _ Hwf) as [Hhigh Hlen2].
  destruct ((r =? 0x2028)%N || (r =? 0x2029)%N) eqn:Er.
  { destruct f as [|f]; [simpl in Hf; lia|].
    assert (unquoteLoop (S f)
              (lit "\u202" ++ hex (r mod 16)
                 :: appendStringLoop n (skipn size (c :: src)))
            = o ← unquoteLoop f (appendStringLoop n (skipn size (c :: src)));
              Some (utf8.EncodeRune r ++ o)) as ->.
    { apply orb_true_iff in Er as [->%N.eqb_eq | ->%N.eqb_eq]; reflexivity. }
    rewrite IH; [|done|simpl in Hf; lia]. simpl.
    by rewrite (wellFormed_Encode _ _ Hwf), <- Hsplit. }
  destruct f as [|f]; [rewrite length_app in Hf; lia|].
  destruct bs as [|b bs]; [simpl in Hlen2; lia|].
  inversion Hhigh as [|? ? Hb _]; subst.
  cbn [app]. rewrite unquote_high by done.
  change (b :: bs ++ ?x) with ((b :: bs) ++ x).
  rewrite (wellFormed_Decode _ _ Hwf).
  rewrite skipn_app, Nat.sub_diag, skipn_all. simpl skipn. rewrite app_nil_l.
  rewrite drop_0. simpl in Hv, Hf.
  rewrite IH; [|done|rewrite length_app in Hf; simpl in Hf; lia]. simpl.
  rewrite (wellFormed_Encode _ _ Hwf). f_equal. simpl in Hsplit. symmetry. exact Hsplit.
Qed.

#[local] Arguments stringBody : simpl never.
#[local] Arguments value : simpl never.
#[local] Arguments members : simpl never.
#[local] Arguments elements : simpl never.
#[local] Arguments appendStringLoop : simpl never.
#[local] Arguments unquoteLoop : simpl never.
#[local] Arguments lit : simpl never.



Lemma objectFields_eq (fuel' : nat) (s : bytes) :
  objectFields (S fuel') s =
    match skipSpace s with
    | c :: t =>
        if Ascii.eqb c "}" then Some []
        else if Ascii.eqb c dquote then
          '(k, r1) ← stringBody Raw t;
          match skipSpace r1 with
          | c2 :: r2 =>
              if Ascii.eqb c2 ":" then
                '(v, r3) ← value Raw (S (length r2)) 1 (skipSpace r2);
                match skipSpace r3 with
                | c4 :: r4 =>
                    if Ascii.eqb c4 "," then
                      fs ← objectFields fuel' r4; Some ((c :: k, v) :: fs)
                    else Some [(c :: k, v)]
                | [] => None
                end
              else None
          | [] => None
          end
        else None
    | [] => None
    end.
Proof. done. Qed.

#[local] Arguments objectFields : simpl never.

Lemma stringBody_ascii_key (key : string) (t : bytes) :
  appendStringLoop (String.length key) (lit key) = lit key ->
  stringBody Raw (lit key ++ dquote :: t) = Some (lit key ++ [dquote], t).
Proof. intros H. rewrite <- H. apply stringBody_encoded. Qed.

Lemma value_string (n : nat) (d : N) (k : nat) (src t : bytes) :
  value Raw (S n) d (dquote :: appendStringLoop k src ++ dquote :: t)
  = Some (dquote :: appendStringLoop k src ++ [dquote], t).
Proof. rewrite value_eq. cbv zeta. simpl. by rewrite stringBody_encoded. Qed.

Lemma unquote_appendString (s : string) :
  utf8.ValidString s = true -> unquote (appendString s) = Some s.
Proof.
  intros Hv. unfold unquote, appendString. rewrite last_snoc. simpl.
  rewrite removelast_last.
  unfold utf8.ValidString, utf8.Valid in Hv.
  assert (length (String.list_ascii_of_string s) = String.length s) as Hlen.
  { clear. induction s as [|c s IH]; simpl; [done | by rewrite IH]. }
  rewrite Hlen in Hv. unfold lit.
  rewrite unquote_encoded; [|done|rewrite length_app; simpl; lia]. simpl.
  by rewrite String.string_of_list_ascii_of_string.
Qed.

Lemma Unmarshal_object (t : bytes) :
  checkValid ("{"%char :: t) = true ->
  Unmarshal ("{"%char :: t)
  = (fs ← objectFields (S (length t)) t;
     '(env, bad) ← foldl storeField (Some (mkEnvelope "" [], false)) fs;
     if bad : bool then None else Some env).
Proof. intros H. unfold Unmarshal. by rewrite H. Qed.

Section RoundTrip.
Variable ty : string.
Variable c : ascii.
Variable p' : bytes.
Hypothesis Hty : utf8.ValidString ty = true.
Hypothesis Hp : claims.compactValue (c :: p').

#[local] Abbreviation p := (c :: p').
#[local] Abbreviation body := (appendStringLoop (String.length ty) (lit ty)).
#[local] Abbreviation data :=
  ("{"%char :: dquote :: lit "type" ++ dquote :: ":"%char
    :: (dquote :: body ++ [dquote])
    ++ ","%char :: dquote :: lit "payload" ++ dquote :: ":"%char
    :: p ++ ["}"%char]).

Lemma payload_space : isSpace c = false.
Proof.
  destruct (value_head _ _ _ _ _ _ Hp) as (c' & o' & [= <- <-] & Hs).
  by destruct (starts_spec _ Hs).
Qed.

Lemma payload_compact : appendCompact p = Some p.
Proof.
  unfold appendCompact, scan. rewrite skipSpace_cons by apply payload_space.
  destruct (depth_mono (S (length p))) as (Hd & _).
  assert (value Compact (S (length p)) 0 p = Some (p, [])) as ->; [|done].
  eapply Hd; [exact Hp | lia].
Qed.

Lemma payload_raw (n : nat) (t : bytes) :
  S (length p) <= n -> stops t = true ->
  value Raw n 1 (p ++ t) = Some (p, t).
Proof.
  intros Hn Ht.
  destruct (compact_raw (S (length p))) as (Hc & _).
  destruct (fuel_mono (S (length p))) as (Hf & _).
  eapply Hf; [|done]. by eapply Hc.
Qed.

Lemma marshal_data : Marshal (mkEnvelope ty p) = Some data.
Proof.
  unfold Marshal. cbn [Payload Type_]. rewrite payload_compact.
  unfold appendString. simpl. f_equal. all: by rewrite <- ?app_assoc.
Qed.

Lemma data_valid : checkValid data = true.
Proof.
  unfold checkValid, scan.
  assert (value Raw (S (length data)) 0 (skipSpace data) = Some (data, []))
    as ->; [|done].
  destruct (fuel_mono (S (S (S (S (length p)))))) as (Hf & _).
  eapply Hf; [|unfold lit; repeat (progress (simpl; rewrite ?length_app)); lia].
  simpl skipSpace.
  rewrite value_eq. cbv zeta. simpl.
  rewrite members_eq. norm.
  rewrite value_string. norm.
  rewrite members_eq. norm.
  rewrite payload_space.
  change (c :: p' ++ ["}"%char]) with (p ++ ["}"%char]).
  rewrite payload_raw by (simpl; done || lia). simpl.
  by rewrite <- !app_assoc.
Qed.

Lemma data_fields :
  objectFields (length data) (tail data)
  = Some [(dquote :: lit "type" ++ [dquote], dquote :: body ++ [dquote]);
          (dquote :: lit "payload" ++ [dquote], p)].
Proof.
  assert (exists f, length data = S (S f)) as [f ->].
  { simpl. eexists. done. }
  simpl tail.
  rewrite objectFields_eq. norm.
  rewrite value_string. norm.
  rewrite objectFields_eq. norm.
  rewrite payload_space.
  change (c :: p' ++ ["}"%char]) with (p ++ ["}"%char]).
  rewrite payload_raw; [done| |done].
  rewrite length_app. simpl. lia.
Qed.

Lemma store_fields :
  foldl storeField (Some (mkEnvelope "" [], false))
    [(dquote :: lit "type" ++ [dquote], appendString ty);
     (dquote :: lit "payload" ++ [dquote], p)]
  = Some (mkEnvelope ty p, false).
Proof.
  cbn [foldl]. unfold storeField at 2. cbn [mbind option_bind fst snd].
  change (unquote (dquote :: lit "type" ++ [dquote])) with (Some "type").
  cbn [mbind option_bind].
  change (foldEq "type" "type") with true. cbv iota.
  unfold appendString at 1. change (Ascii.eqb dquote dquote) with true. cbv iota.
  rewrite unquote_appendString by done. cbn [mbind option_bind].
  unfold storeField. cbn [mbind option_bind fst snd].
  change (unquote (dquote :: lit "payload" ++ [dquote])) with (Some "payload").
  cbn [mbind option_bind].
  change (foldEq "payload" "type") with false.
  change (foldEq "payload" "payload") with true. done.
Qed.

Lemma round_trip :
  Marshal (mkEnvelope ty p) ≫= Unmarshal = Some (mkEnvelope ty p).
Proof.
  rewrite marshal_data. change (Unmarshal data = Some (mkEnvelope ty p)).
  rewrite Unmarshal_object by apply data_valid.
  change (objectFields _ _) with (objectFields (length data) (tail data)).
  rewrite data_fields.
  change (('(env, bad) ← foldl storeField (Some (mkEnvelope "" [], false))
             [(dquote :: lit "type" ++ [dquote], appendString ty);
              (dquote :: lit "payload" ++ [dquote], p)];
           if bad : bool then None else Some env) = Some (mkEnvelope ty p)).
  by rewrite store_fields.
Qed.
End RoundTrip.

(** * The envelope round trip *)

(** C6 (amended). An envelope whose type is well-formed UTF-8 and whose
    payload is a JSON value in the compact form the encoder writes, nested
    less than 10000 deep, is what [Unmarshal] reads from what [Marshal]
    writes for it. *)
Theorem envelope_round_trip (e : Envelope) :
  utf8.ValidString (Type_ e) = true ->
  claims.compactValue (Payload e) ->
  Marshal e ≫= Unmarshal = Some e.
Proof.
  destruct e as [ty [|c p']]; intros Hty Hp; [done|].
  by apply round_trip.
Qed.

Lemma envelope_round_trip_witness :
  utf8.ValidString (Type_ examples.envCompact) = true
  /\ claims.compactValue (Payload examples.envCompact)
  /\ Marshal examples.envCompact ≫= Unmarshal = Some examples.envCompact.
Proof.
  assert (utf8.ValidString (Type_ examples.envCompact) = true) as H1
    by (vm_compute; reflexivity).
  assert (claims.compactValue (Payload examples.envCompact)) as H2
    by (vm_compute; reflexivity).
  split; [exact H1|]. split; [exact H2|].
  exact (envelope_round_trip examples.envCompact H1 H2).
Defined.

Lemma envelope_round_trip_counterexample :
  ~ (claims.validEnvelope examples.envSpaced ->
     claims.roundTrips examples.envSpaced).
Proof.
  intros H.
  assert (claims.validEnvelope examples.envSpaced) as Hv
    by (split; vm_compute; reflexivity).
  specialize (H Hv). vm_compute in H. discriminate.
Qed.

(** * Witnesses *)

Lemma generate_invalid_change_rejected_witness :
  exists err,
    GenerateChanges examples.trim examples.decodeBad examples.patch
      (NewEngine "/repo") examples.fs0 examples.io examples.llmBad
      "Change Dockerfile"
    = (NewEngine "/repo", inr (ErrInvalidChange err))
    /\ spec.validationError err.
Proof.
  destruct (generate_invalid_change_rejected examples.trim examples.decodeBad
              examples.patch (NewEngine "/repo") examples.fs0 examples.io
              examples.llmBad "Change Dockerfile"
              (String.concat ""
                 ["File tree:"; nl; "  src/main.go"; nl])
              [provider.mkChunk
                 (examples.jsonAnswer "Modify Dockerfile" examples.badChange)
                 false;
               provider.mkChunk "" true]
              (mkResp "Modify Dockerfile" [examples.badChange]))
    as (err & Herr & Hkind & _).
  - vm_compute. reflexivity.
  - reflexivity.
  - vm_compute. reflexivity.
  - apply Exists_cons_hd. left. exists "Dockerfile". split.
    + simpl. auto.
    + left. vm_compute. reflexivity.
  - exists err. split; [exact Herr | exact Hkind].
Defined.

Lemma protected_prefix_rejected_witness :
  In "Dockerfile" protectedPaths
  /\ strings.HasPrefix (filepath.Clean "Dockerfile.backup") "Dockerfile" = true
  /\ filepath.Clean "Dockerfile.backup" <> "Dockerfile"
  /\ String.prefix "Dockerfile/" (filepath.Clean "Dockerfile.backup") = false
  /\ validateChange (mkChange "Dockerfile.backup" "create" "FROM scratch")
     = Some (ErrProtectedPath "Dockerfile.backup").
Proof.
  assert (In "Dockerfile" protectedPaths) as H1 by (simpl; auto).
  assert (strings.HasPrefix (filepath.Clean "Dockerfile.backup") "Dockerfile"
          = true) as H2 by (vm_compute; reflexivity).
  split; [exact H1|]. split; [exact H2|].
  split; [vm_compute; discriminate|]. split; [vm_compute; reflexivity|].
  exact (protected_prefix_rejected
           (mkChange "Dockerfile.backup" "create" "FROM scratch")
           "Dockerfile" H1 H2).
Defined.

Lemma history_holds_live_requests_witness :
  GenerateChanges examples.trim examples.decode examples.patch
    (NewEngine "/repo") examples.fs0 examples.io examples.llm
    "please add a module X"
  = (examples.engine0, inl 0)
  /\ History (Reject examples.engine0 examples.id0).1 = [0]
  /\ deref (Reject examples.engine0 examples.id0).1 0
     = Some (mkCR examples.id0 "add X" [examples.change0]
               [mkDiff "src/x.go" "+package x"] "rejected" 0).
Proof.
  assert (GenerateChanges examples.trim examples.decode examples.patch
            (NewEngine "/repo") examples.fs0 examples.io examples.llm
            "please add a module X"
          = (examples.engine0, inl 0)) as Hgen by (vm_compute; reflexivity).
  split; [exact Hgen|].
  destruct (history_holds_live_requests _ _ _ _ _ _ _ _ _ _ Hgen)
    as (_ & Hframe & Hlive).
  split.
  - destruct (Hframe examples.fs0 examples.id0
                (Reject examples.engine0 examples.id0).1 (or_intror eq_refl))
      as [Hh _].
    exact Hh.
  - exact (Hlive examples.cr0 eq_refl).
Defined.

Lemma send_never_blocks_witness :
  Marshal examples.envCompact = Some examples.dataCompact
  /\ closed (send examples.client) = false
  /\ Send examples.client examples.envCompact
     = (mkClient "c1" (mkChan [examples.dataCompact] 256 false), Returns None)
  /\ (Send examples.client examples.envCompact).2 <> Blocks.
Proof.
  assert (Marshal examples.envCompact = Some examples.dataCompact) as H1
    by (vm_compute; reflexivity).
  split; [exact H1|]. split; [reflexivity|].
  destruct (send_never_blocks examples.client examples.envCompact
              examples.dataCompact H1 eq_refl) as (_ & Hroom & Hnb).
  split; [|exact Hnb]. apply Hroom. simpl. lia.
Defined.

Lemma reject_always_reports_rejected_witness :
  examples.decodeApprove examples.approveBytes = Some (mkApprove examples.id0)
  /\ statuses
       (trace (handleSelfModReject examples.decodeApprove examples.handlerBare
                 examples.world "c1" examples.approveBytes).2)
     = ["rejected"].
Proof.
  assert (examples.decodeApprove examples.approveBytes
          = Some (mkApprove examples.id0)) as H1 by (vm_compute; reflexivity).
  split; [exact H1|].
  pose proof (reject_always_reports_rejected examples.decodeApprove
                examples.handlerBare examples.world "c1" examples.approveBytes
                _ H1) as H.
  destruct (handleSelfModReject _ _ _ _ _) as [h' w']. simpl.
  destruct H as (-> & _). reflexivity.
Defined.

Lemma reject_counterexample :
  ~ claims.reportsConfigurationError examples.decodeApprove
      examples.handlerBare examples.world "c1" examples.approveBytes.
Proof.
  intros H. destruct (H eq_refl) as [_ H2]. vm_compute in H2. discriminate.
Qed.

Lemma empty_provider_selects_anthropic_witness :
  examples.decodeChatSend examples.chatBytes
  = Some (mkChatSend [provider.mkMessage "user" "hello"] "")
  /\ trace (handleChatSend examples.toLower examples.decodeChatSend
              examples.handler examples.world "c1" examples.chatBytes).2
     = [Go (StreamTask "c1" examples.llm [provider.mkMessage "user" "hello"] 0)].
Proof.
  assert (examples.decodeChatSend examples.chatBytes
          = Some (mkChatSend [provider.mkMessage "user" "hello"] "")) as H1
    by (vm_compute; reflexivity).
  split; [exact H1|].
  destruct (empty_provider_selects_anthropic examples.toLower
              examples.decodeChatSend examples.decodeSelfModRequest
              examples.handler examples.world "c1" examples.chatBytes)
    as [H _].
  specialize (H _ H1 eq_refl).
  destruct (handleChatCancel examples.handler examples.world "c1")
    as [h0 w0] eqn:E0.
  destruct (handleChatSend _ _ _ _ _ _) as [h' w'] eqn:E.
  vm_compute in E0. injection E0 as <- <-.
  vm_compute in E. injection E as <- <-. reflexivity.
Defined.

Lemma publish_halts_at_failed_step_witness :
  engine examples.handler = Some examples.engine0
  /\ 8 <= String.length examples.id0
  /\ live.serialises examples.encode
  /\ live.room 4 examples.link
  /\ statuses (trace (runApprove examples.errorText examples.encode
                        (examples.handler, examples.world, examples.link)
                        examples.id0).1.2)
     = ["pushing"; "applying"; "pushing"; "error"].
Proof.
  assert (live.room 4 examples.link) as Hroom
    by (apply examples_link_room; lia).
  split; [reflexivity|]. split; [vm_compute; lia|].
  split; [exact examples_encode_serialises|]. split; [exact Hroom|].
  destruct (publish_halts_at_failed_step examples.errorText examples.encode
              examples.handler examples.world examples.link examples.id0
              examples.engine0 0 examples.cr0 examples.git examples.gh
              eq_refl eq_refl eq_refl eq_refl eq_refl)
    as (tr & Htr & _ & _ & Hcase).
  - vm_compute. lia.
  - exact examples_encode_serialises.
  - exact Hroom.
  - rewrite Htr. vm_compute in Hcase. destruct Hcase as [Hs _].
    simpl. exact Hs.
Defined.


(** * Envelopes on the wire *)

Section RoundTripBare.
Variable ty : string.
Hypothesis Hty : utf8.ValidString ty = true.

#[local] Abbreviation body0 := (appendStringLoop (String.length ty) (lit ty)).
#[local] Abbreviation data0 :=
  ("{"%char :: dquote :: lit "type" ++ dquote :: ":"%char
    :: (dquote :: body0 ++ [dquote]) ++ ["}"%char]).

Lemma marshal_bare : Marshal (mkEnvelope ty []) = Some data0.
Proof.
  unfold Marshal. cbn [Payload Type_].
  unfold appendString. simpl. f_equal. all: by rewrite <- ?app_assoc.
Qed.

Lemma bare_valid : checkValid data0 = true.
Proof.
  unfold checkValid, scan.
  assert (value Raw (S (length data0)) 0 (skipSpace data0) = Some (data0, []))
    as ->; [|done].
  simpl skipSpace.
  rewrite value_eq. cbv zeta. simpl.
  rewrite members_eq. norm.
  rewrite value_string. norm.
  by rewrite <- ?app_assoc.
Qed.

Lemma bare_fields :
  objectFields (length data0) (tail data0)
  = Some [(dquote :: lit "type" ++ [dquote], dquote :: body0 ++ [dquote])].
Proof.
  assert (exists f, length data0 = S f) as [f ->].
  { simpl. eexists. done. }
  simpl tail.
  rewrite objectFields_eq. norm.
  rewrite value_string. norm. done.
Qed.

Lemma round_trip_bare :
  Marshal (mkEnvelope ty []) ≫= Unmarshal = Some (mkEnvelope ty []).
Proof.
  rewrite marshal_bare. change (Unmarshal data0 = Some (mkEnvelope ty [])).
  rewrite Unmarshal_object by apply bare_valid.
  change (objectFields _ _) with (objectFields (length data0) (tail data0)).
  rewrite bare_fields.
  cbn [mbind option_bind foldl]. unfold storeField. cbn [mbind option_bind fst snd].
  change (unquote (dquote :: lit "type" ++ [dquote])) with (Some "type").
  cbn [mbind option_bind].
  change (foldEq "type" "type") with true. cbv iota.
  change (Ascii.eqb dquote dquote) with true. cbv iota.
  change (dquote :: body0 ++ [dquote]) with (appendString ty).
  rewrite unquote_appendString by done. done.
Qed.

End RoundTripBare.

Lemma onWire_round_trip (e : Envelope) :
  wire.onWire e -> Marshal e ≫= Unmarshal = Some e.
Proof.
  destruct e as [ty p]. intros [Hty [Hp|Hp]]; simpl in *.
  - subst p. by apply round_trip_bare.
  - destruct p as [|c p']; [done|]. by apply round_trip.
Qed.

(** X28. An envelope without payload, as the client sends for
    [chat.cancel], crosses the wire unchanged: [Marshal] leaves the
    payload member out ([omitempty]) and writes the object with the type
    alone, and [Unmarshal] reads from it the envelope with the same type
    and no payload. *)
Theorem envelope_without_payload_round_trip (ty : string) :
  utf8.ValidString ty = true ->
  Marshal (mkEnvelope ty [])
  = Some (lit "{" ++ appendString "type" ++ lit ":" ++ appendString ty
          ++ lit "}")
  /\ Marshal (mkEnvelope ty []) ≫= Unmarshal = Some (mkEnvelope ty []).
Proof.
  intros Hty. split; [|by apply round_trip_bare].
  rewrite marshal_bare. reflexivity.
Qed.

(** X29. What [Send] puts into the queue is what the envelope is read
    from: when [Send] accepts an envelope whose type is well-formed UTF-8
    and whose payload is absent or compact JSON, the queue is longer by
    one frame, and [Unmarshal] of that frame is the envelope. *)
Theorem sent_frame_decodes (c c' : Client) (env : Envelope) :
  wire.onWire env ->
  Send c env = (c', Returns None) ->
  exists frame,
    buf (send c') = buf (send c) ++ [frame]
    /\ Unmarshal frame = Some env.
Proof.
  intros Hw Hs. pose proof (onWire_round_trip env Hw) as Hrt.
  unfold Send, chansend in Hs.
  destruct (Marshal env) as [data|]; [|done]. simpl in Hrt.
  destruct (closed (send c)); [done|].
  destruct (length (buf (send c)) <? cap (send c)); [|done].
  injection Hs as <-. exists data. done.
Qed.

(** X30. The read pump hands the handler what the peer sent: on the
    frames that [Marshal] writes for a list of such envelopes, the loop of
    [readPump] calls the handler once for each envelope, in order, with
    the envelope itself. *)
Theorem read_pump_dispatches_marshalled
    {S : Type} (handler : S -> Client -> Envelope -> S)
    (st : S) (c : Client) (envs : list Envelope) (frames : list bytes) :
  Forall wire.onWire envs ->
  Forall2 (fun env frame => Marshal env = Some frame) envs frames ->
  readLoop handler st c frames
  = foldl (fun st env => handler st c env) st envs.
Proof.
  intros Hw Hf. revert st Hw.
  induction Hf as [|env frame envs frames Hm _ IH]; intros st Hw; [done|].
  apply Forall_cons_1 in Hw as [Hw Hws].
  pose proof (onWire_round_trip env Hw) as Hrt. rewrite Hm in Hrt.
  simpl in Hrt. cbn [readLoop foldl]. rewrite Hrt. by apply IH.
Qed.

(** * Wire extras on examples *)

Lemma envelope_without_payload_round_trip_witness :
  utf8.ValidString "chat.cancel" = true
  /\ Marshal (mkEnvelope "chat.cancel" []) ≫= Unmarshal
     = Some (mkEnvelope "chat.cancel" []).
Proof.
  assert (utf8.ValidString "chat.cancel" = true) as H
    by (vm_compute; reflexivity).
  split; [exact H|].
  exact (proj2 (envelope_without_payload_round_trip "chat.cancel" H)).
Defined.

Lemma examples_envCompact_onWire : wire.onWire examples.envCompact.
Proof.
  split; [vm_compute; reflexivity|]. right. vm_compute. reflexivity.
Defined.

Lemma sent_frame_decodes_witness :
  wire.onWire examples.envCompact
  /\ Send examples.client examples.envCompact
     = (mkClient "c1" (mkChan [examples.dataCompact] 256 false), Returns None)
  /\ exists frame,
       [examples.dataCompact] = [] ++ [frame]
       /\ Unmarshal frame = Some examples.envCompact.
Proof.
  assert (Send examples.client examples.envCompact
          = (mkClient "c1" (mkChan [examples.dataCompact] 256 false),
             Returns None)) as H by (vm_compute; reflexivity).
  split; [exact examples_envCompact_onWire|]. split; [exact H|].
  exact (sent_frame_decodes examples.client _ examples.envCompact
           examples_envCompact_onWire H).
Defined.

Lemma read_pump_dispatches_marshalled_witness :
  Forall2 (fun env frame => Marshal env = Some frame)
    [examples.envCompact; mkEnvelope "chat.cancel" []]
    [examples.dataCompact;
     default [] (Marshal (mkEnvelope "chat.cancel" []))]
  /\ readLoop (fun (st : list string) _ env => st ++ [Type_ env]) []
       examples.client
       [examples.dataCompact;
        default [] (Marshal (mkEnvelope "chat.cancel" []))]
     = foldl (fun st env => st ++ [Type_ env]) []
         [examples.envCompact; mkEnvelope "chat.cancel" []].
Proof.
  assert (Forall2 (fun env frame => Marshal env = Some frame)
            [examples.envCompact; mkEnvelope "chat.cancel" []]
            [examples.dataCompact;
             default [] (Marshal (mkEnvelope "chat.cancel" []))]) as H.
  { repeat constructor; vm_compute; reflexivity. }
  split; [exact H|].
  refine (read_pump_dispatches_marshalled
            (fun (st : list string) _ env => st ++ [Type_ env]) []
            examples.client _ _ _ H).
  constructor; [exact examples_envCompact_onWire|].
  constructor; [|constructor].
  split; [vm_compute; reflexivity | by left].
Defined.
